(** * Elevate: role-based access control and customer data scoping

    A shallow embedding of the permission engine of [backend/server.py]:
    the scope lattice ([_scope_rank]), the module-permission merger
    ([_merge_module_perms]), the effective-permission resolver
    ([_get_effective_permissions]), the enforcement gate ([_has_perm],
    [_require_perm]), the customer scope translator
    ([_customer_scope_query], [_get_customer_or_404]), the settings cache
    ([_ensure_settings], [update_settings]) and the customer handlers
    ([get_customers], [get_customer], [update_customer]).

    Python dictionaries are finite maps ([gmap]) keyed by strings; the
    asynchronous functions, which read and write the MongoDB collections
    and the module-level settings cache, are written in a state-and-error
    monad over an explicit [world]. *)

From Stdlib Require Import ZArith.
From stdpp Require Import gmap strings list fin_maps pretty.

#[local] Open Scope string_scope.
#[local] Open Scope Z_scope.
#[local] Set Warnings "-register-all".

(** ** JSON-like values and documents *)

(** The values stored in MongoDB documents and JWT payloads.  [VNum]
    stands for a JSON number (the modelled paths only copy and compare
    numbers), [VTime] for a Python [datetime]. *)
Inductive value :=
| VNone
| VBool (b : bool)
| VNum (n : Z)
| VStr (s : string)
| VTime (t : Z)
| VList (l : list value)
| VDict (d : list (string * value)).

(** A document: a Python [dict] with string keys.  The [_id] key of
    MongoDB is projected away by every query of the source and is not
    represented. *)
Abbreviation doc := (gmap string value).

(** Python truthiness, as used by [if x], [x or y] and [bool(x)]. *)
Definition truthy (v : value) : bool :=
  match v with
  | VNone => false
  | VBool b => b
  | VNum n => negb (n =? 0)
  | VStr s => negb (String.eqb s EmptyString)
  | VTime _ => true
  | VList l => match l with [] => false | _ => true end
  | VDict d => match d with [] => false | _ => true end
  end.

(** [bool(d.get(k))] *)
Definition truthy_at (d : doc) (k : string) : bool :=
  match d !! k with Some v => truthy v | None => false end.

(** [d.get(k)] when the field is typed [Optional[str]]: the string, or
    [None] for an absent or null field. *)
Definition get_str (d : doc) (k : string) : option string :=
  match d !! k with Some (VStr s) => Some s | _ => None end.

(** ** Module permissions *)

(** One module-permission fragment, the dict
    [{"enabled": .., "scope": .., "actions": {..}, <extra policy keys>}].
    A field is [None] when its key is absent (or null); [mp_extra] holds
    every key other than the three reserved ones. *)
Record module_perm := ModulePerm {
  mp_enabled : option bool;
  mp_scope : option string;
  mp_actions : option (gmap string bool);
  mp_extra : doc
}.

(** The empty dict [{}]. *)
Definition empty_perm : module_perm := ModulePerm None None None ∅.

(** [bool(mp.get("enabled"))] *)
Definition enabled_of (mp : module_perm) : bool := default false (mp_enabled mp).

(** [bool((mp.get("actions") or {}).get(action))] *)
Definition action_of (mp : module_perm) (action : string) : bool :=
  default false (default ∅ (mp_actions mp) !! action).

(** *** Scope lattice *)

Definition _scope_rank (scope : option string) : Z :=
  match scope with
  | None => 0
  | Some s =>
      if String.eqb s "none" then 0
      else if String.eqb s "own" then 1
      else if String.eqb s "team" then 2
      else if String.eqb s "all" then 3
      else 0
  end.

(** *** Merger *)

(** The loop [for k, v in b_actions.items(): actions[k] = bool(actions.get(k)) or bool(v)]. *)
Definition merge_actions (actions b_actions : gmap string bool) : gmap string bool :=
  map_fold (λ k v acc, <[k := default false (acc !! k) || v]> acc) actions b_actions.

Definition _merge_module_perms (a b : module_perm) : module_perm :=
  (* out = {**a}; if "enabled" in b: out["enabled"] = bool(out.get("enabled")) or bool(b.get("enabled")) *)
  let out_enabled :=
    match mp_enabled b with
    | Some eb => Some (enabled_of a || eb)
    | None => mp_enabled a
    end in
  let sa := mp_scope a in
  let sb := mp_scope b in
  let out_scope := if _scope_rank sb <=? _scope_rank sa then sa else sb in
  let actions := merge_actions (default ∅ (mp_actions a)) (default ∅ (mp_actions b)) in
  (* if actions: out["actions"] = actions *)
  let out_actions :=
    if decide (actions = ∅) then mp_actions a else Some actions in
  (* for k, v in b.items(): if k not in {"enabled", "scope", "actions"}: out[k] = v *)
  ModulePerm out_enabled out_scope out_actions (mp_extra b ∪ mp_extra a).

(** ** Configuration: role permissions and the settings document *)

(** [role_permissions]: role name to module map, the value of
    [role_permissions[r]["modules"]]; a role entry without a ["modules"]
    key behaves as the empty map under the source's [or {}]. *)
Abbreviation role_perms := (gmap string (gmap string module_perm)).

Record RoleDefinition := { rd_role : string; rd_name : string; rd_desc : string }.

(** The single document of [db.settings] (id ["global"]).  The two keys
    that [_ensure_settings] inspects are fields; [sd_other] carries the
    remaining keys (organization, tags, dropdowns, ...). *)
Record settings_doc := SettingsDoc {
  sd_role_permissions : option role_perms;
  sd_roles : option (list RoleDefinition);
  sd_other : doc
}.

(** [SettingsUpdate.model_dump(exclude_none=True)]: a field is [None]
    when the payload leaves it out. *)
Record SettingsUpdate := {
  su_role_permissions : option role_perms;
  su_roles : option (list RoleDefinition);
  su_other : doc
}.

Definition perm_enabled (b : bool) : module_perm :=
  ModulePerm (Some b) None None ∅.

Definition perm_crud (sc : string) (c e d : bool) : module_perm :=
  ModulePerm (Some true) (Some sc)
    (Some {[ "create" := c; "edit" := e; "delete" := d ]}) ∅.

Definition perm_docs (sc : string) (c d : bool) : module_perm :=
  ModulePerm (Some true) (Some sc) (Some {[ "create" := c; "delete" := d ]}) ∅.

Definition _default_role_permissions : role_perms :=
  {[ "ADMIN" := {[
       "dashboard" := perm_enabled true;
       "customers" := perm_crud "all" true true true;
       "activities" := perm_crud "all" true true true;
       "risks" := perm_crud "all" true true true;
       "opportunities" := perm_crud "all" true true true;
       "tasks" := perm_crud "all" true true true;
       "datalabs_reports" := perm_crud "all" true true true;
       "documents" := perm_docs "all" true true;
       "exports" := perm_enabled true;
       "users" := perm_enabled true;
       "settings" := perm_enabled true ]};
     "CS_OPS" := {[
       "dashboard" := perm_enabled true;
       "customers" := perm_crud "all" true true true;
       "activities" := perm_crud "all" true true true;
       "risks" := perm_crud "all" true true true;
       "opportunities" := perm_crud "all" true true true;
       "tasks" := perm_crud "all" true true true;
       "datalabs_reports" := perm_crud "all" true true true;
       "documents" := perm_docs "all" true true;
       "exports" := perm_enabled true;
       "users" := perm_enabled true;
       "settings" := perm_enabled true ]};
     "CS_LEADER" := {[
       "dashboard" := perm_enabled true;
       "customers" := perm_crud "all" true true false;
       "activities" := perm_crud "all" true true false;
       "risks" := perm_crud "all" true true false;
       "opportunities" := perm_crud "all" true true false;
       "tasks" := perm_crud "all" true true false;
       "datalabs_reports" := perm_crud "all" true false false;
       "documents" := perm_docs "all" true false;
       "exports" := perm_enabled true;
       "users" := perm_enabled true;
       "settings" := perm_enabled false ]};
     "CSM" := {[
       "dashboard" := perm_enabled true;
       "customers" := perm_crud "own" true true false;
       "activities" := perm_crud "own" true true false;
       "risks" := perm_crud "own" true true false;
       "opportunities" := perm_crud "own" true true false;
       "tasks" := perm_crud "own" true true false;
       "datalabs_reports" := perm_crud "own" true false false;
       "documents" := perm_docs "own" true true;
       "exports" := perm_enabled false;
       "users" := perm_enabled false;
       "settings" := perm_enabled false ]};
     "AM" := {[
       "dashboard" := perm_enabled true;
       "customers" := perm_crud "team" true true false;
       "activities" := perm_crud "team" true true false;
       "risks" := perm_crud "team" true true false;
       "opportunities" := perm_crud "team" true true false;
       "tasks" := perm_crud "team" true true false;
       "datalabs_reports" := perm_crud "team" true false false;
       "documents" := perm_docs "team" true true;
       "exports" := perm_enabled false;
       "users" := perm_enabled true;
       "settings" := perm_enabled false ]};
     "SALES" := {[
       "dashboard" := perm_enabled true;
       "customers" :=
         ModulePerm (Some true) (Some "all")
           (Some {[ "create" := false; "edit" := false; "delete" := false ]})
           {[ "field_policy" := VStr "sales_limited" ]};
       "opportunities" := perm_crud "all" false true false;
       "activities" := perm_enabled false;
       "risks" := perm_enabled false;
       "tasks" := perm_enabled false;
       "datalabs_reports" := perm_enabled false;
       "documents" := perm_enabled false;
       "exports" := perm_enabled false;
       "users" := perm_enabled false;
       "settings" := perm_enabled false ]};
     "READ_ONLY" := {[
       "dashboard" := perm_enabled true;
       "customers" := perm_crud "own" false false false;
       "activities" := perm_crud "own" false false false;
       "risks" := perm_crud "own" false false false;
       "opportunities" := perm_crud "own" false false false;
       "tasks" := perm_crud "own" false false false;
       "datalabs_reports" := perm_crud "own" false false false;
       "documents" := perm_docs "own" false false;
       "exports" := perm_enabled false;
       "users" := perm_enabled false;
       "settings" := perm_enabled false ]} ]}.

(** ** The acting user (decoded JWT payload) *)

Record current_user := CurrentUser {
  cu_user_id : option string;
  cu_role : option string;
  cu_roles : option (list string)
}.

Definition nonempty (s : string) : bool := negb (String.eqb s EmptyString).

Definition _roles (u : current_user) : list string :=
  match cu_roles u with
  | Some (x :: rs) => List.filter nonempty (x :: rs)
  | _ =>
      match cu_role u with
      | Some r => if nonempty r then [r] else []
      | None => []
      end
  end.

(** [str(current_user.get("user_id") or '')] *)
Definition _user_id (u : current_user) : string := default EmptyString (cu_user_id u).

Definition ROLE_ADMINISH : gset string := {[ "ADMIN"; "CS_OPS"; "CS_LEADER" ]}.
Definition ROLE_SETTINGS_ADMIN : gset string := {[ "ADMIN"; "CS_OPS" ]}.

(** [set(_roles(current_user))] *)
Definition role_set (u : current_user) : gset string := list_to_set (_roles u).

(** ** MongoDB queries *)

(** A condition on one field: [{field: s}] or [{field: {"$in": ss}}]. *)
Inductive cond :=
| QEq (s : string)
| QIn (ss : list string).

(** A flat query document, as found inside ["$or"]. *)
Abbreviation clause := (gmap string cond).

(** The value bound to a top-level key of a query document: a field
    condition, or, under the key ["$or"], a list of alternatives. *)
Inductive qvalue :=
| Field (c : cond)
| QOr (alternatives : list clause).

Abbreviation query := (gmap string qvalue).

Definition is_str (s : string) (v : value) : bool :=
  match v with VStr x => String.eqb x s | _ => false end.

(** MongoDB equality on a string: the field holds [s], or holds an array
    with [s] among its elements. *)
Definition field_has (d : doc) (k s : string) : bool :=
  match d !! k with
  | Some (VStr x) => String.eqb x s
  | Some (VList l) => existsb (is_str s) l
  | _ => false
  end.

Definition cond_holds (d : doc) (k : string) (c : cond) : bool :=
  match c with
  | QEq s => field_has d k s
  | QIn ss => existsb (field_has d k) ss
  end.

Definition clause_holds (d : doc) (cl : clause) : bool :=
  bool_decide (map_Forall (λ k c, cond_holds d k c) cl).

Definition qvalue_holds (d : doc) (k : string) (qv : qvalue) : bool :=
  match qv with
  | Field c => cond_holds d k c
  | QOr alternatives => existsb (clause_holds d) alternatives
  end.

(** Does document [d] satisfy query [q]?  Every top-level key must hold. *)
Definition matches (q : query) (d : doc) : bool :=
  bool_decide (map_Forall (λ k qv, qvalue_holds d k qv) q).

(** [collection.find(q)] and [collection.find_one(q)] over a collection
    kept in insertion order. *)
Definition find (coll : list doc) (q : query) : list doc :=
  List.filter (matches q) coll.

Definition find_one (coll : list doc) (q : query) : option doc :=
  head (find coll q).

(** An inclusion projection [{"_id": 0, f1: 1, ..}] keeps the listed
    fields. *)
Definition project (fields : list string) (d : doc) : doc :=
  filter (λ kv, kv.1 ∈ fields) d.

(** The effect of an accepted [collection.update_one(q, {"$set": upd})]:
    the first matching document receives the keys of [upd].  A write
    that sets no uniquely indexed field (the health and account status
    updates) is always accepted; one that may set such a field goes
    through [update_one_unique] below. *)
Fixpoint update_one (coll : list doc) (q : query) (upd : doc) : list doc :=
  match coll with
  | [] => []
  | d :: rest =>
      if matches q d then (upd ∪ d) :: rest else d :: update_one rest q upd
  end.

(** *** Unique indexes *)

(** Equality of values is decidable. *)
Fixpoint value_eq_dec (a b : value) : {a = b} + {a ≠ b}.
Proof.
  decide equality.
  - apply Bool.bool_dec.
  - apply Z.eq_dec.
  - apply String.string_dec.
  - apply Z.eq_dec.
  - apply (List.list_eq_dec value_eq_dec).
  - apply List.list_eq_dec. decide equality. apply String.string_dec.
Defined.

#[global] Instance value_eq_decision : EqDecision value := value_eq_dec.

(** The unique indexes of [db.customers] ([INDEXES] of [db_schema.py],
    installed by [ensure_schema] at startup). *)
Definition customers_unique : list string := [ "id"; "company_name" ].

(** The key a document contributes to the index on the field [k]; a
    missing field is indexed as null.  The indexed fields hold scalars
    (strings, by the validator of the collection). *)
Definition index_key (k : string) (d : doc) : value := default VNone (d !! k).

(** Does replacing the document [old] by [new] violate a unique index,
    [others] being the other documents of the collection?  It does when
    the key of an indexed field changes to the key of another document. *)
Definition duplicate_key (unique : list string) (others : list doc) (old new : doc)
    : bool :=
  existsb (λ k,
    bool_decide (index_key k new ≠ index_key k old)
    && existsb (λ other, bool_decide (index_key k other = index_key k new)) others)
    unique.

(** The collection without its first document matching [q]. *)
Fixpoint without_first (coll : list doc) (q : query) : list doc :=
  match coll with
  | [] => []
  | d :: rest => if matches q d then rest else d :: without_first rest q
  end.

(** [collection.update_one(q, {"$set": upd})] on a collection with
    unique indexes: the new collection, or [None] for the
    [DuplicateKeyError] of a violated index, nothing being written then. *)
Definition update_one_unique (unique : list string) (coll : list doc) (q : query)
    (upd : doc) : option (list doc) :=
  match find_one coll q with
  | None => Some coll
  | Some old =>
      if duplicate_key unique (without_first coll q) old (upd ∪ old) then None
      else Some (update_one coll q upd)
  end.

(** ** The world: collections, settings cache, clock *)

(** The three collections the engine reads and writes, the two
    module-level cache variables, and the clock: [clock] supplies the
    successive readings of [datetime.now()], in seconds, and [ticks]
    counts the readings taken so far.  The database handle is taken to be
    connected ([db is not None]). *)
Record world := World {
  db_settings : option settings_doc;
  db_users : list doc;
  db_customers : list doc;
  SETTINGS_CACHE : option settings_doc;
  SETTINGS_CACHE_TIMESTAMP : Z;
  clock : nat → Z;
  ticks : nat
}.

Definition CACHE_TTL : Z := 300.

(** Outcome of a call: a value, an [HTTPException], or any other Python
    exception (answered with status 500 by the global handler). *)
Inductive result (A : Type) : Type :=
| Ok (a : A)
| HTTPException (status_code : Z) (detail : string)
| Exception (what : string).
Arguments Ok {A} a.
Arguments HTTPException {A} status_code detail.
Arguments Exception {A} what.

Definition M (A : Type) : Type := world → result A * world.

#[global] Instance M_ret : MRet M := λ A a w, (Ok a, w).

#[global] Instance M_bind : MBind M := λ A B f m w,
  match m w with
  | (Ok a, w') => f a w'
  | (HTTPException c d, w') => (HTTPException c d, w')
  | (Exception e, w') => (Exception e, w')
  end.

Definition get_world : M world := λ w, (Ok w, w).
Definition raise {A} (status_code : Z) (detail : string) : M A :=
  λ w, (HTTPException status_code detail, w).
Definition throw {A} (what : string) : M A := λ w, (Exception what, w).

(** [datetime.now().timestamp()] *)
Definition datetime_now : M Z := λ w,
  (Ok (clock w (ticks w)),
   World (db_settings w) (db_users w) (db_customers w)
     (SETTINGS_CACHE w) (SETTINGS_CACHE_TIMESTAMP w) (clock w) (S (ticks w))).

Definition set_db_settings (s : option settings_doc) : M unit := λ w,
  (Ok tt,
   World s (db_users w) (db_customers w)
     (SETTINGS_CACHE w) (SETTINGS_CACHE_TIMESTAMP w) (clock w) (ticks w)).

Definition set_db_customers (cs : list doc) : M unit := λ w,
  (Ok tt,
   World (db_settings w) (db_users w) cs
     (SETTINGS_CACHE w) (SETTINGS_CACHE_TIMESTAMP w) (clock w) (ticks w)).

(** [SETTINGS_CACHE = s; SETTINGS_CACHE_TIMESTAMP = now] *)
Definition set_cache (s : settings_doc) (now : Z) : M unit := λ w,
  (Ok tt,
   World (db_settings w) (db_users w) (db_customers w)
     (Some s) now (clock w) (ticks w)).

(** ** Settings: lazy load, backfill, cache *)

Definition backfill_roles : list RoleDefinition :=
  [ {| rd_role := "SALES"; rd_name := "Sales (View Only)";
       rd_desc := "View customers and opportunities (read-only)" |};
    {| rd_role := "READ_ONLY"; rd_name := "Read Only";
       rd_desc := "Read-only access within assigned scope" |} ].

Definition default_roles : list RoleDefinition :=
  ([ {| rd_role := "ADMIN"; rd_name := "Administrator";
       rd_desc := "Full access to all features and settings" |};
    {| rd_role := "CSM"; rd_name := "Customer Success Manager";
       rd_desc := "Manage assigned customers, activities, tasks" |};
    {| rd_role := "AM"; rd_name := "Account Manager";
       rd_desc := "View customers, manage opportunities and renewals" |};
    {| rd_role := "CS_LEADER"; rd_name := "CS Leadership";
       rd_desc := "View all customers, reports, team performance" |};
    {| rd_role := "CS_OPS"; rd_name := "CS Operations";
       rd_desc := "Manage settings, configurations, reports" |} ]
  ++ backfill_roles)%list.

(** The display part of the default [SettingsDoc]; dropdowns, field
    configurations and templates, which no modelled function reads, are
    not listed. *)
Definition default_other : doc :=
  {[ "id" := VStr "global";
     "tags" := VList (VStr <$>
       [ "Enterprise"; "SMB"; "Strategic"; "High Touch"; "Tech Touch";
         "At Risk"; "Champion"; "Expansion Ready"; "Renewal Due";
         "Upsell Target" ]) ]}.

Definition default_settings : settings_doc :=
  SettingsDoc (Some _default_role_permissions) (Some default_roles) default_other.

(** [{**base, **top}] on settings documents, also the effect of
    [update_one(.., {"$set": top})] on the stored document [base]. *)
Definition overlay (top base : settings_doc) : settings_doc :=
  SettingsDoc
    (match sd_role_permissions top with Some rp => Some rp | None => sd_role_permissions base end)
    (match sd_roles top with Some rs => Some rs | None => sd_roles base end)
    (sd_other top ∪ sd_other base).

(** The [missing_updates] of [_ensure_settings], as a partial settings
    document; [None] when there is nothing to backfill. *)
Definition missing_updates (existing : settings_doc) : option settings_doc :=
  let rp :=
    match sd_role_permissions existing with
    | None => Some _default_role_permissions
    | Some m => if Nat.eqb (size m) 0 then Some _default_role_permissions else None
    end in
  let existing_roles := default [] (sd_roles existing) in
  let have : list string := rd_role <$> existing_roles in
  let to_add := List.filter (λ rr, bool_decide (rd_role rr ∉ have)) backfill_roles in
  let rs := match to_add with [] => None | _ => Some (existing_roles ++ to_add)%list end in
  match rp, rs with
  | None, None => None
  | _, _ => Some (SettingsDoc rp rs ∅)
  end.

Definition _ensure_settings (force_refresh : bool) : M settings_doc :=
  now ← datetime_now;
  w ← get_world;
  let cached :=
    if force_refresh then None
    else match SETTINGS_CACHE w with
         | Some c => if now - SETTINGS_CACHE_TIMESTAMP w <? CACHE_TTL then Some c else None
         | None => None
         end in
  match cached with
  | Some c => mret c
  | None =>
      match db_settings w with
      | Some existing =>
          (* if missing_updates: update_one(..., {"$set": missing_updates}); re-read *)
          existing ←
            match missing_updates existing with
            | Some upd =>
                set_db_settings (Some (overlay upd existing));;
                mret (overlay upd existing)
            | None => mret existing
            end;
          set_cache existing now;;
          mret existing
      | None =>
          set_db_settings (Some default_settings);;
          set_cache default_settings now;;
          mret default_settings
      end
  end.

(** ** Effective permissions and the enforcement gate *)

(** [{"modules": {...}}] *)
Record effective := Effective { modules : gmap string module_perm }.

(** One pass of the inner loop of [_get_effective_permissions] for the
    module map [rp] of a role. *)
Definition merge_role (eff : gmap string module_perm) (rp : gmap string module_perm)
    : gmap string module_perm :=
  map_fold (λ key mp eff,
    let cur := default empty_perm (eff !! key) in
    <[key := _merge_module_perms cur mp]> eff) eff rp.

Definition _get_effective_permissions (u : current_user) : M effective :=
  settings ← _ensure_settings false;
  let role_perms := default ∅ (sd_role_permissions settings) in
  let roles := match _roles u with [] => ["READ_ONLY"] | rs => rs end in
  mret (Effective
    (foldl (λ eff r, merge_role eff (default ∅ (role_perms !! r))) ∅ roles)).

(** [if not action]: no action, or the empty string. *)
Definition action_given (action : option string) : option string :=
  match action with
  | Some a => if nonempty a then Some a else None
  | None => None
  end.

Definition _has_perm (eff : effective) (module_key : string) (action : option string) : bool :=
  let mp := default empty_perm (modules eff !! module_key) in
  if negb (enabled_of mp) then false
  else match action_given action with
       | None => true
       | Some a => action_of mp a
       end.

Definition Forbidden {A} : result A := HTTPException 403 "Forbidden".

Definition _require_perm (u : current_user) (module_key : string) (action : option string)
    : M effective :=
  eff ← _get_effective_permissions u;
  if negb (_has_perm eff module_key action) then raise 403 "Forbidden"
  else mret eff.

(** [((eff.get("modules") or {}).get("customers") or {}).get("scope")] *)
Definition customers_scope (eff : effective) : option string :=
  mp_scope (default empty_perm (modules eff !! "customers")).

Definition _require_roles (u : current_user) (allowed : gset string) : M unit :=
  if decide (role_set u ∩ allowed = ∅) then raise 403 "Forbidden" else mret tt.

(** [try: body  except Exception: handler] ([HTTPException] is an
    [Exception] too); the effects of [body] up to the failure stay. *)
Definition try_except {A} (body handler : M A) : M A := λ w,
  match body w with
  | (Ok a, w') => (Ok a, w')
  | (_, w') => handler w'
  end.

(** ** Scope query translator *)

(** The ids collected by the team lookup:
    [db.users.find({"manager_id": uid, "$or": [{"role": "CSM"},
    {"roles": {"$in": ["CSM"]}}]}, {"_id": 0, "id": 1}).to_list(5000)],
    then [[u.get("id") for u in managed_csms if u.get("id")]]. *)
Definition managed_csms (users : list doc) (uid : string) : list doc :=
  take 5000
    (project ["id"] <$>
       find users
         {[ "manager_id" := Field (QEq uid);
            "$or" := QOr [ {[ "role" := QEq "CSM" ]}; {[ "roles" := QIn ["CSM"] ]} ] ]}).

Definition managed_csm_ids (users : list doc) (uid : string) : list string :=
  omap (λ u, match get_str u "id" with
             | Some i => if nonempty i then Some i else None
             | None => None
             end) (managed_csms users uid).

Definition _customer_scope_query (u : current_user) : M query :=
  let roles := role_set u in
  let uid := _user_id u in
  if decide (roles ∩ ROLE_ADMINISH ≠ ∅) then mret ∅
  else
    configured_scope ←
      try_except
        (eff ← _get_effective_permissions u;
         let customer_mod := default empty_perm (modules eff !! "customers") in
         mret (mp_scope customer_mod))
        (mret None);
    if decide ("SALES" ∈ roles) then
      mret (match configured_scope with
            | None => ∅
            | Some s => if String.eqb s "all" then ∅
                        else {[ "id" := Field (QEq "__none__") ]}
            end)
    else if bool_decide (configured_scope = Some "own")
            || (bool_decide ("CSM" ∈ roles) && bool_decide ("AM" ∉ roles)) then
      mret {[ "csm_owner_id" := Field (QEq uid) ]}
    else if bool_decide (configured_scope = Some "team") || bool_decide ("AM" ∈ roles) then
      w ← get_world;
      let managed_csm_ids := managed_csm_ids (db_users w) uid in
      mret {[ "$or" := QOr [ {[ "am_owner_id" := QEq uid ]};
                            {[ "csm_owner_id" := QIn managed_csm_ids ]} ] ]}
    else if bool_decide (configured_scope = Some "all") then mret ∅
    else mret {[ "id" := Field (QEq "__none__") ]}.

(** [query = {"id": customer_id}; query.update(scope)]: the keys of the
    scope filter replace equal keys of the id query.  A document found by
    a query on ["id"] is never the empty dict, so [if not customer] is the
    test for [None]. *)
Definition _get_customer_or_404 (customer_id : string) (u : current_user) : M doc :=
  scope ← _customer_scope_query u;
  let query : query := scope ∪ {[ "id" := Field (QEq customer_id) ]} in
  w ← get_world;
  match find_one (db_customers w) query with
  | None => raise 404 "Customer not found"
  | Some customer => mret customer
  end.

(** ** Settings update *)

Definition as_settings (p : SettingsUpdate) : settings_doc :=
  SettingsDoc (su_role_permissions p) (su_roles p) (su_other p).

Definition update_settings (payload : SettingsUpdate) (u : current_user) : M settings_doc :=
  _require_roles u ROLE_SETTINGS_ADMIN;;
  existing ← _ensure_settings false;
  let merged := overlay (as_settings payload) existing in
  (* update_one({"id": "global"}, {"$set": merged}, upsert=True) *)
  w ← get_world;
  let stored :=
    match db_settings w with
    | Some d => overlay merged d
    | None => overlay merged (SettingsDoc None None {[ "id" := VStr "global" ]})
    end in
  set_db_settings (Some stored);;
  mret stored.

(** ** Customer handlers *)

Section Handlers.

(** Library functions the handlers call, not embedded: ISO-8601
    parsing and printing of timestamps ([None] stands for
    [ValueError]), the identifier drawn by [uuid.uuid4()], and the
    floating-point health score of [calculate_health_score], a function
    of the customer document and of the current time. *)
Variable fromisoformat : string → option Z.
Variable isoformat : Z → string.
Variable uuid4 : string.
Variable health_score_at : option Z → doc → Z.

(** *** The [Customer] response model *)

(** The fields of [class Customer(BaseModel)] that have a constant
    default; [id], [created_at] and [updated_at] have default
    factories, [company_name] is required. *)
Definition Customer_defaults : doc :=
  list_to_map
    [ ("website", VNone); ("industry", VNone); ("region", VNone);
      ("plan_type", VNone); ("arr", VNone);
      ("one_time_setup_cost", VNone); ("quarterly_consumption_cost", VNone);
      ("contract_start_date", VNone); ("contract_end_date", VNone);
      ("renewal_date", VNone); ("go_live_date", VNone);
      ("products_purchased", VList []);
      ("onboarding_status", VStr "Not Started");
      ("account_status", VStr "Live");
      ("health_score", VNum 50);
      ("health_status", VStr "At Risk");
      ("risk_level", VNone); ("primary_objective", VNone);
      ("calls_processed", VNum 0); ("active_users", VNum 0);
      ("total_licensed_users", VNum 0);
      ("csm_owner_id", VNone); ("csm_owner_name", VNone);
      ("am_owner_id", VNone); ("am_owner_name", VNone);
      ("tags", VList []); ("stakeholders", VList []);
      ("last_activity_date", VNone) ].


Definition Customer_fields : list string :=
  [ "id"; "company_name"; "website"; "industry"; "region"; "plan_type";
    "arr"; "one_time_setup_cost"; "quarterly_consumption_cost";
    "contract_start_date"; "contract_end_date"; "renewal_date";
    "go_live_date"; "products_purchased"; "onboarding_status";
    "account_status"; "health_score"; "health_status"; "risk_level";
    "primary_objective"; "calls_processed"; "active_users";
    "total_licensed_users"; "csm_owner_id"; "csm_owner_name";
    "am_owner_id"; "am_owner_name"; "tags"; "stakeholders";
    "last_activity_date"; "created_at"; "updated_at" ].

(** A field that is given, or else produced by its default factory. *)
Definition or_now (given : option value) : M value :=
  match given with
  | Some v => mret v
  | None => t ← datetime_now; mret (VTime t)
  end.

(** The constructor call [Customer] on the keyword arguments [d]: keys
    that are not model fields are ignored
    ([extra="ignore"]), a missing [company_name] is a validation error,
    every other missing field takes its default.  Pydantic's type
    validation of the fields that are present is not modelled: stored
    documents are taken to be well-typed. *)
Definition Customer_init (d : doc) : M doc :=
  match d !! "company_name" with
  | Some (VStr _) =>
      created_at ← or_now (d !! "created_at");
      updated_at ← or_now (d !! "updated_at");
      mret (<[ "id" := default (VStr uuid4) (d !! "id") ]>
            (<[ "created_at" := created_at ]>
             (<[ "updated_at" := updated_at ]>
              (project Customer_fields d ∪ Customer_defaults))))
  | _ => throw "ValidationError"
  end.

(** [if isinstance(customer.get(k), str): customer[k] = datetime.fromisoformat(customer[k])] *)
Definition parse_date (k : string) (customer : doc) : M doc :=
  match customer !! k with
  | Some (VStr s) =>
      match fromisoformat s with
      | Some t => mret (<[ k := VTime t ]> customer)
      | None => throw "ValueError"
      end
  | _ => mret customer
  end.

Definition parse_dates (customer : doc) : M doc :=
  customer ← parse_date "created_at" customer;
  parse_date "updated_at" customer.

(** *** Field policy *)

Definition sales_fields : list string :=
  [ "id"; "company_name"; "arr"; "renewal_date"; "health_score";
    "health_status"; "account_status"; "csm_owner_name"; "am_owner_name";
    "region"; "industry" ].

(** [customer_mod.get("field_policy") == "sales_limited"] *)
Definition sales_limited (eff : effective) : bool :=
  let customer_mod := default empty_perm (modules eff !! "customers") in
  match mp_extra customer_mod !! "field_policy" with
  | Some (VStr s) => String.eqb s "sales_limited"
  | _ => false
  end.

(** [for customer in customers: ...] with the two date conversions. *)
Fixpoint parse_all (customers : list doc) : M (list doc) :=
  match customers with
  | [] => mret []
  | c :: rest =>
      c' ← parse_dates c;
      rest' ← parse_all rest;
      mret (c' :: rest')
  end.

(** [GET /customers].  The database handle is taken to be connected, so
    [_check_db_connection] passes.  The value is the list the handler
    returns; the route's [response_model=List[Customer]] is applied to
    it by the framework (see [response_model]). *)
Definition get_customers (u : current_user) : M (list doc) := λ w,
  let body : M (list doc) :=
    eff ← _require_perm u "customers" None;
    scope ← _customer_scope_query u;
    w ← get_world;
    let found := find (db_customers w) scope in
    let customers :=
      take 1000 (if sales_limited eff then project sales_fields <$> found else found) in
    parse_all customers in
  match body w with
  | (Exception e, w') => (HTTPException 503 ("Database error: " +:+ e), w')
  | other => other
  end.



(** *** Customer update *)

(** [d.get(k) is None] *)
Definition is_none (d : doc) (k : string) : bool :=
  match d !! k with
  | None | Some VNone => true
  | Some _ => false
  end.

Definition determine_health_status (score : value) : M value :=
  match score with
  | VNum n =>
      mret (VStr (if 80 <=? n then "Healthy"
                  else if 50 <=? n then "At Risk" else "Critical"))
  | _ => throw "TypeError"
  end.

(** The clock is read when [last_activity_date] is set. *)
Definition calculate_health_score (customer : doc) : M value :=
  if truthy_at customer "last_activity_date" then
    now ← datetime_now; mret (VNum (health_score_at (Some now) customer))
  else mret (VNum (health_score_at None customer)).

(** [db.users.find_one({"id": v}, {"_id": 0, ...})] for the owner id [v]
    of a customer ([Optional[str]] in [CustomerCreate]). *)
Definition user_by_id (users : list doc) (v : option value) : option doc :=
  match v with
  | Some (VStr s) => find_one users {[ "id" := Field (QEq s) ]}
  | _ => None
  end.

(** [name = None; if effective.get(k): user = find_one(..); if user: name = user['name']] *)
Definition owner_name (users : list doc) (effective : doc) (k : string) : M value :=
  if truthy_at effective k then
    match user_by_id users (effective !! k) with
    | Some user =>
        match user !! "name" with
        | Some n => mret n
        | None => throw "KeyError"
        end
    | None => mret VNone
    end
  else mret VNone.

(** The tail of [update_customer] that settles the health fields of
    [update_dict]: kept from the stored customer when not provided,
    computed when neither has them. *)
Definition maintain_health (existing update_dict : doc) : M doc :=
  let update_dict :=
    if is_none update_dict "health_score"
    then <[ "health_score" := default VNone (existing !! "health_score") ]> update_dict
    else update_dict in
  let update_dict :=
    if is_none update_dict "health_status"
    then <[ "health_status" := default VNone (existing !! "health_status") ]> update_dict
    else update_dict in
  update_dict ←
    (if is_none update_dict "health_score" then
       score ← calculate_health_score (update_dict ∪ existing);
       mret (<[ "health_score" := score ]> update_dict)
     else mret update_dict);
  if is_none update_dict "health_status" then
    status ← determine_health_status (default VNone (update_dict !! "health_score"));
    mret (<[ "health_status" := status ]> update_dict)
  else mret update_dict.

(** [if effective.get("csm_owner_id") and not effective.get("am_owner_id")]:
    the AM owner is taken from the CSM's [manager_id]. *)
Definition auto_map_am (users : list doc) (effective : doc) : doc :=
  if truthy_at effective "csm_owner_id" && negb (truthy_at effective "am_owner_id") then
    match user_by_id users (effective !! "csm_owner_id") with
    | Some csm_user =>
        match csm_user !! "manager_id" with
        | Some m => if truthy m then <[ "am_owner_id" := m ]> effective else effective
        | None => effective
        end
    | None => effective
    end
  else effective.

(** The [update_dict] that [update_customer] writes, from
    [effective = customer_data.model_dump()] on. *)
Definition build_update (existing customer_data : doc) (u : current_user) : M doc :=
  let effective := customer_data in
  (* If scope is own, do not allow reassigning away from self *)
  cust_scope ←
    try_except
      (eff ← _get_effective_permissions u;
       mret (mp_scope (default empty_perm (modules eff !! "customers"))))
      (mret None);
  let effective :=
    if bool_decide (cust_scope = Some "own")
    then <[ "csm_owner_id" := VStr (_user_id u) ]> effective
    else effective in
  w ← get_world;
  let users := db_users w in
  let effective := auto_map_am users effective in
  csm_name ← owner_name users effective "csm_owner_id";
  am_name ← owner_name users effective "am_owner_id";
  now ← datetime_now;
  let update_dict :=
    <[ "updated_at" := VStr (isoformat now) ]>
      (<[ "am_owner_name" := am_name ]>
         (<[ "csm_owner_name" := csm_name ]> effective)) in
  maintain_health existing update_dict.

(** [PUT /customers/{customer_id}].  The write is subject to the unique
    indexes of the collection; its JSON-schema validator constrains the
    BSON types of the fields, which a [CustomerCreate] payload and the
    names and scores added here satisfy, and is not represented. *)
Definition update_customer (customer_id : string) (customer_data : doc)
    (u : current_user) : M doc :=
  _require_perm u "customers" (Some "edit");;
  w ← get_world;
  match find_one (db_customers w) {[ "id" := Field (QEq customer_id) ]} with
  | None => raise 404 "Customer not found"
  | Some existing =>
      update_dict ← build_update existing customer_data u;
      w ← get_world;
      match update_one_unique customers_unique (db_customers w)
              {[ "id" := Field (QEq customer_id) ]} update_dict with
      | Some customers => set_db_customers customers
      | None => throw "DuplicateKeyError"
      end;;
      w ← get_world;
      match find_one (db_customers w) {[ "id" := Field (QEq customer_id) ]} with
      | None => throw "TypeError"
      | Some updated =>
          match updated !! "created_at", updated !! "updated_at" with
          | Some _, Some _ =>
              updated ← parse_dates updated;
              Customer_init updated
          | _, _ => throw "KeyError"
          end
      end
  end.

End Handlers.

(** ** The four customer filters *)

(** [{}]: matches every customer. *)
Definition all_customers : query := ∅.

(** [{"id": "__none__"}]: the sentinel id that no customer carries. *)
Definition no_customers : query := {[ "id" := Field (QEq "__none__") ]}.

(** [{"csm_owner_id": uid}] *)
Definition own_customers (uid : string) : query :=
  {[ "csm_owner_id" := Field (QEq uid) ]}.

(** [{"$or": [{"am_owner_id": uid}, {"csm_owner_id": {"$in": managed}}]}] *)
Definition team_customers (uid : string) (managed : list string) : query :=
  {[ "$or" := QOr [ {[ "am_owner_id" := QEq uid ]};
                   {[ "csm_owner_id" := QIn managed ]} ] ]}.

(** A user document that reports directly to [uid] and holds the CSM
    role (legacy [role] field or [roles] array), as selected by the team
    lookup. *)
Definition direct_csm_report (uid : string) (usr : doc) : bool :=
  field_has usr "manager_id" uid
  && (field_has usr "role" "CSM" || field_has usr "roles" "CSM").

(** The branches of [_customer_scope_query] below the admin-like test,
    as a function of the role set and the configured scope. *)
Definition scope_filter (roles : gset string) (configured_scope : option string)
    (uid : string) (users : list doc) : query :=
  if decide ("SALES" ∈ roles) then
    match configured_scope with
    | None => all_customers
    | Some s => if String.eqb s "all" then all_customers else no_customers
    end
  else if bool_decide (configured_scope = Some "own")
          || (bool_decide ("CSM" ∈ roles) && bool_decide ("AM" ∉ roles)) then
    own_customers uid
  else if bool_decide (configured_scope = Some "team") || bool_decide ("AM" ∈ roles) then
    team_customers uid (managed_csm_ids users uid)
  else if bool_decide (configured_scope = Some "all") then all_customers
  else no_customers.

Definition NotFound {A} : result A := HTTPException 404 "Customer not found".

(** A computation that never answers with an [HTTPException]. *)
Definition no_http {A} (m : M A) : Prop :=
  ∀ w status detail w', m w ≠ (HTTPException status detail, w').

(** A computation that always returns a value. *)
Definition total {A} (m : M A) : Prop := ∀ w, ∃ a w', m w = (Ok a, w').

(** [d.get(k)] is absent, null or a number. *)
Definition number_or_none (d : doc) (k : string) : bool :=
  match d !! k with
  | None | Some VNone | Some (VNum _) => true
  | Some _ => false
  end.

(** A computation that leaves the customer collection as it found it,
    whatever its outcome. *)
Definition keeps_customers {A} (m : M A) : Prop :=
  ∀ w r w', m w = (r, w') → db_customers w' = db_customers w.

(** ** Sample data *)

(** A clock that advances ten seconds between readings, from 1000. *)
Definition sample_clock : nat → Z := λ n, 1000 + 10 * Z.of_nat n.

Definition opt_str (s : option string) : value :=
  match s with Some x => VStr x | None => VNone end.

Definition user_doc (id role : string) (manager : option string) : doc :=
  {[ "id" := VStr id; "name" := VStr ("User " +:+ id); "role" := VStr role;
     "roles" := VList [VStr role]; "manager_id" := opt_str manager ]}.

Definition customer_doc (id company csm am : string) : doc :=
  {[ "id" := VStr id; "company_name" := VStr company;
     "website" := VStr ("https://" +:+ id +:+ ".example");
     "stakeholders" := VList [VDict [("name", VStr "Dana"); ("is_primary", VBool true)]];
     "arr" := VNum 120000; "health_score" := VNum 72;
     "health_status" := VStr "At Risk";
     "csm_owner_id" := VStr csm; "am_owner_id" := VStr am;
     "created_at" := VStr "2024-03-01T09:00:00+00:00";
     "updated_at" := VStr "2024-03-02T09:00:00+00:00" ]}.

(** Two account managers, [am2] managing [am1]; [csm1] reports to [am1]
    and [csm2] to [am2]. *)
Definition sample_users : list doc :=
  [ user_doc "am2" "AM" None;
    user_doc "am1" "AM" (Some "am2");
    user_doc "csm1" "CSM" (Some "am1");
    user_doc "csm2" "CSM" (Some "am2") ].

Definition sample_customers : list doc :=
  [ customer_doc "c1" "Acme" "csm1" "am1";
    customer_doc "c2" "Bolt" "csm2" "am2" ].

(** Settings not loaded yet, empty cache. *)
Definition fresh_world : world :=
  World None sample_users sample_customers None 0 sample_clock 0%nat.

(** The default settings stored, empty cache. *)
Definition sample_world : world :=
  World (Some default_settings) sample_users sample_customers None 0 sample_clock 0%nat.

Definition with_role_permissions (rp : role_perms) : world :=
  World (Some (SettingsDoc (Some rp) (Some default_roles) default_other))
    sample_users sample_customers None 0 sample_clock 0%nat.

(** The payload that [create_access_token] issues:
    [role = roles[0] if roles else "READ_ONLY"]. *)
Definition jwt (user_id : string) (roles : list string) : current_user :=
  CurrentUser (Some user_id) (Some (default "READ_ONLY" (head roles))) (Some roles).

(** A payload [{user_id, roles: []}] without any role, as an identity
    provider may supply it. *)
Definition no_roles_user : current_user := CurrentUser (Some "u0") None (Some []).

Definition admin_user : current_user := jwt "adm" ["ADMIN"].
Definition sales_user : current_user := jwt "s1" ["SALES"].
Definition csm1_user : current_user := jwt "csm1" ["CSM"].
Definition am1_user : current_user := jwt "am1" ["AM"].
Definition am2_user : current_user := jwt "am2" ["AM"].
Definition guest_user : current_user := jwt "g1" ["GUEST"].

(** A configuration in which an administrator widened the CSM role to
    scope all. *)
Definition csm_scope_all : role_perms :=
  <[ "CSM" := {[ "dashboard" := perm_enabled true;
                 "customers" := perm_crud "all" true true false ]} ]>
    _default_role_permissions.

(** A configuration in which the CSM and SALES roles are given scope
    team. *)
Definition team_scoped : role_perms :=
  <[ "SALES" := {[ "dashboard" := perm_enabled true;
                   "customers" := perm_crud "team" false false false ]} ]>
    (<[ "CSM" := {[ "dashboard" := perm_enabled true;
                    "customers" := perm_crud "team" true true false ]} ]>
       _default_role_permissions).

(** A configuration whose READ_ONLY entry disables its modules. *)
Definition read_only_off : role_perms :=
  <[ "READ_ONLY" := {[ "dashboard" := perm_enabled false;
                       "customers" := perm_enabled false ]} ]>
    _default_role_permissions.

(** A configuration in which ADMIN has the customers module disabled and
    scoped to own. *)
Definition admin_restricted : role_perms :=
  <[ "ADMIN" := {[ "customers" := ModulePerm (Some false) (Some "own") None ∅ ]} ]>
    _default_role_permissions.

(** 5001 CSMs reporting to [am1], after the sample users. *)
Definition report_id (n : nat) : string := "csm-" +:+ pretty n.
Definition last_report : nat := 50 * 100.

Definition crowded_users : list doc :=
  (sample_users ++ ((λ n, user_doc (report_id n) "CSM" (Some "am1")) <$> seq 0 (S last_report)))%list.

(** A customer of the last of them, with another account manager. *)
Definition late_customer : doc := customer_doc "c9" "Late" (report_id last_report) "am2".

Definition crowded_world : world :=
  World (Some default_settings) crowded_users [late_customer] None 0 sample_clock 0%nat.

(** The settings payload that disables the customers module for CSM. *)
Definition revoke_csm : SettingsUpdate :=
  {| su_role_permissions :=
       Some (<[ "CSM" := {[ "customers" := perm_enabled false ]} ]>
               _default_role_permissions);
     su_roles := None;
     su_other := ∅ |}.

Definition sample_fromisoformat (s : string) : option Z :=
  if String.eqb s EmptyString then None else Some 1709283600.
Definition sample_isoformat (t : Z) : string := "2024-03-05T10:00:00+00:00".
Definition sample_uuid4 : string := "0b9c6a52-5d0e-4a53-9d0c-2f1f5a7e8c11".
Definition sample_health_score (now : option Z) (customer : doc) : Z := 50.

(** The value a run returned, if it returned one. *)
Definition returned {A} (x : result A * world) : option A :=
  match x.1 with Ok a => Some a | _ => None end.

Definition is_Ok {A} (x : result A * world) : bool :=
  match x.1 with Ok _ => true | _ => false end.

(** The effective permission set a user is given on the sample world,
    and the world after that evaluation. *)
Definition eff_of (u : current_user) (w : world) : effective :=
  default (Effective ∅) (returned (_get_effective_permissions u w)).

(** [u] at the gate of the customers module. *)
Definition gate_eff (u : current_user) (action : option string) (w : world) : effective :=
  default (Effective ∅) (returned (_require_perm u "customers" action w)).

(** The stored customer [c2], owned by [csm2] and [am2]. *)
Definition c2 : doc := customer_doc "c2" "Bolt" "csm2" "am2".

(** The body of a [PUT /customers/c2] that renames the company. *)
Definition rename_c2 : doc :=
  {[ "company_name" := VStr "Bolt Industries"; "csm_owner_id" := VStr "csm2";
     "am_owner_id" := VStr "am2" ]}.

(** The body of a [PUT /customers/c2] that renames the company to the
    name of the stored customer [c1]. *)
Definition rename_c2_acme : doc :=
  {[ "company_name" := VStr "Acme"; "csm_owner_id" := VStr "csm2";
     "am_owner_id" := VStr "am2" ]}.

(** Cache scenario: a CSM's request loads and caches the settings at
    time 1000; ten seconds later an administrator disables the customers
    module for CSM. *)
Definition warm_world : world :=
  (_require_perm csm1_user "customers" None sample_world).2.

Definition written_world : world :=
  (update_settings revoke_csm admin_user warm_world).2.

(** [enabled] of a module in the stored role configuration. *)
Definition stored_enabled (w : world) (role module_key : string) : option bool :=
  s ← db_settings w;
  rp ← sd_role_permissions s;
  ms ← rp !! role;
  mp ← ms !! module_key;
  mp_enabled mp.

(** ** Further endpoints of the settings and customer routes *)

(** [((role_perms.get(r) or {}).get("modules") or {}).get(k) or {}]: what
    the configuration [rp] gives role [r] on module [k]. *)
Definition configured_perm (rp : role_perms) (r k : string) : module_perm :=
  default empty_perm (default ∅ (rp !! r) !! k).

(** [_roles(current_user) or ["READ_ONLY"]] *)
Definition resolved_roles (u : current_user) : list string :=
  match _roles u with [] => ["READ_ONLY"] | rs => rs end.

(** The policy key [key] that a pass over [roles] leaves on module [k]:
    the value of the last role that carries the key. *)
Definition last_policy (rp : role_perms) (k key : string) (roles : list string)
    : option value :=
  foldl (λ acc r,
    match mp_extra (configured_perm rp r k) !! key with
    | Some v => Some v
    | None => acc
    end) None roles.

(** The world after one reading of the clock. *)
Definition tick (w : world) : world := (datetime_now w).2.

(** The stored settings document after the backfill of
    [_ensure_settings]. *)
Definition backfilled (existing : settings_doc) : settings_doc :=
  match missing_updates existing with
  | Some upd => overlay upd existing
  | None => existing
  end.

(** The role names of a settings document, [r["role"] for r in roles]. *)
Definition role_names (s : settings_doc) : list string :=
  rd_role <$> default [] (sd_roles s).

(** [GET /settings] *)
Definition get_settings (u : current_user) : M settings_doc :=
  _require_roles u ROLE_SETTINGS_ADMIN;;
  _ensure_settings false.

(** *** Tags *)

(** [{"$addToSet": {k: s}}] on one document: the string joins the array
    unless it is there already; an absent field becomes a one-element
    array; a field that is not an array is a write error ([None]). *)
Definition addToSet (k s : string) (d : doc) : option doc :=
  match d !! k with
  | None => Some (<[ k := VList [VStr s] ]> d)
  | Some (VList l) =>
      Some (if existsb (is_str s) l then d else <[ k := VList (l ++ [VStr s]) ]> d)
  | Some _ => None
  end.

(** [{"$pull": {k: s}}] on one document: every occurrence of the string
    leaves the array; an absent field stays absent; a field that is not
    an array is a write error ([None]). *)
Definition pull (k s : string) (d : doc) : option doc :=
  match d !! k with
  | None => Some d
  | Some (VList l) => Some (<[ k := VList (List.filter (λ v, negb (is_str s v)) l) ]> d)
  | Some _ => None
  end.

(** [db.settings.update_one({"id": "global"}, op)] for an operator [op]
    on the display part of the document; without [upsert] nothing
    happens when the document is missing. *)
Definition update_settings_doc (op : doc → option doc) : M unit :=
  w ← get_world;
  match db_settings w with
  | None => mret tt
  | Some d =>
      match op (sd_other d) with
      | Some other =>
          set_db_settings (Some (SettingsDoc (sd_role_permissions d) (sd_roles d) other))
      | None => throw "WriteError"
      end
  end.

(** The tags of the stored settings document. *)
Definition stored_tags (w : world) : option value :=
  d ← db_settings w; sd_other d !! "tags".

Section Tags.

(** [str.strip], not embedded. *)
Variable strip : string → string.

(** [POST /settings/tags]; the value is the ["tag"] of the answer. *)
Definition add_tag (tag : gmap string string) (u : current_user) : M string :=
  _require_roles u ROLE_SETTINGS_ADMIN;;
  let value := strip (default EmptyString (tag !! "tag")) in
  if negb (nonempty value) then raise 400 "tag is required"
  else
    _ensure_settings false;;
    update_settings_doc (addToSet "tags" value);;
    mret value.

End Tags.

(** [DELETE /settings/tags/{tag_value}] *)
Definition remove_tag (tag_value : string) (u : current_user) : M string :=
  _require_roles u ROLE_SETTINGS_ADMIN;;
  _ensure_settings false;;
  update_settings_doc (pull "tags" tag_value);;
  mret tag_value.

(** *** Customers *)

(** [{"id": customer_id}] *)
Definition by_id (customer_id : string) : query :=
  {[ "id" := Field (QEq customer_id) ]}.

(** [[d["id"] for d in docs if d.get("id")]] *)
Definition truthy_ids (docs : list doc) : list value :=
  omap (λ d : doc, match d !! "id" with
                   | Some v => if truthy v then Some v else None
                   | None => None
                   end) docs.

Definition _accessible_customer_ids (u : current_user) : M (option (list value)) :=
  scope ← _customer_scope_query u;
  if Nat.eqb (size scope) 0 then mret None
  else
    w ← get_world;
    let docs := take 5000 (project ["id"] <$> find (db_customers w) scope) in
    mret (Some (truthy_ids docs)).

(** [collection.delete_one(q)]: the collection without its first
    matching document, and [deleted_count]. *)
Fixpoint delete_one (coll : list doc) (q : query) : list doc * Z :=
  match coll with
  | [] => ([], 0)
  | d :: rest =>
      if matches q d then (rest, 1)
      else let r := delete_one rest q in (d :: r.1, r.2)
  end.

(** [DELETE /customers/{customer_id}]; the value is the message. *)
Definition delete_customer (customer_id : string) (u : current_user) : M string :=
  _require_perm u "customers" (Some "delete");;
  w ← get_world;
  let result := delete_one (db_customers w) (by_id customer_id) in
  set_db_customers result.1;;
  if result.2 =? 0 then raise 404 "Customer not found"
  else mret "Customer deleted successfully".

Definition health_score_map : gmap string Z :=
  {[ "Healthy" := 85; "At Risk" := 65; "Critical" := 35 ]}.

Definition allowed_account_status : list string :=
  [ "POC/Pilot"; "Onboarding"; "UAT"; "Live"; "Hold"; "Churn" ].

Section CustomerStatus.

Variable fromisoformat : string → option Z.
Variable isoformat : Z → string.
Variable uuid4 : string.
Variable strip : string → string.

(** [PUT /customers/{customer_id}/health]; the value is the pair
    [health_status], [health_score] of the answer. *)
Definition update_customer_health (customer_id health_status : string)
    (u : current_user) : M (string * value) :=
  w ← get_world;
  match find_one (db_customers w) (by_id customer_id) with
  | None => raise 404 "Customer not found"
  | Some existing =>
      let new_health_score :=
        match health_score_map !! health_status with
        | Some n => VNum n
        | None => default (VNum 50) (existing !! "health_score")
        end in
      now ← datetime_now;
      let update_dict : doc :=
        {[ "health_status" := VStr health_status;
           "health_score" := new_health_score;
           "updated_at" := VStr (isoformat now) ]} in
      w ← get_world;
      set_db_customers (update_one (db_customers w) (by_id customer_id) update_dict);;
      mret (health_status, new_health_score)
  end.

(** [PUT /customers/{customer_id}/account-status] *)
Definition update_customer_account_status (customer_id account_status : string)
    (u : current_user) : M doc :=
  let value := strip account_status in
  if bool_decide (value ∉ allowed_account_status) then raise 400 "Invalid account_status"
  else
    w ← get_world;
    match find_one (db_customers w) (by_id customer_id) with
    | None => raise 404 "Customer not found"
    | Some existing =>
        now ← datetime_now;
        let update_dict : doc :=
          {[ "account_status" := VStr value; "updated_at" := VStr (isoformat now) ]} in
        w ← get_world;
        set_db_customers (update_one (db_customers w) (by_id customer_id) update_dict);;
        w ← get_world;
        match find_one (db_customers w) (by_id customer_id) with
        | None => throw "AttributeError"
        | Some updated =>
            updated ← parse_dates fromisoformat updated;
            Customer_init uuid4 updated
        end
    end.

End CustomerStatus.

(** *** Activity and risk listings *)

(** The listings call [_get_team_csm_ids] and
    [_get_customer_ids_for_csms], names that no module of the
    repository defines: evaluating either raises [NameError], whose text
    is the [what] below. *)
Definition _get_team_csm_ids (uid : string) : M (list string) :=
  throw "name '_get_team_csm_ids' is not defined".

Definition _get_customer_ids_for_csms (ids : list string) : M (list string) :=
  throw "name '_get_customer_ids_for_csms' is not defined".

(** [current_user['user_id']]: a [KeyError] when the payload has no
    user id. *)
Definition user_id_item (u : current_user) : M string :=
  match cu_user_id u with
  | Some i => mret i
  | None => throw "'user_id'"
  end.

(** [try: body  except HTTPException: raise
    except Exception as e: raise HTTPException(503, f"Database error: {str(e)}")] *)
Definition or_503 {A} (body : M A) : M A := λ w,
  match body w with
  | (Exception e, w') => (HTTPException 503 ("Database error: " +:+ e), w')
  | other => other
  end.

(** [query = {}; if customer_id: query['customer_id'] = customer_id] *)
Definition customer_id_query (customer_id : option string) : query :=
  match customer_id with
  | Some c => if nonempty c then {[ "customer_id" := Field (QEq c) ]} else ∅
  | None => ∅
  end.

(** The data scoping of a listing: the own filter on [own_field], the
    team filter through the two helpers, no filter for any other
    scope. *)
Definition scoped_query (mp : module_perm) (own_field : string) (u : current_user)
    (q : query) : M query :=
  if bool_decide (mp_scope mp = Some "own") then
    uid ← user_id_item u;
    mret (<[ own_field := Field (QEq uid) ]> q)
  else if bool_decide (mp_scope mp = Some "team") then
    team_csm_ids ← _get_team_csm_ids (_user_id u);
    uid ← user_id_item u;
    team_customer_ids ← _get_customer_ids_for_csms (team_csm_ids ++ [uid])%list;
    mret (<[ "customer_id" := Field (QIn team_customer_ids) ]> q)
  else mret q.

Section Listings.

Variable fromisoformat : string → option Z.

(** [cursor.sort(key, -1)], not embedded. *)
Variable sort_desc : string → list doc → list doc.

(** [if isinstance(d[k], str): d[k] = datetime.fromisoformat(d[k])] *)
Definition parse_item (k : string) (d : doc) : M doc :=
  match d !! k with
  | None => throw "KeyError"
  | Some (VStr s) =>
      match fromisoformat s with
      | Some t => mret (<[ k := VTime t ]> d)
      | None => throw "ValueError"
      end
  | Some _ => mret d
  end.

Fixpoint parse_items (k1 k2 : string) (rows : list doc) : M (list doc) :=
  match rows with
  | [] => mret []
  | r :: rest =>
      r ← parse_item k1 r;
      r ← parse_item k2 r;
      rest ← parse_items k1 k2 rest;
      mret (r :: rest)
  end.

(** [GET /activities] over the content [activities] of the activities
    collection, which the handler only reads. *)
Definition get_activities (activities : list doc) (customer_id : option string)
    (u : current_user) : M (list doc) :=
  or_503
    (perms ← _get_effective_permissions u;
     let mp := default empty_perm (modules perms !! "activities") in
     if negb (enabled_of mp) then raise 403 "Activities module not accessible"
     else
       q ← scoped_query mp "csm_id" u (customer_id_query customer_id);
       parse_items "activity_date" "created_at"
         (take 1000 (sort_desc "activity_date" (find activities q)))).

(** [GET /risks] over the content [risks] of the risks collection. *)
Definition get_risks (risks : list doc) (customer_id : option string)
    (u : current_user) : M (list doc) :=
  or_503
    (perms ← _get_effective_permissions u;
     let mp := default empty_perm (modules perms !! "risks") in
     if negb (enabled_of mp) then raise 403 "Risks module not accessible"
     else
       q ← scoped_query mp "assigned_to_id" u (customer_id_query customer_id);
       parse_items "created_at" "updated_at"
         (take 1000 (sort_desc "created_at" (find risks q)))).

End Listings.

(** ** More sample data *)

(** [str.strip] restricted to the space character. *)
Fixpoint lstrip_spaces (s : string) : string :=
  match s with
  | String c rest => if Ascii.eqb c (Ascii.ascii_of_nat 32) then lstrip_spaces rest else s
  | EmptyString => EmptyString
  end.

Fixpoint rev_string (acc s : string) : string :=
  match s with
  | String c rest => rev_string (String c acc) rest
  | EmptyString => acc
  end.

Definition sample_strip (s : string) : string :=
  rev_string EmptyString (lstrip_spaces (rev_string EmptyString (lstrip_spaces s))).

(** A user holding two roles. *)
Definition csm_sales_user : current_user := jwt "csm1" ["CSM"; "SALES"].
Definition leader_user : current_user := jwt "lead" ["CS_LEADER"].

(** The sample world once a request has loaded the settings. *)
Definition loaded_world : world := (_ensure_settings false sample_world).2.

(** The sample world five minutes after the settings were cached. *)
Definition expired_world : world :=
  World (db_settings loaded_world) sample_users sample_customers
    (SETTINGS_CACHE loaded_world) (SETTINGS_CACHE_TIMESTAMP loaded_world)
    (λ n, 1300 + 10 * Z.of_nat n) 0%nat.

(** A stored settings document from before roles and role permissions
    were introduced. *)
Definition legacy_settings : settings_doc :=
  SettingsDoc None
    (Some [ {| rd_role := "ADMIN"; rd_name := "Administrator"; rd_desc := EmptyString |} ])
    default_other.

Definition legacy_world : world :=
  World (Some legacy_settings) sample_users sample_customers None 0 sample_clock 0%nat.

(** A payload that replaces the role permissions by the CSM-wide
    configuration. *)
Definition widen_csm : SettingsUpdate :=
  {| su_role_permissions := Some csm_scope_all; su_roles := None; su_other := ∅ |}.

(** A configuration that lets CSM delete customers. *)
Definition csm_may_delete : role_perms :=
  <[ "CSM" := {[ "customers" := perm_crud "own" true true true ]} ]>
    _default_role_permissions.

(** [cs'] is the collection [cs] in which, at most, documents carrying
    the id [customer_id] were changed in place. *)
Definition same_but (customer_id : string) (cs cs' : list doc) : Prop :=
  length cs' = length cs
  ∧ ∀ (i : nat) c, cs !! i = Some c → field_has c "id" customer_id = false →
                   cs' !! i = Some c.

(** A computation that changes the customer collection within the
    relation [R], whatever its outcome. *)
Definition customers_change {A} (R : list doc → list doc → Prop) (m : M A) : Prop :=
  ∀ w r w', m w = (r, w') → R (db_customers w) (db_customers w').

(** A sort that leaves a list of at most one document as it is. *)
Definition sample_sort (key : string) (rows : list doc) : list doc := rows.

(** The body of a [POST /settings/tags] with blanks around the tag. *)
Definition vip_tag : gmap string string := {[ "tag" := "  VIP " ]}.

(** The run of a first forced read on the legacy settings. *)
Definition legacy_reload : result settings_doc * world := _ensure_settings true legacy_world.

(** The run of [add_tag] by the administrator on the sample world. *)
Definition vip_added : result string * world :=
  add_tag sample_strip vip_tag admin_user sample_world.

(** The run of the rename of [c2] by [csm1]. *)
Definition c2_renamed : result doc * world :=
  update_customer sample_fromisoformat sample_isoformat sample_uuid4
    sample_health_score "c2" rename_c2 csm1_user sample_world.
(** * Properties *)

(** Closed decidable facts (membership in a literal list, equality of
    literals) are settled by evaluation. *)
Ltac decide_closed :=
  lazymatch goal with
  | |- ?P => apply (bool_decide_unpack P); vm_compute; exact I
  end.

(** Closed facts about the sample data, by evaluation. *)
Ltac by_eval :=
  repeat (lazymatch goal with |- _ ∧ _ => split end);
  lazymatch goal with
  | |- @eq ?T _ ?rhs => vm_cast_no_check (@eq_refl T rhs)
  end.

(** ** Running monadic code *)

Lemma bind_ok {A B} (m : M A) (f : A → M B) w a w' :
  m w = (Ok a, w') → (m ≫= f) w = f a w'.
Proof. intros H. unfold mbind, M_bind. by rewrite H. Qed.

Lemma ensure_settings_ok force_refresh w :
  ∃ s w', _ensure_settings force_refresh w = (Ok s, w')
          ∧ db_users w' = db_users w ∧ db_customers w' = db_customers w.
Proof.
  unfold _ensure_settings, mbind, M_bind, mret, M_ret, datetime_now, get_world,
    set_db_settings, set_cache; simpl.
  destruct force_refresh; simpl;
    repeat (case_match; simpl; simplify_eq/=); eauto 6.
Qed.

Lemma get_effective_ok u w :
  ∃ eff w', _get_effective_permissions u w = (Ok eff, w')
            ∧ db_users w' = db_users w ∧ db_customers w' = db_customers w.
Proof.
  destruct (ensure_settings_ok false w) as (s & w' & Hs & Hu & Hc).
  unfold _get_effective_permissions.
  rewrite (bind_ok _ _ _ _ _ Hs). simpl. eauto 6.
Qed.

(** ** Scope lattice and merger *)

Lemma scope_rank_range sc : 0 ≤ _scope_rank sc ≤ 3.
Proof.
  destruct sc as [s|]; simpl; [|lia].
  repeat (case_match; try lia).
Qed.

Lemma scope_rank_unknown (s : string) :
  s ≠ "own" → s ≠ "team" → s ≠ "all" → _scope_rank (Some s) = 0.
Proof.
  intros H1 H2 H3. simpl.
  destruct (String.eqb_spec s "none"); [done|].
  destruct (String.eqb_spec s "own"); [done|].
  destruct (String.eqb_spec s "team"); [done|].
  by destruct (String.eqb_spec s "all").
Qed.

(** C6. [_merge_module_perms a b] keeps whichever of the two scopes ranks
    higher in none(0) < own(1) < team(2) < all(3), a missing or unknown
    scope ranking as none, and keeps [a]'s scope on a tie; the rank of the
    merged scope is therefore the maximum of the two ranks, hence at
    least each of them. *)
Theorem merge_scope_widest (a b : module_perm) :
  mp_scope (_merge_module_perms a b)
    = (if _scope_rank (mp_scope a) <? _scope_rank (mp_scope b)
       then mp_scope b else mp_scope a)
  ∧ _scope_rank (mp_scope (_merge_module_perms a b))
      = Z.max (_scope_rank (mp_scope a)) (_scope_rank (mp_scope b))
  ∧ Z.max (_scope_rank (mp_scope a)) (_scope_rank (mp_scope b))
      ≤ _scope_rank (mp_scope (_merge_module_perms a b))
  ∧ _scope_rank (Some "none") = 0 ∧ _scope_rank None = 0
  ∧ _scope_rank (Some "own") = 1 ∧ _scope_rank (Some "team") = 2
  ∧ _scope_rank (Some "all") = 3 ∧ _scope_rank (Some "global") = 0.
Proof.
  simpl.
  destruct (Z.leb_spec (_scope_rank (mp_scope b)) (_scope_rank (mp_scope a)));
    destruct (Z.ltb_spec (_scope_rank (mp_scope a)) (_scope_rank (mp_scope b)));
    try lia; repeat split; try reflexivity; lia.
Qed.

(** ** Enforcement gate *)

(** The gate in terms of the stored fields: the module has [enabled]
    true and, for a non-empty action name, the [actions] map holds the
    action as true. *)
Lemma has_perm_raw (eff : effective) (module_key : string) (action : option string) :
  let mp := default empty_perm (modules eff !! module_key) in
  _has_perm eff module_key action = true
  ↔ mp_enabled mp = Some true
    ∧ ∀ a, action = Some a → a ≠ EmptyString →
           ∃ actions, mp_actions mp = Some actions ∧ actions !! a = Some true.
Proof.
  intros mp. unfold _has_perm. fold mp. unfold enabled_of, action_given, action_of.
  destruct (mp_enabled mp) as [[]|] eqn:Hen; simpl;
    try (split; [done|by intros [? _]]).
  destruct action as [a|]; simpl.
  - unfold nonempty. destruct (String.eqb_spec a EmptyString) as [->|Hne]; simpl.
    + split; [|done]. intros _. split; [done|]. by intros a [= <-].
    + destruct (mp_actions mp) as [actions|] eqn:Hacts; simpl.
      * destruct (actions !! a) as [[]|] eqn:Ha; simpl.
        -- split; [|done]. intros _. split; [done|]. intros a' [= <-] _. eauto.
        -- split; [done|]. intros [_ H].
           destruct (H a eq_refl Hne) as (? & [= <-] & ?). congruence.
        -- split; [done|]. intros [_ H].
           destruct (H a eq_refl Hne) as (? & [= <-] & ?). congruence.
      * rewrite lookup_empty. simpl. split; [done|]. intros [_ H].
        by destruct (H a eq_refl Hne) as (? & ? & _).
  - split; [|done]. intros _. by split.
Qed.

(** C4. [_require_perm] answers Forbidden exactly when the effective
    permission of the module does not have [enabled] true, or the call
    names an action (a non-empty action name; the source's [if not
    action] takes the empty name for no action) that the effective
    [actions] map does not hold as true, an absent map or key counting as
    not granted; in every other case it returns the effective permission
    set. *)
Theorem require_perm_denied_iff (u : current_user) (module_key : string)
    (action : option string) (w : world) :
  ∃ eff w', _get_effective_permissions u w = (Ok eff, w')
    ∧ let mp := default empty_perm (modules eff !! module_key) in
      (_require_perm u module_key action w = (Forbidden, w')
         ↔ mp_enabled mp ≠ Some true
           ∨ ∃ a, action = Some a ∧ a ≠ EmptyString
                  ∧ ¬ ∃ actions, mp_actions mp = Some actions
                                 ∧ actions !! a = Some true)
      ∧ (_require_perm u module_key action w = (Forbidden, w')
         ∨ _require_perm u module_key action w = (Ok eff, w')).
Proof.
  destruct (get_effective_ok u w) as (eff & w' & Heff & _ & _).
  exists eff, w'. split; [done|]. simpl.
  unfold _require_perm. rewrite (bind_ok _ _ _ _ _ Heff).
  pose proof (has_perm_raw eff module_key action) as Hraw. simpl in Hraw.
  set (mp := default empty_perm (modules eff !! module_key)) in *.
  destruct (_has_perm eff module_key action) eqn:Hp; simpl.
  - destruct (proj1 Hraw eq_refl) as [Hen Hact].
    split; [|by right]. split; [done|].
    intros [?|(a & -> & Hne & Hng)]; [done|]. destruct Hng. by apply Hact.
  - split; [|by left]. split; [|done]. intros _.
    destruct (decide (mp_enabled mp = Some true)) as [Hen|Hen]; [|by left].
    right. destruct action as [a|]; last first.
    { assert (false = true) as Habs; [|done]. apply Hraw. by split. }
    destruct (String.eqb_spec a EmptyString) as [->|Hne].
    { assert (false = true) as Habs; [|done]. apply Hraw.
      split; [done|]. by intros a [= <-]. }
    exists a. split; [done|]. split; [done|]. intros Hg.
    assert (false = true) as Habs; [|done]. apply Hraw.
    split; [done|]. by intros a' [= <-] _.
Qed.

(** ** Scope translation *)

Lemma try_except_ok {A} (body handler : M A) w a w' :
  body w = (Ok a, w') → try_except body handler w = (Ok a, w').
Proof. intros H. unfold try_except. by rewrite H. Qed.

Lemma matches_spec (q : query) (d : doc) :
  matches q d = true ↔ ∀ k qv, q !! k = Some qv → qvalue_holds d k qv = true.
Proof.
  unfold matches. rewrite bool_decide_eq_true, map_Forall_lookup.
  split; intros H k qv Hk; specialize (H k qv Hk); by destruct (qvalue_holds d k qv).
Qed.

Lemma matches_all (d : doc) : matches ∅ d = true.
Proof. apply matches_spec. intros k qv. by rewrite lookup_empty. Qed.


Lemma scope_query_run u w eff w' :
  role_set u ∩ ROLE_ADMINISH = ∅ →
  _get_effective_permissions u w = (Ok eff, w') →
  _customer_scope_query u w
    = (Ok (scope_filter (role_set u) (customers_scope eff) (_user_id u) (db_users w')), w').
Proof.
  intros Hadm Heff. unfold _customer_scope_query.
  destruct (decide (role_set u ∩ ROLE_ADMINISH ≠ ∅)) as [Hne|_]; [done|].
  erewrite bind_ok; last first.
  { apply try_except_ok. erewrite bind_ok; [|exact Heff]. reflexivity. }
  fold (customers_scope eff). unfold scope_filter.
  destruct (decide ("SALES" ∈ role_set u)); [done|].
  repeat (case_match; try done).
Qed.

(** Every outcome of the scope translator: one of the four filters, with
    the collections left as they were. *)
Lemma scope_query_cases u w :
  ∃ q w', _customer_scope_query u w = (Ok q, w')
    ∧ db_users w' = db_users w ∧ db_customers w' = db_customers w
    ∧ (q = all_customers ∨ q = no_customers ∨ q = own_customers (_user_id u)
       ∨ q = team_customers (_user_id u) (managed_csm_ids (db_users w) (_user_id u))).
Proof.
  destruct (decide (role_set u ∩ ROLE_ADMINISH = ∅)) as [Hadm|Hadm].
  - destruct (get_effective_ok u w) as (eff & w' & Heff & Hu & Hc).
    eexists _, w'. split; [by apply scope_query_run|].
    split; [done|]. split; [done|]. rewrite Hu. unfold scope_filter.
    repeat case_match; auto.
  - exists all_customers, w. split; [|by auto].
    unfold _customer_scope_query. by rewrite decide_True.
Qed.

(** C2 (amended). Below the admin-like roles the translation follows the
    effective customers scope only as far as the held roles allow.  For a
    user with none of ADMIN, CS_OPS, CS_LEADER: a SALES holder gets the
    unrestricted filter for scope all or missing and the match-nothing
    filter for every other scope; otherwise scope own, or holding CSM
    without AM, gives [csm_owner_id == user.id]; otherwise scope team, or
    holding AM, gives the one-level hierarchy filter; otherwise scope all
    gives the unrestricted filter and none, missing or an unknown value
    the match-nothing filter.  In particular a user holding none of SALES,
    CSM, AM gets exactly the filter the scope dictates. *)
Theorem scope_translation_table (u : current_user) (w : world) :
  role_set u ∩ ROLE_ADMINISH = ∅ →
  ∃ eff w' q,
    _get_effective_permissions u w = (Ok eff, w')
    ∧ _customer_scope_query u w = (Ok q, w')
    ∧ let sc := customers_scope eff in
      let roles := role_set u in
      let uid := _user_id u in
      let team := team_customers uid (managed_csm_ids (db_users w) uid) in
      ("SALES" ∈ roles → sc = None ∨ sc = Some "all" → q = all_customers)
      ∧ ("SALES" ∈ roles → sc ≠ None → sc ≠ Some "all" → q = no_customers)
      ∧ ("SALES" ∉ roles → sc = Some "own" → q = own_customers uid)
      ∧ ("SALES" ∉ roles → "CSM" ∈ roles → "AM" ∉ roles → q = own_customers uid)
      ∧ ("SALES" ∉ roles → sc = Some "team" → ("CSM" ∈ roles → "AM" ∈ roles) →
         q = team)
      ∧ ("SALES" ∉ roles → "AM" ∈ roles → sc ≠ Some "own" → q = team)
      ∧ ("SALES" ∉ roles → "CSM" ∉ roles → "AM" ∉ roles → sc = Some "all" →
         q = all_customers)
      ∧ ("SALES" ∉ roles → "CSM" ∉ roles → "AM" ∉ roles →
         sc ≠ Some "own" → sc ≠ Some "team" → sc ≠ Some "all" → q = no_customers).
Proof.
  intros Hadm.
  destruct (get_effective_ok u w) as (eff & w' & Heff & Hu & _).
  exists eff, w', (scope_filter (role_set u) (customers_scope eff) (_user_id u) (db_users w')).
  split; [done|]. split; [by apply scope_query_run|].
  rewrite Hu. simpl. unfold scope_filter.
  destruct (decide ("SALES" ∈ role_set u)) as [Hs|Hs].
  - split.
    { intros _ [->| ->]; done. }
    split.
    { intros _ H1 H2. destruct (customers_scope eff) as [s|]; [|done].
      destruct (String.eqb_spec s "all"); [by subst|done]. }
    repeat split; intros; done.
  - repeat split; intros; simpl;
      repeat case_bool_decide; simplify_eq/=; try done; naive_solver.
Qed.

(** For a user with none of the roles that the translator tests, the
    filter is the one the effective scope dictates. *)
Corollary scope_translation_plain (u : current_user) (w : world) :
  role_set u ∩ ROLE_ADMINISH = ∅ →
  "SALES" ∉ role_set u → "CSM" ∉ role_set u → "AM" ∉ role_set u →
  ∃ eff w',
    _get_effective_permissions u w = (Ok eff, w')
    ∧ _customer_scope_query u w
        = (Ok (match customers_scope eff with
               | Some "own" => own_customers (_user_id u)
               | Some "team" =>
                   team_customers (_user_id u)
                     (managed_csm_ids (db_users w) (_user_id u))
               | Some "all" => all_customers
               | _ => no_customers
               end), w').
Proof.
  intros Hadm Hs Hc Ha.
  destruct (get_effective_ok u w) as (eff & w' & Heff & Hu & _).
  exists eff, w'. split; [done|].
  rewrite (scope_query_run _ _ _ _ Hadm Heff), Hu. f_equal. f_equal.
  unfold scope_filter. rewrite decide_False by done.
  rewrite (bool_decide_eq_false_2 _ Hc), (bool_decide_eq_false_2 _ Ha). simpl.
  rewrite !orb_false_r.
  destruct (customers_scope eff) as [s|]; [|done].
  destruct (decide (s = "own")) as [->|?]; [done|].
  destruct (decide (s = "team")) as [->|?]; [done|].
  destruct (decide (s = "all")) as [->|?]; [done|].
  rewrite !bool_decide_eq_false_2 by congruence.
  repeat case_match; simplify_eq; done.
Qed.

(** ** Query semantics *)

Lemma matches_insert (q : query) k v d :
  q !! k = None →
  matches (<[k := v]> q) d = qvalue_holds d k v && matches q d.
Proof.
  intros Hk. apply eq_true_iff_eq.
  rewrite andb_true_iff, !matches_spec. split.
  - intros H. split.
    + apply (H k v). by rewrite lookup_insert_eq.
    + intros k' v' Hk'. apply H. rewrite lookup_insert_ne; [done|congruence].
  - intros [H1 H2] k' v'. rewrite lookup_insert_Some.
    intros [[<- <-]|[_ Hk']]; [done|by apply H2].
Qed.

Lemma matches_singleton k v d : matches {[ k := v ]} d = qvalue_holds d k v.
Proof.
  rewrite <- insert_empty, matches_insert by apply lookup_empty.
  by rewrite matches_all, andb_true_r.
Qed.

Lemma clause_holds_singleton k c d : clause_holds d {[ k := c ]} = cond_holds d k c.
Proof.
  unfold clause_holds. apply eq_true_iff_eq.
  rewrite bool_decide_eq_true, map_Forall_singleton.
  by destruct (cond_holds d k c).
Qed.

Lemma matches_own uid d :
  matches (own_customers uid) d = field_has d "csm_owner_id" uid.
Proof. unfold own_customers. by rewrite matches_singleton. Qed.

Lemma matches_none d : matches no_customers d = field_has d "id" "__none__".
Proof. unfold no_customers. by rewrite matches_singleton. Qed.

Lemma matches_team uid ids d :
  matches (team_customers uid ids) d
    = field_has d "am_owner_id" uid || existsb (field_has d "csm_owner_id") ids.
Proof.
  unfold team_customers. rewrite matches_singleton. simpl.
  by rewrite !clause_holds_singleton, orb_false_r.
Qed.

Lemma matches_id cid d :
  matches {[ "id" := Field (QEq cid) ]} d = field_has d "id" cid.
Proof. by rewrite matches_singleton. Qed.

Lemma matches_team_lookup uid d :
  matches {[ "manager_id" := Field (QEq uid);
             "$or" := QOr [ {[ "role" := QEq "CSM" ]}; {[ "roles" := QIn ["CSM"] ]} ] ]} d
    = direct_csm_report uid d.
Proof.
  rewrite matches_insert by done. rewrite matches_singleton. simpl.
  rewrite !clause_holds_singleton. simpl.
  unfold direct_csm_report. by rewrite !orb_false_r.
Qed.

Lemma lookup_project fields (d : doc) k :
  project fields d !! k = if decide (k ∈ fields) then d !! k else None.
Proof.
  unfold project. destruct (decide (k ∈ fields)) as [Hin|Hout].
  - destruct (d !! k) as [v|] eqn:Hk.
    + by apply map_lookup_filter_Some_2.
    + apply map_lookup_filter_None_2. by left.
  - apply map_lookup_filter_None_2. right. intros v _. done.
Qed.

Lemma existsb_elem_of {A} (f : A → bool) (l : list A) :
  existsb f l = true ↔ ∃ x, x ∈ l ∧ f x = true.
Proof.
  rewrite existsb_exists. split; intros (x & Hx & Hf); exists x;
    (split; [by apply list_elem_of_In|done]).
Qed.

(** The ids collected by the team lookup are the non-empty ids of the
    first 5000 direct CSM reports. *)
Lemma elem_of_managed_csm_ids users uid i :
  i ∈ managed_csm_ids users uid
  ↔ i ≠ EmptyString ∧ ∃ usr, usr ∈ take 5000 (List.filter (direct_csm_report uid) users)
                    ∧ get_str usr "id" = Some i.
Proof.
  unfold managed_csm_ids, managed_csms, find.
  rewrite (List.filter_ext _ _ (matches_team_lookup uid)).
  rewrite <- fmap_take, list_elem_of_omap. split.
  - intros (p & Hp & Hi). apply list_elem_of_fmap in Hp as (usr & -> & Husr).
    unfold get_str in Hi. rewrite lookup_project in Hi. simpl in Hi.
    destruct (usr !! "id") as [[]|] eqn:Hid; try done.
    unfold nonempty in Hi. destruct (String.eqb_spec s EmptyString); simplify_eq/=.
    split; [done|]. exists usr. split; [done|]. unfold get_str. by rewrite Hid.
  - intros (Hne & usr & Husr & Hid). exists (project ["id"] usr).
    split; [apply list_elem_of_fmap; eauto|].
    unfold get_str in *. rewrite lookup_project. simpl.
    destruct (usr !! "id") as [[]|]; simplify_eq/=.
    unfold nonempty. by destruct (String.eqb_spec i EmptyString).
Qed.

Lemma get_effective_frame u w eff w' :
  _get_effective_permissions u w = (Ok eff, w') →
  db_users w' = db_users w ∧ db_customers w' = db_customers w.
Proof.
  intros H. destruct (get_effective_ok u w) as (eff0 & w0 & H0 & Hu & Hc).
  rewrite H in H0. by simplify_eq.
Qed.

Lemma elem_of_reports uid users usr :
  usr ∈ take 5000 (List.filter (direct_csm_report uid) users) →
  usr ∈ users ∧ direct_csm_report uid usr = true.
Proof.
  intros H. apply elem_of_take in H as (i & Hi & _).
  apply list_elem_of_lookup_2, list_elem_of_In, filter_In in Hi as [Hin Hp].
  by rewrite list_elem_of_In.
Qed.

(** The filter of the team branch: its matches, and its one level. *)
Lemma team_filter_matches (uid : string) (users : list doc) (c : doc) :
  let q := team_customers uid (managed_csm_ids users uid) in
  let reports := take 5000 (List.filter (direct_csm_report uid) users) in
  (matches q c = true
     ↔ field_has c "am_owner_id" uid = true
       ∨ ∃ usr i, usr ∈ reports ∧ get_str usr "id" = Some i ∧ i ≠ EmptyString
                  ∧ field_has c "csm_owner_id" i = true)
  ∧ (field_has c "am_owner_id" uid = false →
     (∀ usr i, usr ∈ users → get_str usr "id" = Some i →
               field_has c "csm_owner_id" i = true →
               field_has usr "manager_id" uid = false) →
     matches q c = false).
Proof.
  intros q reports.
  assert (matches q c = true
          ↔ field_has c "am_owner_id" uid = true
            ∨ ∃ usr i, usr ∈ reports ∧ get_str usr "id" = Some i ∧ i ≠ EmptyString
                       ∧ field_has c "csm_owner_id" i = true) as Hchar.
  { unfold q. rewrite matches_team, orb_true_iff, existsb_elem_of.
    split; (intros [?|Hex]; [by left|right]).
    - destruct Hex as (i & Hi & Hc).
      apply elem_of_managed_csm_ids in Hi as (Hne & usr & Husr & Hid). eauto 6.
    - destruct Hex as (usr & i & Husr & Hid & Hne & Hc). exists i.
      split; [|done]. apply elem_of_managed_csm_ids. eauto. }
  split; [exact Hchar|].
  intros Ham Hnone.
  apply not_true_is_false. intros Hm.
  apply Hchar in Hm as [Hm|(usr & i & Husr & Hid & _ & Hc)]; [congruence|].
  apply elem_of_reports in Husr as [Hin Hrep].
  specialize (Hnone usr i Hin Hid Hc).
  unfold direct_csm_report in Hrep. rewrite Hnone in Hrep. done.
Qed.

(** C5 (amended). The filter derived for a user whose effective
    customers scope is team depends on the roles held.  A holder of
    ADMIN, CS_OPS or CS_LEADER gets the unrestricted filter; below
    these, a holder of SALES gets the match-nothing filter; below these,
    a holder of CSM without AM gets the own filter,
    [csm_owner_id == user.id].  Every other user under team scope, and
    likewise every holder of AM whose scope is not own (without an
    admin-like role, without SALES, and not holding CSM without AM), gets
    the team filter.  The team filter matches exactly the customers whose
    [am_owner_id] is the user or whose [csm_owner_id] is the non-empty id
    of one of the users returned by the bounded lookup: the first 5000
    users, in collection order, whose [manager_id] is the user and who
    hold the CSM role.  The lookup is one level deep: a customer that the
    user does not own as AM and whose CSM owners are not directly managed
    by the user never matches, whoever manages their managers. *)
Theorem team_scope_one_level (u : current_user) (w : world) :
  let uid := default EmptyString (cu_user_id u) in
  let roles := role_set u in
  let reports := take 5000 (List.filter (direct_csm_report uid) (db_users w)) in
  ∃ eff w1 q w',
    _get_effective_permissions u w = (Ok eff, w1)
    ∧ _customer_scope_query u w = (Ok q, w')
    ∧ let scope := mp_scope (default empty_perm (modules eff !! "customers")) in
      (scope = Some "team" →
         (roles ∩ ROLE_ADMINISH ≠ ∅ → q = ∅)
         ∧ (roles ∩ ROLE_ADMINISH = ∅ → "SALES" ∈ roles →
            q = {[ "id" := Field (QEq "__none__") ]})
         ∧ (roles ∩ ROLE_ADMINISH = ∅ → "SALES" ∉ roles →
            "CSM" ∈ roles → "AM" ∉ roles →
            q = {[ "csm_owner_id" := Field (QEq uid) ]}))
      ∧ (roles ∩ ROLE_ADMINISH = ∅ → "SALES" ∉ roles →
         ("CSM" ∈ roles → "AM" ∈ roles) →
         scope ≠ Some "own" →
         scope = Some "team" ∨ "AM" ∈ roles →
         ∀ c,
           (matches q c = true
              ↔ field_has c "am_owner_id" uid = true
                ∨ ∃ usr i, usr ∈ reports ∧ get_str usr "id" = Some i
                           ∧ i ≠ EmptyString
                           ∧ field_has c "csm_owner_id" i = true)
           ∧ (field_has c "am_owner_id" uid = false →
              (∀ usr i, usr ∈ db_users w → get_str usr "id" = Some i →
                        field_has c "csm_owner_id" i = true →
                        field_has usr "manager_id" uid = false) →
              matches q c = false)).
Proof.
  intros uid roles reports.
  destruct (get_effective_ok u w) as (eff & w1 & Heff & Hu & _).
  exists eff, w1.
  destruct (decide (roles ∩ ROLE_ADMINISH = ∅)) as [Hadm|Hadm].
  - exists (scope_filter roles (customers_scope eff) uid (db_users w)), w1.
    split; [done|]. split.
    { rewrite (scope_query_run _ _ _ _ Hadm Heff). by rewrite Hu. }
    fold (customers_scope eff). cbv zeta. unfold scope_filter. split.
    + intros ->. split; [done|]. split.
      * intros _ Hs. by rewrite decide_True.
      * intros _ Hs Hc Ha. rewrite decide_False by done.
        by rewrite (bool_decide_eq_true_2 _ Hc), (bool_decide_eq_true_2 _ Ha).
    + intros _ Hsales Hcsm Hown Hteam.
      assert (scope_filter roles (customers_scope eff) uid (db_users w)
              = team_customers uid (managed_csm_ids (db_users w) uid)) as Hq.
      { unfold scope_filter. rewrite decide_False by done.
        rewrite (bool_decide_eq_false_2 _ Hown).
        destruct (decide ("CSM" ∈ roles)) as [Hc|Hc].
        - rewrite (bool_decide_eq_false_2 ("AM" ∉ roles)) by (intros ?; auto).
          rewrite andb_false_r. simpl.
          destruct Hteam as [->|Ha]; [done|].
          by rewrite (bool_decide_eq_true_2 _ Ha), orb_true_r.
        - rewrite (bool_decide_eq_false_2 _ Hc). simpl.
          destruct Hteam as [->|Ha]; [done|].
          by rewrite (bool_decide_eq_true_2 _ Ha), orb_true_r. }
      unfold scope_filter in Hq. rewrite Hq.
      intros c. apply team_filter_matches.
  - exists ∅, w. split; [done|]. split.
    { unfold _customer_scope_query. by rewrite decide_True. }
    cbv zeta. split.
    + intros _. split; [done|]. split; intros; done.
    + intros; done.
Qed.

(** ** Scoped single-entity fetch *)

Lemma find_one_None (coll : list doc) q :
  find_one coll q = None ↔ ∀ c, c ∈ coll → matches q c = false.
Proof.
  unfold find_one, find. induction coll as [|d coll IH]; simpl.
  - split; [|done]. intros _ c Hc. by apply not_elem_of_nil in Hc.
  - destruct (matches q d) eqn:Hd; simpl.
    + split; [done|]. intros H. specialize (H d (list_elem_of_here _ _)). congruence.
    + rewrite IH. split.
      * intros H c Hc. apply elem_of_cons in Hc as [->|Hc]; auto.
      * intros H c Hc. apply H. by apply list_elem_of_further.
Qed.

Lemma find_one_Some (coll : list doc) q c :
  find_one coll q = Some c → c ∈ coll ∧ matches q c = true.
Proof.
  unfold find_one, find. intros H. apply head_Some_elem_of in H.
  apply list_elem_of_In, filter_In in H as [Hin Hm].
  by rewrite list_elem_of_In.
Qed.

(** [query.update(scope)] on the id query is the conjunction of the id
    test and the scope filter, on every customer that does not carry the
    sentinel id. *)
Lemma lookup_query_conj q uid ids cid c :
  q = all_customers ∨ q = no_customers ∨ q = own_customers uid
    ∨ q = team_customers uid ids →
  field_has c "id" "__none__" = false →
  matches (q ∪ {[ "id" := Field (QEq cid) ]}) c = field_has c "id" cid && matches q c.
Proof.
  intros [->|[->|[->| ->]]] Hs.
  - unfold all_customers. rewrite (left_id_L ∅ (∪)).
    by rewrite matches_all, matches_id, andb_true_r.
  - unfold no_customers at 1.
    rewrite <- insert_union_singleton_l, insert_singleton_eq.
    fold no_customers. by rewrite matches_none, Hs, andb_false_r.
  - unfold own_customers at 1.
    rewrite <- insert_union_singleton_l, matches_insert by done.
    by rewrite matches_id, matches_own, andb_comm.
  - unfold team_customers at 1.
    rewrite <- insert_union_singleton_l, matches_insert by done.
    rewrite matches_id, matches_team, andb_comm. simpl.
    by rewrite !clause_holds_singleton, orb_false_r.
Qed.

(** C7. On a customer collection in which no document carries the
    sentinel id ["__none__"] (customer ids are drawn by [uuid4]), the
    lookup of [_get_customer_or_404] is the conjunction of the id test
    with the caller's scope filter.  It answers 404 "Customer not found"
    when no customer has the id, and the same 404, in the same world,
    when customers with the id exist but the scope filter excludes them;
    if some customer has the id and passes the filter, such a customer is
    returned. *)
Theorem get_customer_or_404_scoped (customer_id : string) (u : current_user)
    (w : world) :
  (∀ c, c ∈ db_customers w → field_has c "id" "__none__" = false) →
  ∃ q w',
    _customer_scope_query u w = (Ok q, w')
    ∧ (∀ c, c ∈ db_customers w →
         matches (q ∪ {[ "id" := Field (QEq customer_id) ]}) c
           = field_has c "id" customer_id && matches q c)
    ∧ ((∀ c, c ∈ db_customers w → field_has c "id" customer_id = false) →
       _get_customer_or_404 customer_id u w = (NotFound, w'))
    ∧ ((∀ c, c ∈ db_customers w → field_has c "id" customer_id = true →
             matches q c = false) →
       _get_customer_or_404 customer_id u w = (NotFound, w'))
    ∧ (∀ c, c ∈ db_customers w → field_has c "id" customer_id = true →
            matches q c = true →
       ∃ c', c' ∈ db_customers w ∧ field_has c' "id" customer_id = true
             ∧ matches q c' = true
             ∧ _get_customer_or_404 customer_id u w = (Ok c', w')).
Proof.
  intros Hsentinel.
  destruct (scope_query_cases u w) as (q & w' & Hq & _ & Hc & Hforms).
  exists q, w'. split; [done|].
  assert (∀ c, c ∈ db_customers w →
            matches (q ∪ {[ "id" := Field (QEq customer_id) ]}) c
              = field_has c "id" customer_id && matches q c) as Hconj.
  { intros c Hin. eapply lookup_query_conj; eauto. }
  split; [exact Hconj|].
  assert (_get_customer_or_404 customer_id u w
            = match find_one (db_customers w) (q ∪ {[ "id" := Field (QEq customer_id) ]}) with
              | None => (NotFound, w')
              | Some c => (Ok c, w')
              end) as Hrun.
  { unfold _get_customer_or_404. rewrite (bind_ok _ _ _ _ _ Hq).
    unfold mbind, M_bind, get_world. simpl. rewrite Hc.
    by destruct (find_one _ _). }
  split; [|split].
  - intros Hnoid. rewrite Hrun.
    rewrite (proj2 (find_one_None _ _)); [done|].
    intros c Hin. by rewrite Hconj, (Hnoid c Hin).
  - intros Hexcl. rewrite Hrun.
    rewrite (proj2 (find_one_None _ _)); [done|].
    intros c Hin. rewrite Hconj by done.
    destruct (field_has c "id" customer_id) eqn:Hid; [|done].
    by rewrite (Hexcl c Hin Hid).
  - intros c Hin Hid Hm. rewrite Hrun.
    destruct (find_one _ _) as [c'|] eqn:Hfind.
    + apply find_one_Some in Hfind as [Hin' Hm'].
      rewrite Hconj in Hm' by done. apply andb_true_iff in Hm' as [? ?].
      exists c'. auto.
    + exfalso. rewrite find_one_None in Hfind. specialize (Hfind c Hin).
      rewrite Hconj, Hid, Hm in Hfind; done.
Qed.

(** ** Merger: booleans are or-ed *)

Lemma merge_actions_lookup (a b : gmap string bool) k :
  merge_actions a b !! k
    = match b !! k with
      | Some v => Some (default false (a !! k) || v)
      | None => a !! k
      end.
Proof.
  unfold merge_actions. revert k.
  apply (map_fold_weak_ind (λ r m, ∀ k,
    r !! k = match m !! k with
             | Some v => Some (default false (a !! k) || v)
             | None => a !! k
             end)).
  - intros k. by rewrite lookup_empty.
  - intros i x m r Hi IH k. destruct (decide (i = k)) as [->|Hne].
    + rewrite !lookup_insert_eq. by rewrite IH, Hi.
    + rewrite !lookup_insert_ne by done. apply IH.
Qed.

Lemma merge_enabled a b :
  enabled_of (_merge_module_perms a b) = enabled_of a || enabled_of b.
Proof.
  unfold enabled_of; simpl. destruct (mp_enabled b); simpl; [done|].
  by rewrite orb_false_r.
Qed.

Lemma merge_action a b k :
  action_of (_merge_module_perms a b) k = action_of a k || action_of b k.
Proof.
  unfold action_of; simpl.
  set (A := default ∅ (mp_actions a)). set (B := default ∅ (mp_actions b)).
  assert (default false (merge_actions A B !! k)
          = default false (A !! k) || default false (B !! k)) as Hmerge.
  { rewrite merge_actions_lookup. destruct (B !! k); simpl; [done|].
    by rewrite orb_false_r. }
  destruct (decide (merge_actions A B = ∅)) as [Hempty|_]; simpl; [|done].
  fold A. rewrite <- Hmerge, Hempty, lookup_empty. simpl.
  pose proof (merge_actions_lookup A B k) as Hk.
  rewrite Hempty, lookup_empty in Hk.
  destruct (B !! k); [done|]. by rewrite <- Hk.
Qed.

(** ** Resolver *)

Lemma merge_role_empty (rp : gmap string module_perm) k :
  merge_role ∅ rp !! k = _merge_module_perms empty_perm <$> rp !! k.
Proof.
  unfold merge_role. revert k.
  apply (map_fold_weak_ind (λ r m, ∀ k,
    r !! k = _merge_module_perms empty_perm <$> m !! k)).
  - intros k. by rewrite !lookup_empty.
  - intros i x m r Hi IH k. destruct (decide (i = k)) as [->|Hne].
    + rewrite !lookup_insert_eq. by rewrite IH, Hi.
    + rewrite !lookup_insert_ne by done. apply IH.
Qed.

Lemma has_perm_single_role (rp : gmap string module_perm) k a :
  _has_perm (Effective (merge_role ∅ rp)) k a = _has_perm (Effective rp) k a.
Proof.
  unfold _has_perm; simpl. rewrite merge_role_empty.
  destruct (rp !! k) as [mp|]; simpl; [|done].
  rewrite merge_enabled. simpl.
  destruct (enabled_of mp); simpl; [|done].
  destruct (action_given a); [|done]. by rewrite merge_action.
Qed.

Lemma merge_role_empty_enabled (rp : gmap string module_perm) k :
  mp_enabled (default empty_perm (merge_role ∅ rp !! k))
  = mp_enabled (default empty_perm (rp !! k)).
Proof.
  rewrite merge_role_empty. destruct (rp !! k) as [mp|]; simpl; [|done].
  by destruct (mp_enabled mp).
Qed.

(** The READ_ONLY entry of the default configuration enables the
    dashboard and the seven data modules, and grants no action. *)
Lemma default_read_only_enabled k :
  mp_enabled (default empty_perm
                (default ∅ (_default_role_permissions !! "READ_ONLY") !! k)) = Some true
  ↔ k ∈ [ "dashboard"; "customers"; "activities"; "risks"; "opportunities";
          "tasks"; "datalabs_reports"; "documents" ].
Proof.
  set (rp := default ∅ (_default_role_permissions !! "READ_ONLY")).
  set (l := [ "dashboard"; "customers"; "activities"; "risks"; "opportunities";
              "tasks"; "datalabs_reports"; "documents" ]).
  split.
  - assert (map_Forall (λ k mp, mp_enabled mp = Some true → k ∈ l) rp) as H
      by decide_closed.
    destruct (rp !! k) as [mp|] eqn:Hk; simpl; [|done]. by apply H.
  - assert (Forall (λ k, mp_enabled (default empty_perm (rp !! k)) = Some true) l)
      as H by decide_closed.
    rewrite Forall_forall in H. apply H.
Qed.

Lemma default_read_only_actions k name acts :
  mp_actions (default empty_perm
                (default ∅ (_default_role_permissions !! "READ_ONLY") !! k)) = Some acts →
  acts !! name ≠ Some true.
Proof.
  set (rp := default ∅ (_default_role_permissions !! "READ_ONLY")).
  assert (map_Forall (λ _ mp, map_Forall (λ _ b, b = false) (default ∅ (mp_actions mp)))
            rp) as H by decide_closed.
  destruct (rp !! k) as [mp|] eqn:Hk; simpl; [|done].
  intros Hacts Hname. specialize (H k mp Hk). cbv beta in H. rewrite Hacts in H. simpl in H.
  by specialize (H name true Hname).
Qed.

(** C1 (amended). A user whose role set is empty is resolved as a holder
    of the single role READ_ONLY, the source's fallback
    [_roles(current_user) or ["READ_ONLY"]]: the effective permission set
    and every answer of [_require_perm] are those of a READ_ONLY user.  A
    module is enabled in the effective set exactly when READ_ONLY's
    configured entry enables it; [_require_perm] returns the effective
    set exactly when that entry enables the module and grants the action
    named, if a non-empty one is named, and answers Forbidden in every
    other case.  Every call is Forbidden exactly when READ_ONLY's entry
    enables no module, in particular when the configuration has no
    READ_ONLY entry.  With the READ_ONLY entry of the default
    configuration the dashboard and the seven data modules, and no other,
    are enabled: a call that names no action passes the gate for exactly
    these modules, and every call that names an action is Forbidden. *)
Theorem no_roles_resolve_as_read_only (u : current_user) (w : world) :
  _roles u = [] →
  let ro := CurrentUser (cu_user_id u) None (Some ["READ_ONLY"]) in
  _get_effective_permissions u w = _get_effective_permissions ro w
  ∧ (∀ k a, _require_perm u k a w = _require_perm ro k a w)
  ∧ ∃ s w' eff,
      _ensure_settings false w = (Ok s, w')
      ∧ _get_effective_permissions u w = (Ok eff, w')
      ∧ let configured := default ∅ (sd_role_permissions s) !! "READ_ONLY" in
        let perm := λ k, default empty_perm (default ∅ configured !! k) in
        let granted := λ k (a : option string),
          mp_enabled (perm k) = Some true
          ∧ ∀ name, a = Some name → name ≠ EmptyString →
                    ∃ actions, mp_actions (perm k) = Some actions
                               ∧ actions !! name = Some true in
        (∀ k, mp_enabled (default empty_perm (modules eff !! k)) = Some true
              ↔ mp_enabled (perm k) = Some true)
        ∧ (∀ k a, _require_perm u k a w = (Ok eff, w') ↔ granted k a)
        ∧ (∀ k a, _require_perm u k a w = (Forbidden, w') ↔ ¬ granted k a)
        ∧ ((∀ k a, _require_perm u k a w = (Forbidden, w'))
           ↔ ∀ k, mp_enabled (perm k) ≠ Some true)
        ∧ (configured = None →
           ∀ k a, _require_perm u k a w = (Forbidden, w'))
        ∧ (configured = _default_role_permissions !! "READ_ONLY" →
           (∀ k, mp_enabled (default empty_perm (modules eff !! k)) = Some true
                 ↔ k ∈ [ "dashboard"; "customers"; "activities"; "risks";
                         "opportunities"; "tasks"; "datalabs_reports"; "documents" ])
           ∧ (∀ k, _require_perm u k None w = (Ok eff, w')
                   ↔ k ∈ [ "dashboard"; "customers"; "activities"; "risks";
                           "opportunities"; "tasks"; "datalabs_reports";
                           "documents" ])
           ∧ (∀ k name, name ≠ EmptyString →
                        _require_perm u k (Some name) w = (Forbidden, w'))).
Proof.
  intros Hroles ro.
  assert (_get_effective_permissions u w = _get_effective_permissions ro w) as Heq.
  { unfold _get_effective_permissions. by rewrite Hroles. }
  split; [done|]. split.
  { intros k a. unfold _require_perm, mbind, M_bind. by rewrite Heq. }
  destruct (ensure_settings_ok false w) as (s & w' & Hs & _ & _).
  set (rp := default ∅ (default ∅ (sd_role_permissions s) !! "READ_ONLY")).
  set (eff := Effective (merge_role ∅ rp)).
  assert (_get_effective_permissions u w = (Ok eff, w')) as Heff.
  { unfold _get_effective_permissions. rewrite Hroles.
    erewrite bind_ok; [|exact Hs]. reflexivity. }
  exists s, w', eff. split; [done|]. split; [done|].
  cbv zeta. fold rp.
  set (granted := λ k (a : option string),
    mp_enabled (default empty_perm (rp !! k)) = Some true
    ∧ ∀ name, a = Some name → name ≠ EmptyString →
              ∃ actions, mp_actions (default empty_perm (rp !! k)) = Some actions
                         ∧ actions !! name = Some true).
  assert (∀ k a, _has_perm eff k a = true ↔ granted k a) as Hgranted.
  { intros k a. unfold eff. rewrite has_perm_single_role.
    apply (has_perm_raw (Effective rp)). }
  assert (∀ k a, _require_perm u k a w
                 = if _has_perm eff k a then (Ok eff, w') else (Forbidden, w')) as Hrun.
  { intros k a. unfold _require_perm. rewrite (bind_ok _ _ _ _ _ Heff).
    by destruct (_has_perm eff k a). }
  assert (∀ k a, _require_perm u k a w = (Ok eff, w') ↔ granted k a) as Hok.
  { intros k a. rewrite <- Hgranted, Hrun. by destruct (_has_perm eff k a). }
  assert (∀ k a, _require_perm u k a w = (Forbidden, w') ↔ ¬ granted k a) as Hdenied.
  { intros k a. rewrite <- Hgranted, Hrun. destruct (_has_perm eff k a); split; done. }
  assert (∀ k, mp_enabled (default empty_perm (modules eff !! k)) = Some true
               ↔ mp_enabled (default empty_perm (rp !! k)) = Some true) as Hen.
  { intros k. unfold eff. simpl. by rewrite merge_role_empty_enabled. }
  assert ((∀ k, mp_enabled (default empty_perm (rp !! k)) ≠ Some true) →
          ∀ k a, _require_perm u k a w = (Forbidden, w')) as Hnone.
  { intros Hoff k a. apply Hdenied. intros [Hk _]. by apply (Hoff k). }
  split; [exact Hen|]. split; [exact Hok|]. split; [exact Hdenied|]. split.
  { split; [|exact Hnone].
    intros Hall k Hk. apply (proj1 (Hdenied k None) (Hall k None)).
    split; [done|]. by intros name [=]. }
  split.
  { intros Hmissing. apply Hnone. intros k. unfold rp. by rewrite Hmissing. }
  intros Hdefault.
  assert (rp = default ∅ (_default_role_permissions !! "READ_ONLY")) as Hrp
    by (unfold rp; by rewrite Hdefault).
  clearbody rp. subst rp.
  split; [|split].
  - intros k. rewrite Hen. apply default_read_only_enabled.
  - intros k. rewrite Hok, <- default_read_only_enabled.
    split; [by intros [? _]|]. intros Hk. split; [done|]. by intros name [=].
  - intros k name Hname. apply Hdenied. intros [_ Hact].
    destruct (Hact name eq_refl Hname) as (acts & Hacts & Htrue).
    by apply (default_read_only_actions k name acts).
Qed.

(** ** Field policy of the customer reads *)

Lemma bind_Ok_inv {A B} (m : M A) (f : A → M B) w b w' :
  (m ≫= f) w = (Ok b, w') → ∃ a w1, m w = (Ok a, w1) ∧ f a w1 = (Ok b, w').
Proof.
  unfold mbind, M_bind. destruct (m w) as [[a| |] w1]; [eauto|done|done].
Qed.

Lemma require_perm_frame u k a w eff w1 :
  _require_perm u k a w = (Ok eff, w1) →
  _get_effective_permissions u w = (Ok eff, w1)
  ∧ _has_perm eff k a = true
  ∧ db_users w1 = db_users w ∧ db_customers w1 = db_customers w.
Proof.
  intros H. unfold _require_perm in H.
  apply bind_Ok_inv in H as (eff' & w1' & Heff & H).
  destruct (_has_perm eff' k a) eqn:Hp; simpl in H; [|done].
  injection H as <- <-.
  destruct (get_effective_frame _ _ _ _ Heff). auto.
Qed.


Section FieldPolicy.

Variable fromisoformat : string → option Z.
Variable uuid4 : string.

Lemma Customer_init_Ok d w row w' :
  Customer_init uuid4 d w = (Ok row, w') →
  ∃ t1 t2,
    row = <[ "id" := default (VStr uuid4) (d !! "id") ]>
            (<[ "created_at" := default (VTime t1) (d !! "created_at") ]>
               (<[ "updated_at" := default (VTime t2) (d !! "updated_at") ]>
                  (project Customer_fields d ∪ Customer_defaults))).
Proof.
  unfold Customer_init. destruct (d !! "company_name") as [[]|]; try done.
  unfold or_now, mbind, M_bind, mret, M_ret, datetime_now.
  destruct (d !! "created_at"), (d !! "updated_at"); simpl;
    intros H; injection H as <- _;
    first [ by exists 0, 0
          | by exists 0, (clock w (ticks w))
          | by exists (clock w (ticks w)), 0
          | by exists (clock w (ticks w)), (clock w (S (ticks w))) ].
Qed.









End FieldPolicy.

(** ** Customer update *)

Create HintDb no_http.

Lemma no_http_ret {A} (a : A) : no_http (mret a : M A).
Proof. intros w c d w'. done. Qed.

Lemma no_http_throw {A} e : no_http (throw e : M A).
Proof. intros w c d w'. done. Qed.

Lemma no_http_bind {A B} (m : M A) (f : A → M B) :
  no_http m → (∀ a, no_http (f a)) → no_http (m ≫= f).
Proof.
  intros Hm Hf w c d w'. unfold mbind, M_bind.
  destruct (m w) as [[a| |] w1] eqn:Hmw.
  - apply Hf.
  - by destruct (Hm w status_code detail w1).
  - done.
Qed.

Lemma no_http_now : no_http datetime_now.
Proof. intros w c d w'. done. Qed.

Lemma no_http_get : no_http get_world.
Proof. intros w c d w'. done. Qed.

Lemma no_http_set cs : no_http (set_db_customers cs).
Proof. intros w c d w'. done. Qed.

Lemma no_http_try {A} (body handler : M A) : no_http handler → no_http (try_except body handler).
Proof.
  intros Hh w c d w'. unfold try_except.
  destruct (body w) as [[a| |] w1]; [done|apply Hh|apply Hh].
Qed.

#[local] Hint Resolve no_http_ret no_http_throw no_http_now no_http_get
  no_http_set no_http_try : no_http.

Ltac no_http :=
  repeat first
    [ progress auto with no_http
    | progress cbv zeta
    | apply no_http_bind; [|intros ?]
    | case_match ].

Create HintDb keeps.

Lemma keeps_ret {A} (a : A) : keeps_customers (mret a : M A).
Proof. intros w r w' [= _ <-]. done. Qed.

Lemma keeps_throw {A} e : keeps_customers (throw e : M A).
Proof. intros w r w' [= _ <-]. done. Qed.

Lemma keeps_raise {A} c d : keeps_customers (raise c d : M A).
Proof. intros w r w' [= _ <-]. done. Qed.

Lemma keeps_bind {A B} (m : M A) (f : A → M B) :
  keeps_customers m → (∀ a, keeps_customers (f a)) → keeps_customers (m ≫= f).
Proof.
  intros Hm Hf w r w'. unfold mbind, M_bind.
  destruct (m w) as [[a| |] w1] eqn:Hmw; specialize (Hm _ _ _ Hmw).
  - intros H. rewrite <- Hm. by eapply Hf.
  - by intros [= _ <-].
  - by intros [= _ <-].
Qed.

Lemma keeps_try {A} (body handler : M A) :
  keeps_customers body → keeps_customers handler →
  keeps_customers (try_except body handler).
Proof.
  intros Hb Hh w r w'. unfold try_except.
  destruct (body w) as [[a| |] w1] eqn:Hbw; specialize (Hb _ _ _ Hbw).
  - by intros [= _ <-].
  - intros H. rewrite <- Hb. by eapply Hh.
  - intros H. rewrite <- Hb. by eapply Hh.
Qed.

Lemma keeps_now : keeps_customers datetime_now.
Proof. by intros w r w' [= _ <-]. Qed.

Lemma keeps_get : keeps_customers get_world.
Proof. by intros w r w' [= _ <-]. Qed.

Lemma keeps_set_settings s : keeps_customers (set_db_settings s).
Proof. by intros w r w' [= _ <-]. Qed.

Lemma keeps_set_cache s now : keeps_customers (set_cache s now).
Proof. by intros w r w' [= _ <-]. Qed.

#[local] Hint Resolve keeps_ret keeps_throw keeps_raise keeps_try keeps_now
  keeps_get keeps_set_settings keeps_set_cache : keeps.

Ltac keeps :=
  repeat first
    [ progress auto with keeps
    | progress cbv zeta
    | apply keeps_try
    | apply keeps_bind; [|intros ?]
    | case_match ].

Lemma keeps_ensure_settings force_refresh : keeps_customers (_ensure_settings force_refresh).
Proof. unfold _ensure_settings. keeps. Qed.

Lemma keeps_get_effective u : keeps_customers (_get_effective_permissions u).
Proof. unfold _get_effective_permissions. pose proof keeps_ensure_settings. keeps. Qed.

(** Inversion of a run that returned a value: split the binds, decide
    the tests. *)
Ltac run_inv :=
  repeat match goal with
         | H : (_ ≫= _) _ = (Ok _, _) |- _ =>
             apply bind_Ok_inv in H as (? & ? & ? & H)
         | H : mret _ _ = (Ok _, _) |- _ => injection H as <- <-
         | H : get_world _ = (Ok _, _) |- _ => injection H as <- <-
         | H : throw _ _ = (Ok _, _) |- _ => discriminate H
         | H : context [if ?b then _ else _] |- _ => destruct b eqn:?
         | H : context [match ?x with _ => _ end] |- _ => destruct x eqn:?
         end.

Section Update.

Variable fromisoformat : string → option Z.
Variable isoformat : Z → string.
Variable uuid4 : string.
Variable health_score_at : option Z → doc → Z.

Lemma no_http_owner_name users effective k : no_http (owner_name users effective k).
Proof. unfold owner_name. no_http. Qed.

Lemma no_http_maintain_health existing update_dict :
  no_http (maintain_health health_score_at existing update_dict).
Proof.
  unfold maintain_health, calculate_health_score, determine_health_status.
  no_http.
Qed.

Lemma no_http_build_update existing data u :
  no_http (build_update isoformat health_score_at existing data u).
Proof.
  unfold build_update.
  pose proof no_http_owner_name. pose proof no_http_maintain_health. no_http.
Qed.

Lemma no_http_parse_dates d : no_http (parse_dates fromisoformat d).
Proof. unfold parse_dates, parse_date. no_http. Qed.

Lemma no_http_Customer_init d : no_http (Customer_init uuid4 d).
Proof. unfold Customer_init, or_now. no_http. Qed.

Lemma update_one_found (coll : list doc) q upd existing :
  find_one coll q = Some existing →
  ∃ pre post, coll = (pre ++ existing :: post)%list
    ∧ update_one coll q upd = (pre ++ (upd ∪ existing) :: post)%list
    ∧ ∀ d, d ∈ pre → matches q d = false.
Proof.
  unfold find_one, find. induction coll as [|d coll IH]; simpl; [done|].
  destruct (matches q d) eqn:Hd; simpl.
  - intros [= ->]. exists [], coll. repeat split. intros d Hin.
    by apply not_elem_of_nil in Hin.
  - intros H. destruct (IH H) as (pre & post & -> & -> & Hpre).
    exists (d :: pre), post. repeat split.
    intros d' Hin. apply elem_of_cons in Hin as [->|Hin]; auto.
Qed.

Lemma maintain_health_other existing update_dict w upd w' k :
  maintain_health health_score_at existing update_dict w = (Ok upd, w') →
  k ≠ "health_score" → k ≠ "health_status" →
  upd !! k = update_dict !! k.
Proof.
  intros H Hs Ht.
  unfold maintain_health, calculate_health_score, determine_health_status in H.
  run_inv; by rewrite ?lookup_insert_ne by done.
Qed.

Lemma auto_map_am_other users effective k :
  k ≠ "am_owner_id" → auto_map_am users effective !! k = effective !! k.
Proof.
  intros Hk. unfold auto_map_am.
  repeat case_match; by rewrite ?lookup_insert_ne by done.
Qed.

(** Under scope own the update dict carries the caller's id as CSM owner. *)
Lemma build_update_own existing data u w1 upd w2 eff2 w1' :
  build_update isoformat health_score_at existing data u w1 = (Ok upd, w2) →
  _get_effective_permissions u w1 = (Ok eff2, w1') →
  customers_scope eff2 = Some "own" →
  upd !! "csm_owner_id" = Some (VStr (_user_id u)).
Proof.
  intros H Heff Hown. unfold build_update in H.
  erewrite bind_ok in H; last first.
  { apply try_except_ok. erewrite bind_ok; [|exact Heff]. reflexivity. }
  fold (customers_scope eff2) in H. rewrite Hown in H.
  rewrite bool_decide_eq_true_2 in H by done.
  do 4 (apply bind_Ok_inv in H as (? & ? & ? & H)).
  rewrite (maintain_health_other _ _ _ _ _ _ H) by done.
  rewrite !lookup_insert_ne by done.
  rewrite auto_map_am_other by done. by rewrite lookup_insert_eq.
Qed.

Lemma keeps_owner_name users effective k : keeps_customers (owner_name users effective k).
Proof. unfold owner_name. keeps. Qed.

Lemma keeps_maintain_health existing update_dict :
  keeps_customers (maintain_health health_score_at existing update_dict).
Proof.
  unfold maintain_health, calculate_health_score, determine_health_status. keeps.
Qed.

Lemma keeps_build_update existing data u :
  keeps_customers (build_update isoformat health_score_at existing data u).
Proof.
  unfold build_update.
  pose proof keeps_owner_name. pose proof keeps_maintain_health.
  pose proof keeps_get_effective. keeps.
Qed.

Lemma keeps_parse_dates d : keeps_customers (parse_dates fromisoformat d).
Proof. unfold parse_dates, parse_date. keeps. Qed.

Lemma keeps_Customer_init d : keeps_customers (Customer_init uuid4 d).
Proof. unfold Customer_init, or_now. keeps. Qed.

(** *** Totality of the update dict on well-formed data *)

Lemma user_by_id_elem users v usr : user_by_id users v = Some usr → usr ∈ users.
Proof.
  unfold user_by_id. destruct v as [[]|]; try done.
  intros H. by apply find_one_Some in H as [? _].
Qed.

Lemma owner_name_ok users effective k w :
  (∀ usr, usr ∈ users → is_Some (usr !! "name")) →
  ∃ v, owner_name users effective k w = (Ok v, w).
Proof.
  intros Hnames. unfold owner_name.
  destruct (truthy_at effective k); [|by eexists].
  destruct (user_by_id users (effective !! k)) as [usr|] eqn:Husr; [|by eexists].
  destruct (Hnames usr (user_by_id_elem _ _ _ Husr)) as [n ->]. by eexists.
Qed.

Lemma maintain_health_ok existing update_dict w :
  number_or_none update_dict "health_score" = true →
  number_or_none existing "health_score" = true →
  ∃ upd w', maintain_health health_score_at existing update_dict w = (Ok upd, w').
Proof.
  intros Hu He. unfold maintain_health.
  set (u1 := if is_none update_dict "health_score" then _ else _).
  assert (number_or_none u1 "health_score" = true) as H1.
  { subst u1. destruct (is_none update_dict "health_score"); [|done].
    unfold number_or_none in *. rewrite lookup_insert_eq.
    by destruct (existing !! "health_score") as [[]|]. }
  set (u2 := if is_none u1 "health_status" then _ else _).
  assert (u2 !! "health_score" = u1 !! "health_score") as H2.
  { subst u2. destruct (is_none u1 "health_status"); [|done].
    by rewrite lookup_insert_ne. }
  clearbody u2. clear Hu He.
  destruct (is_none u2 "health_score") eqn:Hnone.
  - unfold calculate_health_score.
    destruct (truthy_at _ "last_activity_date"); simpl;
      unfold mbind, M_bind, mret, M_ret, datetime_now; simpl;
      (destruct (is_none _ "health_status"); simpl;
         rewrite ?lookup_insert_eq; simpl; eexists _, _; reflexivity).
  - unfold mbind, M_bind, mret, M_ret; simpl.
    destruct (is_none u2 "health_status"); [|by eexists _, _].
    unfold is_none in Hnone. unfold number_or_none in H1. rewrite H2 in *.
    destruct (u1 !! "health_score") as [[]|]; simplify_eq/=.
    by eexists _, _.
Qed.

Lemma build_update_ok existing data u w1 :
  (∀ usr, usr ∈ db_users w1 → is_Some (usr !! "name")) →
  number_or_none data "health_score" = true →
  number_or_none existing "health_score" = true →
  ∃ upd w2, build_update isoformat health_score_at existing data u w1 = (Ok upd, w2).
Proof.
  intros Hnames Hd He.
  destruct (get_effective_ok u w1) as (eff2 & w1' & Heff & Hu & _).
  unfold build_update.
  erewrite bind_ok; last first.
  { apply try_except_ok. erewrite bind_ok; [|exact Heff]. reflexivity. }
  erewrite bind_ok; [|reflexivity]. rewrite Hu.
  set (effective := auto_map_am _ _).
  destruct (owner_name_ok (db_users w1) effective "csm_owner_id" w1' Hnames) as [n1 Hn1].
  destruct (owner_name_ok (db_users w1) effective "am_owner_id" w1' Hnames) as [n2 Hn2].
  erewrite bind_ok; [|exact Hn1]. erewrite bind_ok; [|exact Hn2].
  erewrite bind_ok; [|reflexivity].
  apply maintain_health_ok; [|done].
  unfold number_or_none in *. rewrite !lookup_insert_ne by done.
  subst effective. rewrite auto_map_am_other by done.
  destruct (bool_decide _); [by rewrite lookup_insert_ne|done].
Qed.

Lemma update_one_found_others (coll : list doc) q upd existing :
  find_one coll q = Some existing →
  ∃ pre post, coll = (pre ++ existing :: post)%list
    ∧ update_one coll q upd = (pre ++ (upd ∪ existing) :: post)%list
    ∧ without_first coll q = (pre ++ post)%list
    ∧ ∀ d, d ∈ pre → matches q d = false.
Proof.
  unfold find_one, find. induction coll as [|d coll IH]; simpl; [done|].
  destruct (matches q d) eqn:Hd; simpl.
  - intros [= ->]. exists [], coll. repeat split. intros d Hin.
    by apply not_elem_of_nil in Hin.
  - intros H. destruct (IH H) as (pre & post & -> & -> & -> & Hpre).
    exists (d :: pre), post. repeat split.
    intros d' Hin. apply elem_of_cons in Hin as [->|Hin]; auto.
Qed.

(** A write violates the unique indexes of the customers exactly when
    it changes the id or the company name to that of another customer. *)
Lemma duplicate_key_customers (others : list doc) (old new : doc) :
  duplicate_key customers_unique others old new = true
  ↔ ∃ k other, (k = "id" ∨ k = "company_name") ∧ other ∈ others
      ∧ default VNone (new !! k) ≠ default VNone (old !! k)
      ∧ default VNone (other !! k) = default VNone (new !! k).
Proof.
  unfold duplicate_key, customers_unique, index_key. rewrite existsb_exists. split.
  - intros (k & Hk & H). apply andb_true_iff in H as [H1 H2].
    apply bool_decide_eq_true in H1. apply existsb_exists in H2 as (o & Ho & H2).
    apply bool_decide_eq_true in H2. exists k, o.
    split; [simpl in Hk; destruct Hk as [<-|[<-|[]]]; auto|]. split; [by apply list_elem_of_In|done].
  - intros (k & o & Hk & Ho & H1 & H2). exists k.
    split; [simpl; destruct Hk as [->| ->]; auto|]. apply andb_true_iff.
    split; [by apply bool_decide_eq_true|]. apply existsb_exists. exists o.
    split; [by apply list_elem_of_In|by apply bool_decide_eq_true].
Qed.

(** C10 (amended). Once [_require_perm] grants the customers edit action,
    [update_customer] looks its target up by id alone: for every stored
    customer with the requested id, owned by anyone, the handler never
    answers with an [HTTPException] (neither Forbidden nor Not Found),
    no scope filter being applied.  Whenever the update dict is built,
    the write goes to the first customer with that id: it is overwritten
    with the update dict, unless the update changes the id or the
    company name to that of another customer, in which case the unique
    index refuses the write, the call fails with a DuplicateKeyError
    and nothing is written.  The update dict is built for every body
    whose health score is absent, null or a number, when the stored
    score is too and the user documents carry names.  When the caller's
    effective customers scope is "own", the update dict, and with it the
    customer as written, carries the [user_id] of the caller (the empty
    string when the token has none) as [csm_owner_id]. *)
Theorem update_customer_by_id_alone (customer_id : string) (customer_data : doc)
    (u : current_user) (w : world) (eff : effective) (w1 : world) (existing : doc) :
  _require_perm u "customers" (Some "edit") w = (Ok eff, w1) →
  find_one (db_customers w) {[ "id" := Field (QEq customer_id) ]} = Some existing →
  ∃ r w',
    update_customer fromisoformat isoformat uuid4 health_score_at
      customer_id customer_data u w = (r, w')
    ∧ (∀ status detail, r ≠ HTTPException status detail)
    ∧ (∀ upd w2,
         build_update isoformat health_score_at existing customer_data u w1
           = (Ok upd, w2) →
         ∃ pre post,
           db_customers w = (pre ++ existing :: post)%list
           ∧ (∀ d, d ∈ pre → field_has d "id" customer_id = false)
           ∧ ((∀ k other, k = "id" ∨ k = "company_name" →
                 other ∈ (pre ++ post)%list →
                 default VNone ((upd ∪ existing) !! k) ≠ default VNone (existing !! k) →
                 default VNone (other !! k) ≠ default VNone ((upd ∪ existing) !! k)) →
              db_customers w' = (pre ++ (upd ∪ existing) :: post)%list)
           ∧ (∀ k other, k = "id" ∨ k = "company_name" →
                 other ∈ (pre ++ post)%list →
                 default VNone ((upd ∪ existing) !! k) ≠ default VNone (existing !! k) →
                 default VNone (other !! k) = default VNone ((upd ∪ existing) !! k) →
                 r = Exception "DuplicateKeyError"
                 ∧ db_customers w' = db_customers w)
           ∧ (∀ eff2 w1',
                _get_effective_permissions u w1 = (Ok eff2, w1') →
                mp_scope (default empty_perm (modules eff2 !! "customers")) = Some "own" →
                (upd ∪ existing) !! "csm_owner_id"
                = Some (VStr (default EmptyString (cu_user_id u)))))
    ∧ ((∀ usr, usr ∈ db_users w → is_Some (usr !! "name")) →
       number_or_none customer_data "health_score" = true →
       number_or_none existing "health_score" = true →
       ∃ upd w2,
         build_update isoformat health_score_at existing customer_data u w1
           = (Ok upd, w2)).
Proof.
  intros Hperm Hfind.
  destruct (require_perm_frame _ _ _ _ _ _ Hperm) as (_ & _ & Hu1 & Hc1).
  set (q := {[ "id" := Field (QEq customer_id) ]} : query) in *.
  (* what remains once the update is written *)
  set (reload := (w ← get_world;
                  match find_one (db_customers w) q with
                  | None => throw "TypeError"
                  | Some updated =>
                      match updated !! "created_at", updated !! "updated_at" with
                      | Some _, Some _ =>
                          updated ← parse_dates fromisoformat updated;
                          Customer_init uuid4 updated
                      | _, _ => throw "KeyError"
                      end
                  end) : M doc).
  assert (update_customer fromisoformat isoformat uuid4 health_score_at
            customer_id customer_data u w
          = (update_dict ← build_update isoformat health_score_at existing customer_data u;
             w ← get_world;
             match update_one_unique customers_unique (db_customers w) q update_dict with
             | Some customers => set_db_customers customers
             | None => throw "DuplicateKeyError"
             end;;
             reload) w1) as Hrun.
  { unfold update_customer. rewrite (bind_ok _ _ _ _ _ Hperm).
    unfold mbind at 1, M_bind at 1, get_world. fold q. by rewrite Hc1, Hfind. }
  assert (no_http reload) as Hreload_http.
  { unfold reload. pose proof no_http_parse_dates.
    pose proof no_http_Customer_init. no_http. }
  assert (keeps_customers reload) as Hreload_keeps.
  { unfold reload. pose proof keeps_parse_dates.
    pose proof keeps_Customer_init. keeps. }
  clearbody reload.
  rewrite Hrun. clear Hrun.
  destruct (build_update isoformat health_score_at existing customer_data u w1)
    as [[upd| |] w2] eqn:Hbuild.
  - pose proof (keeps_build_update _ _ _ _ _ _ Hbuild) as Hc2.
    rewrite (bind_ok _ _ _ _ _ Hbuild).
    unfold mbind at 1, M_bind at 1, get_world.
    destruct (update_one_found_others _ _ upd _ Hfind)
      as (pre & post & Hcoll & Hupd & Hothers & Hpre).
    assert (db_customers w2 = db_customers w) as Hw2 by (by rewrite Hc2, Hc1).
    unfold update_one_unique. rewrite Hw2, Hfind, Hothers, Hupd.
    assert (∀ d, d ∈ pre → field_has d "id" customer_id = false) as Hpre'.
    { intros d Hd. rewrite <- matches_id. by apply Hpre. }
    assert (∀ eff2 w1',
              _get_effective_permissions u w1 = (Ok eff2, w1') →
              mp_scope (default empty_perm (modules eff2 !! "customers")) = Some "own" →
              (upd ∪ existing) !! "csm_owner_id"
              = Some (VStr (default EmptyString (cu_user_id u)))) as Hown.
    { intros eff2 w1' Heff2 Hscope. apply lookup_union_Some_l.
      by eapply build_update_own. }
    destruct (duplicate_key customers_unique (pre ++ post) existing (upd ∪ existing))
      eqn:Hdup.
    + exists (Exception "DuplicateKeyError"), w2. split; [done|]. split; [done|].
      split; [|by eauto].
      intros upd' w2' [= <- <-]. exists pre, post.
      split; [done|]. split; [done|]. split.
      { intros Hnone. apply duplicate_key_customers in Hdup
          as (k & o & Hk & Ho & Hch & Heq).
        by destruct (Hnone k o Hk Ho Hch). }
      split; [by intros|done].
    + unfold mbind at 1, M_bind at 1, set_db_customers.
      destruct (reload _) as [r w'] eqn:Hreload.
      exists r, w'. split; [done|].
      apply Hreload_keeps in Hreload as Hc3. simpl in Hc3.
      split; [|split].
      * intros c d ->. by eapply Hreload_http.
      * intros upd' w2' [= <- <-]. exists pre, post.
        split; [done|]. split; [done|]. split; [done|]. split; [|done].
        intros k o Hk Ho Hch Heq.
        assert (duplicate_key customers_unique (pre ++ post) existing (upd ∪ existing)
                = true) as Habs by (apply duplicate_key_customers; eauto 8).
        congruence.
      * intros; eauto.
  - exists (HTTPException status_code detail), w2.
    split; [by unfold mbind, M_bind; rewrite Hbuild|].
    by destruct (no_http_build_update _ _ _ _ _ _ _ Hbuild).
  - exists (Exception what), w2.
    split; [by unfold mbind, M_bind; rewrite Hbuild|].
    split; [done|]. split.
    + intros upd w2' [=].
    + intros Hnames Hd He. rewrite <- Hu1 in Hnames.
      destruct (build_update_ok existing customer_data u _ Hnames Hd He)
        as (? & ? & Hok).
      rewrite Hbuild in Hok. done.
Qed.

End Update.


(** ** Settings cache *)

(** Within the time-to-live a read is served from the cache, whatever
    the database holds. *)
Lemma ensure_settings_cache_hit (w : world) (c : settings_doc) :
  SETTINGS_CACHE w = Some c →
  clock w (ticks w) - SETTINGS_CACHE_TIMESTAMP w < CACHE_TTL →
  ∃ w', _ensure_settings false w = (Ok c, w')
        ∧ db_settings w' = db_settings w
        ∧ SETTINGS_CACHE w' = Some c
        ∧ SETTINGS_CACHE_TIMESTAMP w' = SETTINGS_CACHE_TIMESTAMP w.
Proof.
  intros Hc Httl. unfold _ensure_settings, mbind, M_bind, datetime_now, get_world.
  simpl. rewrite Hc. apply Z.ltb_lt in Httl. rewrite Httl. simpl. eauto.
Qed.

(** [update_settings] writes the database and leaves the cache as the
    read at its start left it: with a warm cache, the cached copy stays
    the one from before the write. *)
Lemma update_settings_keeps_cache (payload : SettingsUpdate) (u : current_user)
    (w : world) (c : settings_doc) :
  role_set u ∩ ROLE_SETTINGS_ADMIN ≠ ∅ →
  SETTINGS_CACHE w = Some c →
  clock w (ticks w) - SETTINGS_CACHE_TIMESTAMP w < CACHE_TTL →
  ∃ stored w',
    update_settings payload u w = (Ok stored, w')
    ∧ db_settings w' = Some stored
    ∧ (∀ rp, su_role_permissions payload = Some rp →
             sd_role_permissions stored = Some rp)
    ∧ SETTINGS_CACHE w' = Some c
    ∧ SETTINGS_CACHE_TIMESTAMP w' = SETTINGS_CACHE_TIMESTAMP w.
Proof.
  intros Hadmin Hc Httl.
  destruct (ensure_settings_cache_hit w c Hc Httl) as (w1 & Hens & Hdb & Hc1 & Hts).
  unfold update_settings, _require_roles.
  rewrite decide_False by done.
  unfold mbind at 1, M_bind at 1, mret, M_ret.
  rewrite (bind_ok _ _ _ _ _ Hens).
  unfold mbind, M_bind, get_world, set_db_settings, mret, M_ret. simpl.
  eexists _, _. split; [reflexivity|]. simpl.
  split; [done|]. split; [|done].
  intros rp Hrp. by destruct (db_settings w1); simpl; rewrite Hrp.
Qed.

(** * The properties on the sample data *)

Lemma run_returned {A} (x : result A * world) (d : A) :
  is_Ok x = true → x = (Ok (default d (returned x)), x.2).
Proof. by destruct x as [[a| |] w]. Qed.

(** ** C1 *)

(** The empty-role user of the sample data is served as READ_ONLY. *)
Lemma no_roles_resolve_as_read_only_witness :
  _roles no_roles_user = []
  ∧ let ro := CurrentUser (cu_user_id no_roles_user) None (Some ["READ_ONLY"]) in
    _get_effective_permissions no_roles_user fresh_world
      = _get_effective_permissions ro fresh_world
    ∧ (∀ k a, _require_perm no_roles_user k a fresh_world = _require_perm ro k a fresh_world)
    ∧ ∃ s w' eff,
        _ensure_settings false fresh_world = (Ok s, w')
        ∧ _get_effective_permissions no_roles_user fresh_world = (Ok eff, w')
        ∧ let configured := default ∅ (sd_role_permissions s) !! "READ_ONLY" in
          let perm := λ k, default empty_perm (default ∅ configured !! k) in
          let granted := λ k (a : option string),
            mp_enabled (perm k) = Some true
            ∧ ∀ name, a = Some name → name ≠ EmptyString →
                      ∃ actions, mp_actions (perm k) = Some actions
                                 ∧ actions !! name = Some true in
          (∀ k, mp_enabled (default empty_perm (modules eff !! k)) = Some true
                ↔ mp_enabled (perm k) = Some true)
          ∧ (∀ k a, _require_perm no_roles_user k a fresh_world = (Ok eff, w')
                    ↔ granted k a)
          ∧ (∀ k a, _require_perm no_roles_user k a fresh_world = (Forbidden, w')
                    ↔ ¬ granted k a)
          ∧ ((∀ k a, _require_perm no_roles_user k a fresh_world = (Forbidden, w'))
             ↔ ∀ k, mp_enabled (perm k) ≠ Some true)
          ∧ (configured = None →
             ∀ k a, _require_perm no_roles_user k a fresh_world = (Forbidden, w'))
          ∧ (configured = _default_role_permissions !! "READ_ONLY" →
             (∀ k, mp_enabled (default empty_perm (modules eff !! k)) = Some true
                   ↔ k ∈ [ "dashboard"; "customers"; "activities"; "risks";
                           "opportunities"; "tasks"; "datalabs_reports"; "documents" ])
             ∧ (∀ k, _require_perm no_roles_user k None fresh_world = (Ok eff, w')
                     ↔ k ∈ [ "dashboard"; "customers"; "activities"; "risks";
                             "opportunities"; "tasks"; "datalabs_reports";
                             "documents" ])
             ∧ (∀ k name, name ≠ EmptyString →
                          _require_perm no_roles_user k (Some name) fresh_world
                          = (Forbidden, w'))).
Proof.
  split; [reflexivity|].
  apply (no_roles_resolve_as_read_only no_roles_user fresh_world). reflexivity.
Defined.

(** A configuration whose READ_ONLY entry enables no module refuses
    every call of a user without roles, although the entry exists; on
    the configuration without a READ_ONLY entry the same holds. *)
Example read_only_disabled_refuses :
  is_Some (read_only_off !! "READ_ONLY")
  ∧ (_require_perm no_roles_user "dashboard" None (with_role_permissions read_only_off)).1
    = Forbidden
  ∧ (_require_perm no_roles_user "customers" None (with_role_permissions read_only_off)).1
    = Forbidden
  ∧ (_require_perm no_roles_user "dashboard" None
       (with_role_permissions (delete "READ_ONLY" _default_role_permissions))).1
    = Forbidden.
Proof. split; [by eexists|]. by_eval. Qed.

(** C1, as stated, fails: on the default configuration a user without
    any role is let through the gate for the dashboard module, which is
    enabled in the effective permission set. *)
Lemma no_roles_user_passes_gate :
  _roles no_roles_user = []
  ∧ (λ eff, enabled_of (default empty_perm (modules eff !! "dashboard")))
      <$> returned (_require_perm no_roles_user "dashboard" None fresh_world)
    = Some true.
Proof. by_eval. Qed.

(** A token issued by [create_access_token] to a user without roles
    carries [role = "READ_ONLY"] and passes the same gate. *)
Example issued_token_without_roles :
  _roles (jwt "u0" []) = ["READ_ONLY"]
  ∧ is_Ok (_require_perm (jwt "u0" []) "dashboard" None fresh_world) = true
  ∧ is_Ok (_require_perm (jwt "u0" []) "customers" None fresh_world) = true
  ∧ (_require_perm (jwt "u0" []) "customers" (Some "edit") fresh_world).1 = Forbidden
  ∧ (_require_perm (jwt "u0" []) "settings" None fresh_world).1 = Forbidden.
Proof. by_eval. Qed.

(** ** Resolver on the default configuration *)

(** Roles CSM and AM together resolve to scope team; the sales field
    policy survives a merge in either order; booleans are or-ed. *)
Example resolver_samples :
  customers_scope (eff_of (jwt "x" ["CSM"; "AM"]) sample_world) = Some "team"
  ∧ customers_scope (eff_of (jwt "x" ["AM"; "CSM"]) sample_world) = Some "team"
  ∧ sales_limited (eff_of (jwt "x" ["CSM"; "SALES"]) sample_world) = true
  ∧ sales_limited (eff_of (jwt "x" ["SALES"; "CSM"]) sample_world) = true
  ∧ _has_perm (eff_of (jwt "x" ["SALES"; "CSM"]) sample_world) "customers" (Some "edit") = true
  ∧ _has_perm (eff_of sales_user sample_world) "customers" (Some "edit") = false
  ∧ _has_perm (eff_of (jwt "x" ["CSM"]) sample_world) "customers" (Some "delete") = false
  ∧ _has_perm (eff_of (jwt "x" ["CSM"]) sample_world) "customers" (Some EmptyString) = true
  ∧ _has_perm (eff_of guest_user sample_world) "dashboard" None = false.
Proof. by_eval. Qed.

(** ** C2 *)

(** The table at a user whose only role has no configuration. *)
Lemma scope_translation_table_witness :
  role_set guest_user ∩ ROLE_ADMINISH = ∅
  ∧ ∃ eff w' q,
      _get_effective_permissions guest_user sample_world = (Ok eff, w')
      ∧ _customer_scope_query guest_user sample_world = (Ok q, w')
      ∧ let sc := customers_scope eff in
        let roles := role_set guest_user in
        let uid := _user_id guest_user in
        let team := team_customers uid (managed_csm_ids (db_users sample_world) uid) in
        ("SALES" ∈ roles → sc = None ∨ sc = Some "all" → q = all_customers)
        ∧ ("SALES" ∈ roles → sc ≠ None → sc ≠ Some "all" → q = no_customers)
        ∧ ("SALES" ∉ roles → sc = Some "own" → q = own_customers uid)
        ∧ ("SALES" ∉ roles → "CSM" ∈ roles → "AM" ∉ roles → q = own_customers uid)
        ∧ ("SALES" ∉ roles → sc = Some "team" → ("CSM" ∈ roles → "AM" ∈ roles) →
           q = team)
        ∧ ("SALES" ∉ roles → "AM" ∈ roles → sc ≠ Some "own" → q = team)
        ∧ ("SALES" ∉ roles → "CSM" ∉ roles → "AM" ∉ roles → sc = Some "all" →
           q = all_customers)
        ∧ ("SALES" ∉ roles → "CSM" ∉ roles → "AM" ∉ roles →
           sc ≠ Some "own" → sc ≠ Some "team" → sc ≠ Some "all" → q = no_customers).
Proof.
  assert (role_set guest_user ∩ ROLE_ADMINISH = ∅) as Hadm by decide_closed.
  exact (conj Hadm (scope_translation_table guest_user sample_world Hadm)).
Defined.

(** C2, as stated, fails: with the CSM role configured to scope all, a
    CSM's effective customers scope is all, yet the translator returns
    the own filter, which excludes the customer of another CSM. *)
Lemma csm_scope_all_still_own :
  customers_scope
    <$> returned (_get_effective_permissions csm1_user (with_role_permissions csm_scope_all))
    = Some (Some "all")
  ∧ returned (_customer_scope_query csm1_user (with_role_permissions csm_scope_all))
      = Some (own_customers "csm1")
  ∧ matches (own_customers "csm1") c2 = false
  ∧ matches all_customers c2 = true.
Proof. by_eval. Qed.

(** On the default configuration the translation of the sample users:
    the guest gets the match-nothing filter, the CSM the own filter, the
    sales user and the admin the unrestricted one. *)
Example scope_translation_samples :
  returned (_customer_scope_query guest_user sample_world) = Some no_customers
  ∧ returned (_customer_scope_query csm1_user sample_world) = Some (own_customers "csm1")
  ∧ returned (_customer_scope_query am1_user sample_world)
      = Some (team_customers "am1" ["csm1"])
  ∧ returned (_customer_scope_query sales_user sample_world) = Some all_customers
  ∧ returned (_customer_scope_query admin_user sample_world) = Some all_customers.
Proof. by_eval. Qed.

(** ** C9 *)


(** Under that configuration the gate refuses the admin the customers
    module, whose effective scope is own, while the translator still
    hands out the unrestricted filter. *)
Example admin_restricted_config :
  returned (_require_perm admin_user "customers" None (with_role_permissions admin_restricted))
    = None
  ∧ customers_scope (eff_of admin_user (with_role_permissions admin_restricted)) = Some "own".
Proof. by_eval. Qed.

(** ** C3 *)



(** The list handler's rows for the sales user: both customers, with
    allow-listed keys only, neither [website] nor [stakeholders]. *)
Example sales_list_rows :
  (fmap (M := list)
     (λ row : doc, (row !! "company_name", row !! "website", row !! "stakeholders")))
    <$> returned (get_customers sample_fromisoformat sales_user sample_world)
  = Some [ (Some (VStr "Acme"), None, None); (Some (VStr "Bolt"), None, None) ].
Proof. by_eval. Qed.

(** ** C5 *)

(** The account manager [am1] of the sample data, under team scope. *)
Lemma team_scope_one_level_witness :
  let uid := "am1" in
  let reports :=
    take 5000 (List.filter (direct_csm_report uid) (db_users sample_world)) in
  ∃ q w', _customer_scope_query am1_user sample_world = (Ok q, w')
    ∧ ∀ c,
        (matches q c = true
           ↔ field_has c "am_owner_id" uid = true
             ∨ ∃ usr i, usr ∈ reports ∧ get_str usr "id" = Some i ∧ i ≠ EmptyString
                        ∧ field_has c "csm_owner_id" i = true)
        ∧ (field_has c "am_owner_id" uid = false →
           (∀ usr i, usr ∈ db_users sample_world → get_str usr "id" = Some i →
                     field_has c "csm_owner_id" i = true →
                     field_has usr "manager_id" uid = false) →
           matches q c = false).
Proof.
  destruct (team_scope_one_level am1_user sample_world)
    as (eff & w1 & q & w' & Heff & Hq & _ & Hteam).
  assert (eff = eff_of am1_user sample_world) as ->
    by (unfold eff_of, returned; by rewrite Heff).
  exists q, w'. split; [exact Hq|].
  apply Hteam.
  - decide_closed.
  - decide_closed.
  - decide_closed.
  - decide_closed.
  - left. by_eval.
Defined.

(** A CSM-only user and a SALES user whose effective scope is team: the
    first is given the own filter, the second the match-nothing filter. *)
Example team_scope_by_role :
  customers_scope (eff_of csm1_user (with_role_permissions team_scoped)) = Some "team"
  ∧ returned (_customer_scope_query csm1_user (with_role_permissions team_scoped))
    = Some {[ "csm_owner_id" := Field (QEq "csm1") ]}
  ∧ customers_scope (eff_of sales_user (with_role_permissions team_scoped)) = Some "team"
  ∧ returned (_customer_scope_query sales_user (with_role_permissions team_scoped))
    = Some {[ "id" := Field (QEq "__none__") ]}.
Proof. by_eval. Qed.

(** The hierarchy of the sample data is am2 > am1 > csm1.  The filter of
    [am1] matches the customer of its report [csm1]; the filter of [am2],
    the manager's manager, does not: [c1] is neither owned by [am2] nor
    by one of its direct reports. *)
Example team_scope_not_transitive :
  returned (_customer_scope_query am1_user sample_world)
    = Some (team_customers "am1" ["csm1"])
  ∧ returned (_customer_scope_query am2_user sample_world)
      = Some (team_customers "am2" ["csm2"])
  ∧ matches (team_customers "am1" ["csm1"]) (customer_doc "c1" "Acme" "csm1" "am1") = true
  ∧ matches (team_customers "am2" ["csm2"]) (customer_doc "c1" "Acme" "csm1" "am1") = false
  ∧ matches (team_customers "am2" ["csm2"]) c2 = true.
Proof. by_eval. Qed.

(** C5, as stated, fails on its "exactly": the lookup reads at most 5000
    users.  With 5001 CSMs reporting to [am1], the customer of the last
    one, who is a direct CSM report of [am1], is not matched by the team
    filter of [am1]. *)
Lemma team_lookup_is_bounded :
  direct_csm_report "am1" (user_doc (report_id last_report) "CSM" (Some "am1")) = true
  ∧ crowded_users !! (4 + last_report)%nat = Some (user_doc (report_id last_report) "CSM" (Some "am1"))
  ∧ field_has late_customer "csm_owner_id" (report_id last_report) = true
  ∧ customers_scope (eff_of am1_user crowded_world) = Some "team"
  ∧ (λ q, matches q late_customer)
      <$> returned (_customer_scope_query am1_user crowded_world)
    = Some false.
Proof. by_eval. Qed.

(** ** C7 *)

(** The CSM [csm1] fetching customers of the sample data. *)
Lemma get_customer_or_404_scoped_witness :
  (∀ c, c ∈ db_customers sample_world → field_has c "id" "__none__" = false)
  ∧ ∃ q w',
      _customer_scope_query csm1_user sample_world = (Ok q, w')
      ∧ (∀ c, c ∈ db_customers sample_world →
           matches (q ∪ {[ "id" := Field (QEq "c2") ]}) c
             = field_has c "id" "c2" && matches q c)
      ∧ ((∀ c, c ∈ db_customers sample_world → field_has c "id" "c2" = false) →
         _get_customer_or_404 "c2" csm1_user sample_world = (NotFound, w'))
      ∧ ((∀ c, c ∈ db_customers sample_world → field_has c "id" "c2" = true →
               matches q c = false) →
         _get_customer_or_404 "c2" csm1_user sample_world = (NotFound, w'))
      ∧ (∀ c, c ∈ db_customers sample_world → field_has c "id" "c2" = true →
              matches q c = true →
         ∃ c', c' ∈ db_customers sample_world ∧ field_has c' "id" "c2" = true
               ∧ matches q c' = true
               ∧ _get_customer_or_404 "c2" csm1_user sample_world = (Ok c', w')).
Proof.
  assert (∀ c, c ∈ db_customers sample_world → field_has c "id" "__none__" = false) as H.
  { apply Forall_forall. decide_closed. }
  exact (conj H (get_customer_or_404_scoped "c2" csm1_user sample_world H)).
Defined.

(** For [csm1] the customer [c2] of another CSM and the id [c404] that
    no customer carries are answered alike; its own customer [c1] is
    returned, and an admin is given [c2]. *)
Example not_found_is_indistinguishable :
  (_get_customer_or_404 "c2" csm1_user sample_world).1 = NotFound
  ∧ (_get_customer_or_404 "c404" csm1_user sample_world).1 = NotFound
  ∧ returned (_get_customer_or_404 "c1" csm1_user sample_world)
      = Some (customer_doc "c1" "Acme" "csm1" "am1")
  ∧ returned (_get_customer_or_404 "c2" admin_user sample_world) = Some c2.
Proof. by_eval. Qed.

(** ** C10 *)

(** The CSM [csm1], whose scope is own, updating the customer [c2] of
    [csm2]. *)
Lemma update_customer_by_id_alone_witness :
  _require_perm csm1_user "customers" (Some "edit") sample_world
    = (Ok (gate_eff csm1_user (Some "edit") sample_world),
       (_require_perm csm1_user "customers" (Some "edit") sample_world).2)
  ∧ find_one (db_customers sample_world) {[ "id" := Field (QEq "c2") ]} = Some c2
  ∧ ∃ r w',
      update_customer sample_fromisoformat sample_isoformat sample_uuid4
        sample_health_score "c2" rename_c2 csm1_user sample_world = (r, w')
      ∧ (∀ status detail, r ≠ HTTPException status detail)
      ∧ (∀ upd w2,
           build_update sample_isoformat sample_health_score c2 rename_c2 csm1_user
             (_require_perm csm1_user "customers" (Some "edit") sample_world).2
             = (Ok upd, w2) →
           ∃ pre post,
             db_customers sample_world = (pre ++ c2 :: post)%list
             ∧ (∀ d, d ∈ pre → field_has d "id" "c2" = false)
             ∧ ((∀ k other, k = "id" ∨ k = "company_name" →
                   other ∈ (pre ++ post)%list →
                   default VNone ((upd ∪ c2) !! k) ≠ default VNone (c2 !! k) →
                   default VNone (other !! k) ≠ default VNone ((upd ∪ c2) !! k)) →
                db_customers w' = (pre ++ (upd ∪ c2) :: post)%list)
             ∧ (∀ k other, k = "id" ∨ k = "company_name" →
                   other ∈ (pre ++ post)%list →
                   default VNone ((upd ∪ c2) !! k) ≠ default VNone (c2 !! k) →
                   default VNone (other !! k) = default VNone ((upd ∪ c2) !! k) →
                   r = Exception "DuplicateKeyError"
                   ∧ db_customers w' = db_customers sample_world)
             ∧ (∀ eff2 w1',
                  _get_effective_permissions csm1_user
                    (_require_perm csm1_user "customers" (Some "edit") sample_world).2
                    = (Ok eff2, w1') →
                  mp_scope (default empty_perm (modules eff2 !! "customers")) = Some "own" →
                  (upd ∪ c2) !! "csm_owner_id"
                  = Some (VStr (default EmptyString (cu_user_id csm1_user)))))
      ∧ ((∀ usr, usr ∈ db_users sample_world → is_Some (usr !! "name")) →
         number_or_none rename_c2 "health_score" = true →
         number_or_none c2 "health_score" = true →
         ∃ upd w2,
           build_update sample_isoformat sample_health_score c2 rename_c2 csm1_user
             (_require_perm csm1_user "customers" (Some "edit") sample_world).2
             = (Ok upd, w2)).
Proof.
  assert (is_Ok (_require_perm csm1_user "customers" (Some "edit") sample_world) = true)
    as Hok by by_eval.
  pose proof (run_returned _ (Effective ∅) Hok) as Hperm.
  assert (find_one (db_customers sample_world) {[ "id" := Field (QEq "c2") ]} = Some c2)
    as Hfind by by_eval.
  split; [exact Hperm|]. split; [exact Hfind|].
  exact (update_customer_by_id_alone sample_fromisoformat sample_isoformat sample_uuid4
           sample_health_score "c2" rename_c2 csm1_user sample_world _ _ c2 Hperm Hfind).
Defined.

(** The run itself: [c2] is outside the own filter of [csm1], the
    handler answers with the updated customer, and the stored [c2] is
    then owned by [csm1], with the manager of [csm1] kept as sent. *)
Example update_reassigns_foreign_customer :
  matches (own_customers "csm1") c2 = false
  ∧ customers_scope (eff_of csm1_user sample_world) = Some "own"
  ∧ (let run := update_customer sample_fromisoformat sample_isoformat sample_uuid4
                  sample_health_score "c2" rename_c2 csm1_user sample_world in
     (is_Ok run,
      (λ d : doc, ((d !! "csm_owner_id", d !! "csm_owner_name"), d !! "company_name"))
        <$> find_one (db_customers run.2) {[ "id" := Field (QEq "c2") ]}))
    = (true,
       Some ((Some (VStr "csm1"), Some (VStr "User csm1")), Some (VStr "Bolt Industries"))).
Proof. by_eval. Qed.

(** C10, as stated, fails when the store refuses the write.  The CSM
    [csm1], granted the edit action and of scope own, renames the
    existing customer [c2] to the company name of [c1]: the unique index
    on the company name is violated, the handler fails with the error of
    the driver, nothing is written, and the stored [csm_owner_id] of [c2]
    is still [csm2], not the caller. *)
Lemma update_refused_on_taken_name :
  is_Ok (_require_perm csm1_user "customers" (Some "edit") sample_world) = true
  ∧ customers_scope (eff_of csm1_user sample_world) = Some "own"
  ∧ find_one (db_customers sample_world) {[ "id" := Field (QEq "c2") ]} = Some c2
  ∧ (let run := update_customer sample_fromisoformat sample_isoformat sample_uuid4
                  sample_health_score "c2" rename_c2_acme csm1_user sample_world in
     (run.1, db_customers run.2,
      (λ d : doc, d !! "csm_owner_id")
        <$> find_one (db_customers run.2) {[ "id" := Field (QEq "c2") ]}))
    = (Exception "DuplicateKeyError", db_customers sample_world,
       Some (Some (VStr "csm2"))).
Proof. by_eval. Qed.

(** ** C8 *)

(** C8. The cache is not invalidated by an admin write.  In the cache
    scenario the write of the administrator is acknowledged and stored,
    and the stored configuration disables the customers module for CSM;
    the cache still holds the copy loaded at time 1000, and the CSM's
    next request, at time 1020, within the time-to-live, is let through
    the gate of the customers module on that copy.  Only after a forced
    refresh, which [update_settings] does not perform, is it refused. *)
Theorem stale_permissions_after_update :
  is_Ok (update_settings revoke_csm admin_user warm_world) = true
  ∧ stored_enabled warm_world "CSM" "customers" = Some true
  ∧ stored_enabled written_world "CSM" "customers" = Some false
  ∧ SETTINGS_CACHE written_world = SETTINGS_CACHE warm_world
  ∧ SETTINGS_CACHE_TIMESTAMP written_world = 1000
  ∧ clock written_world (ticks written_world) = 1020
  ∧ is_Ok (_require_perm csm1_user "customers" None written_world) = true
  ∧ (_require_perm csm1_user "customers" None
       (_ensure_settings true written_world).2).1 = Forbidden.
Proof. by_eval. Qed.

(** * Further properties of the permission engine *)

(** ** Merger *)

Lemma merge_scope_rank a b :
  _scope_rank (mp_scope (_merge_module_perms a b))
  = Z.max (_scope_rank (mp_scope a)) (_scope_rank (mp_scope b)).
Proof.
  simpl. destruct (Z.leb_spec (_scope_rank (mp_scope b)) (_scope_rank (mp_scope a))); lia.
Qed.

Lemma merge_actions_self (m : gmap string bool) : merge_actions m m = m.
Proof.
  apply map_eq. intros k. rewrite merge_actions_lookup.
  destruct (m !! k) as [v|]; simpl; [|done]. by rewrite orb_diag.
Qed.

(** X1. Merging a module permission with itself changes none of the
    fields the engine reads: the enabled flag, the scope, every action
    and every extra policy key stay as they were, so a role listed twice
    weighs as much as once. *)
Theorem merge_module_perms_idempotent (a : module_perm) :
  enabled_of (_merge_module_perms a a) = enabled_of a
  ∧ mp_scope (_merge_module_perms a a) = mp_scope a
  ∧ (∀ k, action_of (_merge_module_perms a a) k = action_of a k)
  ∧ mp_extra (_merge_module_perms a a) = mp_extra a.
Proof.
  split; [by rewrite merge_enabled, orb_diag|].
  split; [simpl; by rewrite Z.leb_refl|].
  split; [intros k; by rewrite merge_action, orb_diag|].
  simpl. apply map_eq. intros k. rewrite lookup_union.
  by destruct (mp_extra a !! k).
Qed.

(** X2. The decisions taken on a merge of two module permissions do not
    depend on the order of the two: the enabled flag, every action and
    the rank of the scope are the same for [a] merged with [b] and for
    [b] merged with [a]. *)
Theorem merge_module_perms_order (a b : module_perm) :
  enabled_of (_merge_module_perms a b) = enabled_of (_merge_module_perms b a)
  ∧ (∀ k, action_of (_merge_module_perms a b) k = action_of (_merge_module_perms b a) k)
  ∧ _scope_rank (mp_scope (_merge_module_perms a b))
    = _scope_rank (mp_scope (_merge_module_perms b a)).
Proof.
  split; [by rewrite !merge_enabled, orb_comm|].
  split; [intros k; by rewrite !merge_action, orb_comm|].
  rewrite !merge_scope_rank. lia.
Qed.

(** ** Resolver over several roles *)

Lemma merge_role_lookup (eff rp : gmap string module_perm) k :
  merge_role eff rp !! k
  = match rp !! k with
    | Some mp => Some (_merge_module_perms (default empty_perm (eff !! k)) mp)
    | None => eff !! k
    end.
Proof.
  unfold merge_role. revert k.
  apply (map_fold_weak_ind (λ r m, ∀ k,
    r !! k = match m !! k with
             | Some mp => Some (_merge_module_perms (default empty_perm (eff !! k)) mp)
             | None => eff !! k
             end)).
  - intros k. by rewrite lookup_empty.
  - intros i x m r Hi IH k. destruct (decide (i = k)) as [->|Hne].
    + rewrite !lookup_insert_eq. by rewrite IH, Hi.
    + rewrite !lookup_insert_ne by done. apply IH.
Qed.

(** The module [k] of the permission set after one more role. *)
Lemma merge_role_perm (rp : role_perms) eff r k :
  let cur := default empty_perm (eff !! k) in
  let next := default empty_perm (merge_role eff (default ∅ (rp !! r)) !! k) in
  enabled_of next = enabled_of cur || enabled_of (configured_perm rp r k)
  ∧ (∀ a, action_of next a = action_of cur a || action_of (configured_perm rp r k) a)
  ∧ _scope_rank (mp_scope next)
    = Z.max (_scope_rank (mp_scope cur)) (_scope_rank (mp_scope (configured_perm rp r k)))
  ∧ (∀ key, mp_extra next !! key
            = match mp_extra (configured_perm rp r k) !! key with
              | Some v => Some v
              | None => mp_extra cur !! key
              end).
Proof.
  intros cur next. unfold next, configured_perm. rewrite merge_role_lookup.
  destruct (default ∅ (rp !! r) !! k) as [mp|] eqn:Hk; simpl.
  - fold cur. split; [apply merge_enabled|]. split; [apply merge_action|].
    split; [apply (merge_scope_rank cur mp)|].
    intros key. rewrite lookup_union. by destruct (mp_extra mp !! key), (mp_extra cur !! key).
  - fold cur. split; [by rewrite orb_false_r|].
    split; [intros a; unfold action_of at 3; simpl; by rewrite lookup_empty, orb_false_r|].
    split; [pose proof (scope_rank_range (mp_scope cur)); simpl; lia|].
    intros key. by rewrite lookup_empty.
Qed.

Lemma resolve_fold (rp : role_perms) (roles : list string) eff k :
  let cur := default empty_perm (eff !! k) in
  let out := default empty_perm
    (foldl (λ eff r, merge_role eff (default ∅ (rp !! r))) eff roles !! k) in
  enabled_of out
  = enabled_of cur || existsb (λ r, enabled_of (configured_perm rp r k)) roles
  ∧ (∀ a, action_of out a
          = action_of cur a || existsb (λ r, action_of (configured_perm rp r k) a) roles)
  ∧ _scope_rank (mp_scope out)
    = foldl (λ acc r, Z.max acc (_scope_rank (mp_scope (configured_perm rp r k))))
        (_scope_rank (mp_scope cur)) roles
  ∧ (∀ key, mp_extra out !! key
            = foldl (λ acc r,
                match mp_extra (configured_perm rp r k) !! key with
                | Some v => Some v
                | None => acc
                end) (mp_extra cur !! key) roles).
Proof.
  revert eff. induction roles as [|r roles IH]; intros eff; simpl.
  - split; [by rewrite orb_false_r|]. split; [|done]. intros a. by rewrite orb_false_r.
  - destruct (IH (merge_role eff (default ∅ (rp !! r)))) as (He & Ha & Hs & Hx).
    destruct (merge_role_perm rp eff r k) as (He1 & Ha1 & Hs1 & Hx1).
    simpl in He1, Ha1, Hs1, Hx1.
    split; [by rewrite He, He1, orb_assoc|].
    split; [intros a; by rewrite Ha, Ha1, orb_assoc|].
    split; [by rewrite Hs, Hs1|].
    intros key. rewrite Hx. f_equal. apply Hx1.
Qed.

Lemma get_effective_run u w s w' :
  _ensure_settings false w = (Ok s, w') →
  _get_effective_permissions u w
  = (Ok (Effective
       (foldl (λ eff r, merge_role eff (default ∅ (default ∅ (sd_role_permissions s) !! r)))
          ∅ (resolved_roles u))), w').
Proof.
  intros Hs. unfold _get_effective_permissions. by rewrite (bind_ok _ _ _ _ _ Hs).
Qed.

(** X3. Permissions of a user with several roles.  The gate lets a user
    into a module exactly when one of the roles enables the module, and
    lets an action through exactly when, in addition, one of the roles
    grants the action: the role that grants the action need not be the
    one that enables the module. *)
Theorem has_perm_any_role (u : current_user) (w : world) :
  ∃ s w' eff,
    _ensure_settings false w = (Ok s, w')
    ∧ _get_effective_permissions u w = (Ok eff, w')
    ∧ let rp := default ∅ (sd_role_permissions s) in
      ∀ k,
        _has_perm eff k None
        = existsb (λ r, enabled_of (configured_perm rp r k)) (resolved_roles u)
        ∧ ∀ a, nonempty a = true →
            _has_perm eff k (Some a)
            = existsb (λ r, enabled_of (configured_perm rp r k)) (resolved_roles u)
              && existsb (λ r, action_of (configured_perm rp r k) a) (resolved_roles u).
Proof.
  destruct (ensure_settings_ok false w) as (s & w' & Hs & _ & _).
  eexists s, w', _. split; [done|]. split; [by apply get_effective_run|].
  intros rp k.
  destruct (resolve_fold rp (resolved_roles u) ∅ k) as (He & Ha & _ & _).
  simpl in He, Ha. rewrite lookup_empty in He, Ha. simpl in He, Ha.
  unfold _has_perm. simpl. fold rp. rewrite He. split.
  - by destruct (existsb _ _).
  - intros a Hne. rewrite Hne. rewrite Ha.
    unfold action_of at 1; simpl. rewrite lookup_empty. simpl.
    by destruct (existsb _ _).
Qed.

Lemma foldr_max_nonneg (l : list Z) : 0 ≤ foldr Z.max 0 l.
Proof. induction l as [|x l IH]; cbn [foldr]; lia. Qed.

Lemma foldl_max_foldr {A} (f : A → Z) (l : list A) (z : Z) :
  0 ≤ z →
  foldl (λ acc r, Z.max acc (f r)) z l = Z.max z (foldr Z.max 0 (f <$> l)).
Proof.
  revert z. induction l as [|x l IH]; intros z Hz.
  - cbn [foldl fmap list_fmap foldr]. lia.
  - cbn [foldl]. rewrite IH by lia. rewrite fmap_cons. cbn [foldr]. lia.
Qed.

(** X4. Scope of a user with several roles: the rank of the effective
    scope of a module is the highest rank among the scopes the roles
    configure for it, none(0) when no role configures one. *)
Theorem effective_scope_widest_role (u : current_user) (w : world) :
  ∃ s w' eff,
    _ensure_settings false w = (Ok s, w')
    ∧ _get_effective_permissions u w = (Ok eff, w')
    ∧ let rp := default ∅ (sd_role_permissions s) in
      ∀ k,
        _scope_rank (mp_scope (default empty_perm (modules eff !! k)))
        = foldr Z.max 0
            ((λ r, _scope_rank (mp_scope (configured_perm rp r k))) <$> resolved_roles u).
Proof.
  destruct (ensure_settings_ok false w) as (s & w' & Hs & _ & _).
  eexists s, w', _. split; [done|]. split; [by apply get_effective_run|].
  intros rp k.
  destruct (resolve_fold rp (resolved_roles u) ∅ k) as (_ & _ & Hr & _).
  simpl in Hr. rewrite lookup_empty in Hr. simpl in Hr. simpl. fold rp. rewrite Hr.
  rewrite foldl_max_foldr by done.
  pose proof (foldr_max_nonneg
    ((λ r, _scope_rank (mp_scope (configured_perm rp r k))) <$> resolved_roles u)).
  lia.
Qed.

(** X5. Roles that the configuration does not know grant nothing: when
    none of the user's roles has an entry in [role_permissions], the
    effective permission set is empty and the gate refuses every module
    and action with 403. *)
Theorem unknown_roles_denied (u : current_user) (w : world) (s : settings_doc) (w' : world) :
  _ensure_settings false w = (Ok s, w') →
  (∀ r, r ∈ resolved_roles u → default ∅ (sd_role_permissions s) !! r = None) →
  _get_effective_permissions u w = (Ok (Effective ∅), w')
  ∧ ∀ k a, _require_perm u k a w = (Forbidden, w').
Proof.
  intros Hs Hnone.
  assert (_get_effective_permissions u w = (Ok (Effective ∅), w')) as Heff.
  { rewrite (get_effective_run u w s w' Hs). do 2 f_equal. f_equal.
    induction (resolved_roles u) as [|r rs IH]; simpl; [done|].
    rewrite (Hnone r) by left. simpl.
    unfold merge_role at 2. rewrite map_fold_empty.
    apply IH. intros r' Hr'. apply Hnone. by right. }
  split; [done|]. intros k a. unfold _require_perm.
  rewrite (bind_ok _ _ _ _ _ Heff). unfold _has_perm. simpl.
  by rewrite lookup_empty.
Qed.

(** X6. An extra policy key of a module, such as [field_policy], is
    inherited from the last of the user's roles that carries it; roles
    without the key leave it in place.  A user who holds a role with
    [field_policy = "sales_limited"] on customers, and no role with
    another field policy, is therefore sales-limited whatever other
    roles are held. *)
Theorem field_policy_inherited (u : current_user) (w : world) :
  ∃ s w' eff,
    _ensure_settings false w = (Ok s, w')
    ∧ _get_effective_permissions u w = (Ok eff, w')
    ∧ let rp := default ∅ (sd_role_permissions s) in
      (∀ k key,
         mp_extra (default empty_perm (modules eff !! k)) !! key
         = last_policy rp k key (resolved_roles u))
      ∧ ((∃ r, r ∈ resolved_roles u
               ∧ mp_extra (configured_perm rp r "customers") !! "field_policy"
                 = Some (VStr "sales_limited")) →
         (∀ r v, r ∈ resolved_roles u →
                 mp_extra (configured_perm rp r "customers") !! "field_policy" = Some v →
                 v = VStr "sales_limited") →
         sales_limited eff = true).
Proof.
  destruct (ensure_settings_ok false w) as (s & w' & Hs & _ & _).
  eexists s, w', _. split; [done|]. split; [by apply get_effective_run|].
  intros rp.
  assert (∀ k key,
    mp_extra (default empty_perm
      (foldl (λ eff r, merge_role eff (default ∅ (rp !! r))) ∅ (resolved_roles u) !! k)) !! key
    = last_policy rp k key (resolved_roles u)) as Hlast.
  { intros k key.
    destruct (resolve_fold rp (resolved_roles u) ∅ k) as (_ & _ & _ & Hx).
    simpl in Hx. rewrite Hx. by rewrite !lookup_empty. }
  split; [exact Hlast|].
  intros (r & Hr & Hpol) Hall. unfold sales_limited. simpl. fold rp.
  rewrite Hlast. unfold last_policy.
  assert (∀ acc, (acc = None ∨ acc = Some (VStr "sales_limited")) →
    ∀ rs, (∀ r v, r ∈ rs →
             mp_extra (configured_perm rp r "customers") !! "field_policy" = Some v →
             v = VStr "sales_limited") →
    let out := foldl (λ acc r,
      match mp_extra (configured_perm rp r "customers") !! "field_policy" with
      | Some v => Some v
      | None => acc
      end) acc rs in
    (out = None ∨ out = Some (VStr "sales_limited"))
    ∧ ((acc = Some (VStr "sales_limited")
        ∨ ∃ r, r ∈ rs ∧ mp_extra (configured_perm rp r "customers") !! "field_policy"
                        = Some (VStr "sales_limited")) →
       out = Some (VStr "sales_limited"))) as Hfold.
  { intros acc Hacc rs. revert acc Hacc.
    induction rs as [|r0 rs IH]; intros acc Hacc Hrs; simpl.
    - split; [done|]. intros [H|(r0 & Hin & _)]; [done|]. by apply elem_of_nil in Hin.
    - destruct (mp_extra (configured_perm rp r0 "customers") !! "field_policy") as [v|] eqn:Hv.
      + assert (v = VStr "sales_limited") as -> by (apply (Hrs r0); [left|done]).
        destruct (IH (Some (VStr "sales_limited"))) as (H1 & H2);
          [by right|intros; eapply Hrs; [by right|done]|].
        split; [done|]. intros _. apply H2. by left.
      + destruct (IH acc Hacc) as (H1 & H2); [intros; eapply Hrs; [by right|done]|].
        split; [done|]. intros [H|(r1 & Hin & Hr1)]; apply H2; [by left|].
        right. exists r1. split; [|done].
        apply elem_of_cons in Hin as [->|Hin]; [congruence|done]. }
  destruct (Hfold None (or_introl eq_refl) (resolved_roles u) Hall) as (_ & Hout).
  simpl in Hout. rewrite Hout; [done|]. right. by exists r.
Qed.

(** ** Settings: cache, reload and backfill *)

(** X7. Within the time-to-live a read of the settings is served from
    the cache and only reads the clock: whatever the database holds, the
    cached copy is returned and neither the database nor the cache is
    touched. *)
Theorem ensure_settings_serves_cache (w : world) (c : settings_doc) :
  SETTINGS_CACHE w = Some c →
  clock w (ticks w) - SETTINGS_CACHE_TIMESTAMP w < CACHE_TTL →
  _ensure_settings false w = (Ok c, tick w).
Proof.
  intros Hc Httl. unfold _ensure_settings, mbind, M_bind, datetime_now, get_world, tick.
  simpl. rewrite Hc. apply Z.ltb_lt in Httl. by rewrite Httl.
Qed.

Lemma ensure_settings_miss (force_refresh : bool) (w : world) (d : settings_doc) :
  db_settings w = Some d →
  force_refresh = true ∨ SETTINGS_CACHE w = None
    ∨ CACHE_TTL ≤ clock w (ticks w) - SETTINGS_CACHE_TIMESTAMP w →
  ∃ w', _ensure_settings force_refresh w = (Ok (backfilled d), w')
    ∧ db_settings w' = Some (backfilled d)
    ∧ SETTINGS_CACHE w' = Some (backfilled d)
    ∧ SETTINGS_CACHE_TIMESTAMP w' = clock w (ticks w)
    ∧ db_users w' = db_users w ∧ db_customers w' = db_customers w.
Proof.
  intros Hd Hmiss.
  unfold _ensure_settings, mbind, M_bind, mret, M_ret, datetime_now, get_world,
    set_db_settings, set_cache, backfilled; simpl.
  assert ((if force_refresh then None
           else match SETTINGS_CACHE w with
                | Some c =>
                    if clock w (ticks w) - SETTINGS_CACHE_TIMESTAMP w <? CACHE_TTL
                    then Some c else None
                | None => None
                end) = None) as ->.
  { destruct Hmiss as [->|[->|Httl]]; [done|by destruct force_refresh|].
    destruct force_refresh; [done|]. destruct (SETTINGS_CACHE w); [|done].
    apply Z.ltb_ge in Httl. by rewrite Httl. }
  rewrite Hd. destruct (missing_updates d); simpl; eauto 8.
Qed.

(** X8. A read that is not served from the cache (forced, cache empty,
    or cached copy at least [CACHE_TTL] seconds old) returns the stored
    settings document with the missing defaults backfilled, writes the
    backfilled document back, and caches it with the time of the call;
    users and customers are left alone. *)
Theorem ensure_settings_reloads (force_refresh : bool) (w : world) (d : settings_doc) :
  db_settings w = Some d →
  force_refresh = true ∨ SETTINGS_CACHE w = None
    ∨ CACHE_TTL ≤ clock w (ticks w) - SETTINGS_CACHE_TIMESTAMP w →
  ∃ w', _ensure_settings force_refresh w = (Ok (backfilled d), w')
    ∧ db_settings w' = Some (backfilled d)
    ∧ SETTINGS_CACHE w' = Some (backfilled d)
    ∧ SETTINGS_CACHE_TIMESTAMP w' = clock w (ticks w)
    ∧ db_users w' = db_users w ∧ db_customers w' = db_customers w.
Proof. apply ensure_settings_miss. Qed.

Lemma missing_updates_None (d : settings_doc) :
  missing_updates d = None
  ↔ (∃ rp, sd_role_permissions d = Some rp ∧ size rp ≠ 0%nat)
    ∧ "SALES" ∈ role_names d ∧ "READ_ONLY" ∈ role_names d.
Proof.
  unfold missing_updates, role_names, backfill_roles. simpl.
  set (have := rd_role <$> default [] (sd_roles d)).
  split.
  - intros H.
    destruct (sd_role_permissions d) as [rp|]; [|by repeat case_match].
    destruct (Nat.eqb_spec (size rp) 0); [by repeat case_match|].
    split; [by eauto|].
    destruct (bool_decide_reflect ("SALES" ∉ have)) as [Hs|Hs],
      (bool_decide_reflect ("READ_ONLY" ∉ have)) as [Hr|Hr]; try done.
    split; by apply dec_stable.
  - intros ((rp & -> & Hsz) & Hs & Hr).
    destruct (Nat.eqb_spec (size rp) 0); [done|].
    destruct (bool_decide_reflect ("SALES" ∉ have)),
      (bool_decide_reflect ("READ_ONLY" ∉ have)); done.
Qed.

Lemma backfilled_complete (d : settings_doc) : missing_updates (backfilled d) = None.
Proof.
  destruct (missing_updates d) as [upd|] eqn:Hupd; unfold backfilled; rewrite Hupd; [|done].
  apply missing_updates_None.
  unfold missing_updates, backfill_roles in Hupd. simpl in Hupd.
  set (have := rd_role <$> default [] (sd_roles d)) in *.
  assert (∃ rp rs, upd = SettingsDoc rp rs ∅
    ∧ rp = match sd_role_permissions d with
           | None => Some _default_role_permissions
           | Some m => if Nat.eqb (size m) 0 then Some _default_role_permissions else None
           end
    ∧ rs = match
             (if bool_decide ("SALES" ∉ have)
              then {| rd_role := "SALES"; rd_name := "Sales (View Only)";
                      rd_desc := "View customers and opportunities (read-only)" |}
                   :: (if bool_decide ("READ_ONLY" ∉ have)
                       then [ {| rd_role := "READ_ONLY"; rd_name := "Read Only";
                                 rd_desc := "Read-only access within assigned scope" |} ]
                       else [])
              else if bool_decide ("READ_ONLY" ∉ have)
                   then [ {| rd_role := "READ_ONLY"; rd_name := "Read Only";
                             rd_desc := "Read-only access within assigned scope" |} ]
                   else [])
           with
           | [] => None
           | to_add => Some (default [] (sd_roles d) ++ to_add)%list
           end) as (rp & rs & -> & Hrp & Hrs).
  { repeat case_match; simplify_eq; eauto. }
  unfold role_names, overlay. simpl. split.
  - subst rp. destruct (sd_role_permissions d) as [m|].
    + destruct (Nat.eqb_spec (size m) 0); [|by eauto].
      eexists; split; [done|]. by vm_compute.
    + eexists; split; [done|]. by vm_compute.
  - subst rs.
    destruct (bool_decide_reflect ("SALES" ∉ have)) as [Hs|Hs],
      (bool_decide_reflect ("READ_ONLY" ∉ have)) as [Hr|Hr]; simpl;
      try apply dec_stable in Hs; try apply dec_stable in Hr;
      rewrite ?fmap_app; fold have; simpl;
      (split; [first [done | apply elem_of_app; first [by left | right; by repeat constructor]]
              |first [done | apply elem_of_app; first [by left | right; by repeat constructor]]]).
Qed.

Lemma ensure_settings_forced (w : world) :
  ∃ s w', _ensure_settings true w = (Ok s, w')
    ∧ db_settings w' = Some s
    ∧ SETTINGS_CACHE w' = Some s
    ∧ (∃ rp, sd_role_permissions s = Some rp ∧ size rp ≠ 0%nat)
    ∧ "SALES" ∈ role_names s ∧ "READ_ONLY" ∈ role_names s.
Proof.
  destruct (db_settings w) as [d|] eqn:Hd.
  - destruct (ensure_settings_miss true w d Hd (or_introl eq_refl))
      as (w' & Hrun & Hdb & Hc & _).
    exists (backfilled d), w'. split; [done|]. split; [done|]. split; [done|].
    apply missing_updates_None, backfilled_complete.
  - exists default_settings. eexists. split.
    { unfold _ensure_settings, mbind, M_bind, mret, M_ret, datetime_now, get_world,
        set_db_settings, set_cache; simpl. rewrite Hd. reflexivity. }
    split; [done|]. split; [done|].
    apply (proj1 (missing_updates_None default_settings)). by vm_compute.
Qed.

(** X9. A forced read of the settings always returns, and what it
    returns is what the database then holds: a document with a
    non-empty role configuration whose role list has the SALES and
    READ_ONLY roles, whether the document was stored complete, stored
    incomplete, or not stored at all. *)
Theorem ensure_settings_backfills (w : world) :
  ∃ s w', _ensure_settings true w = (Ok s, w')
    ∧ db_settings w' = Some s
    ∧ SETTINGS_CACHE w' = Some s
    ∧ (∃ rp, sd_role_permissions s = Some rp ∧ size rp ≠ 0%nat)
    ∧ "SALES" ∈ role_names s ∧ "READ_ONLY" ∈ role_names s.
Proof. apply ensure_settings_forced. Qed.

(** X10. The backfill is idempotent: a forced read that follows a
    forced read returns the same document and leaves the database as the
    first one left it. *)
Theorem ensure_settings_refresh_idempotent (w : world) (s : settings_doc) (w1 : world) :
  _ensure_settings true w = (Ok s, w1) →
  ∃ w2, _ensure_settings true w1 = (Ok s, w2)
        ∧ db_settings w2 = db_settings w1
        ∧ db_settings w1 = Some s.
Proof.
  intros Hrun.
  destruct (ensure_settings_forced w) as (s' & w1' & Hrun' & Hdb & _ & Hrp & Hs & Hr).
  rewrite Hrun in Hrun'. simplify_eq.
  destruct (ensure_settings_miss true w1' s' Hdb (or_introl eq_refl))
    as (w2 & Hrun2 & Hdb2 & _).
  assert (backfilled s' = s') as Hsame.
  { unfold backfilled. by rewrite (proj2 (missing_updates_None s')). }
  rewrite Hsame in Hrun2, Hdb2. exists w2. by rewrite Hdb.
Qed.

(** X11. The settings endpoints are reserved to the roles ADMIN and
    CS_OPS by role name: for a user who holds neither, reading the
    settings, updating them, adding a tag and removing a tag are all
    refused with 403 before anything is read or written, whatever the
    role configuration grants on the settings module. *)
Theorem settings_endpoints_admin_only (strip : string → string) (u : current_user)
    (w : world) (payload : SettingsUpdate) (tag : gmap string string) (tag_value : string) :
  role_set u ∩ ROLE_SETTINGS_ADMIN = ∅ →
  get_settings u w = (Forbidden, w)
  ∧ update_settings payload u w = (Forbidden, w)
  ∧ add_tag strip tag u w = (Forbidden, w)
  ∧ remove_tag tag_value u w = (Forbidden, w).
Proof.
  intros Hroles.
  unfold get_settings, update_settings, add_tag, remove_tag, _require_roles.
  rewrite !decide_True by done. done.
Qed.

(** X12. A settings update followed by a forced read: the role
    configuration read back is the one of the payload, except that an
    empty configuration does not survive the reload, which puts the
    default role permissions in its place. *)
Theorem update_settings_then_reload (payload : SettingsUpdate) (u : current_user)
    (w : world) (rp : role_perms) :
  role_set u ∩ ROLE_SETTINGS_ADMIN ≠ ∅ →
  su_role_permissions payload = Some rp →
  ∃ stored w1 s w2,
    update_settings payload u w = (Ok stored, w1)
    ∧ sd_role_permissions stored = Some rp
    ∧ _ensure_settings true w1 = (Ok s, w2)
    ∧ sd_role_permissions s
      = Some (if Nat.eqb (size rp) 0 then _default_role_permissions else rp).
Proof.
  intros Hadmin Hrp.
  destruct (ensure_settings_ok false w) as (s0 & w0 & Hs0 & _ & _).
  assert (∃ stored, update_settings payload u w
            = (Ok stored, (set_db_settings (Some stored) w0).2)
          ∧ sd_role_permissions stored = Some rp) as (stored & Hrun & Hstored).
  { unfold update_settings, _require_roles. rewrite decide_False by done.
    unfold mbind at 1, M_bind at 1, mret, M_ret.
    rewrite (bind_ok _ _ _ _ _ Hs0).
    unfold mbind, M_bind, get_world, set_db_settings, mret, M_ret. simpl.
    eexists. split; [reflexivity|].
    by destruct (db_settings w0); simpl; rewrite Hrp. }
  set (w1 := (set_db_settings (Some stored) w0).2) in *.
  destruct (ensure_settings_miss true w1 stored eq_refl (or_introl eq_refl))
    as (w2 & Hrun2 & _).
  exists stored, w1, (backfilled stored), w2.
  split; [done|]. split; [done|]. split; [done|].
  unfold backfilled.
  destruct (missing_updates stored) as [upd|] eqn:Hupd.
  - unfold missing_updates in Hupd. rewrite Hstored in Hupd.
    unfold overlay. simpl.
    destruct (Nat.eqb (size rp) 0); repeat case_match; simplify_eq; simpl; by rewrite ?Hstored.
  - apply missing_updates_None in Hupd as ((rp' & Hrp' & Hsz) & _).
    rewrite Hstored in Hrp'. simplify_eq. rewrite Hstored.
    by destruct (Nat.eqb_spec (size rp') 0).
Qed.

(** X23. A settings update is not seen by reads served from the
    cache.  With a cached copy younger than [CACHE_TTL], an update by a
    settings administrator is stored in the database, role permissions
    of the payload included, and leaves the cache and its time stamp as
    they were: a read that follows within the time-to-live still returns
    the copy from before the update. *)
Theorem settings_write_hidden_by_cache (payload : SettingsUpdate) (u : current_user)
    (w : world) (c : settings_doc) :
  role_set u ∩ ROLE_SETTINGS_ADMIN ≠ ∅ →
  SETTINGS_CACHE w = Some c →
  clock w (ticks w) - SETTINGS_CACHE_TIMESTAMP w < CACHE_TTL →
  ∃ stored w',
    update_settings payload u w = (Ok stored, w')
    ∧ db_settings w' = Some stored
    ∧ (∀ rp, su_role_permissions payload = Some rp →
             sd_role_permissions stored = Some rp)
    ∧ SETTINGS_CACHE w' = Some c
    ∧ SETTINGS_CACHE_TIMESTAMP w' = SETTINGS_CACHE_TIMESTAMP w
    ∧ (clock w' (ticks w') - SETTINGS_CACHE_TIMESTAMP w' < CACHE_TTL →
       ∃ w'', _ensure_settings false w' = (Ok c, w'')
              ∧ db_settings w'' = Some stored).
Proof.
  intros Hadmin Hc Httl.
  destruct (update_settings_keeps_cache payload u w c Hadmin Hc Httl)
    as (stored & w' & Hrun & Hdb & Hrp & Hc' & Hts).
  exists stored, w'. do 5 (split; [done|]).
  intros Httl'.
  destruct (ensure_settings_cache_hit w' c Hc' Httl') as (w'' & Hread & Hdb' & _).
  exists w''. split; [done|]. by rewrite Hdb'.
Qed.

(** ** Customers: delete, health and account status *)

Lemma matches_by_id cid (d : doc) : matches (by_id cid) d = field_has d "id" cid.
Proof. unfold by_id. by rewrite matches_singleton. Qed.

Lemma delete_one_None (coll : list doc) q :
  find_one coll q = None → delete_one coll q = (coll, 0).
Proof.
  unfold find_one, find. induction coll as [|d coll IH]; simpl; [done|].
  destruct (matches q d); simpl; [done|]. intros H. by rewrite (IH H).
Qed.

Lemma delete_one_Some (coll : list doc) q c :
  find_one coll q = Some c →
  ∃ pre post, coll = (pre ++ c :: post)%list
    ∧ delete_one coll q = ((pre ++ post)%list, 1)
    ∧ ∀ d, d ∈ pre → matches q d = false.
Proof.
  unfold find_one, find. induction coll as [|d coll IH]; simpl; [done|].
  destruct (matches q d) eqn:Hd; simpl.
  - intros [= ->]. exists [], coll. repeat split. intros d Hin.
    by apply not_elem_of_nil in Hin.
  - intros H. destruct (IH H) as (pre & post & -> & -> & Hpre).
    exists (d :: pre), post. repeat split.
    intros d' Hin. apply elem_of_cons in Hin as [->|Hin]; auto.
Qed.

(** X13. [delete_customer] is gated by the delete action of the
    customers module and then works by id alone: a caller without the
    permission gets 403 and nothing is deleted; with it, an id that no
    customer carries gives 404 and leaves the collection as it was, and
    otherwise exactly the first customer with that id is removed, the
    others staying in place, whether or not the customer lies within the
    caller's scope. *)
Theorem delete_customer_outcome (customer_id : string) (u : current_user) (w : world) :
  ∃ eff w1,
    _get_effective_permissions u w = (Ok eff, w1)
    ∧ (_has_perm eff "customers" (Some "delete") = false →
       delete_customer customer_id u w = (Forbidden, w1)
       ∧ db_customers w1 = db_customers w)
    ∧ (_has_perm eff "customers" (Some "delete") = true →
       find_one (db_customers w) (by_id customer_id) = None →
       (delete_customer customer_id u w).1 = NotFound
       ∧ db_customers (delete_customer customer_id u w).2 = db_customers w)
    ∧ (_has_perm eff "customers" (Some "delete") = true →
       ∀ c, find_one (db_customers w) (by_id customer_id) = Some c →
       ∃ pre post,
         db_customers w = (pre ++ c :: post)%list
         ∧ (∀ d, d ∈ pre → field_has d "id" customer_id = false)
         ∧ field_has c "id" customer_id = true
         ∧ (delete_customer customer_id u w).1 = Ok "Customer deleted successfully"
         ∧ db_customers (delete_customer customer_id u w).2 = (pre ++ post)%list).
Proof.
  destruct (get_effective_ok u w) as (eff & w1 & Heff & _ & Hc).
  exists eff, w1. split; [done|].
  assert (∀ b, _has_perm eff "customers" (Some "delete") = b →
    delete_customer customer_id u w
    = if b then
        (w ← get_world;
         let result := delete_one (db_customers w) (by_id customer_id) in
         set_db_customers result.1;;
         if result.2 =? 0 then raise 404 "Customer not found"
         else mret "Customer deleted successfully") w1
      else (Forbidden, w1)) as Hrun.
  { intros b Hb. unfold delete_customer, _require_perm.
    unfold mbind at 1, M_bind at 1. rewrite (bind_ok _ _ _ _ _ Heff), Hb.
    by destruct b. }
  split; [|split].
  - intros Hp. by rewrite (Hrun false Hp).
  - intros Hp Hnone. rewrite (Hrun true Hp).
    unfold mbind, M_bind, get_world, set_db_customers. simpl.
    rewrite Hc, (delete_one_None _ _ Hnone). done.
  - intros Hp c Hsome. rewrite (Hrun true Hp).
    destruct (delete_one_Some _ _ _ Hsome) as (pre & post & Hcoll & Hdel & Hpre).
    exists pre, post. split; [done|]. split.
    { intros d Hd. rewrite <- matches_by_id. by apply Hpre. }
    split.
    { apply find_one_Some in Hsome as [_ Hm]. by rewrite <- matches_by_id. }
    unfold mbind, M_bind, get_world, set_db_customers. simpl.
    rewrite Hc, Hdel. done.
Qed.

Lemma find_one_update_one (coll : list doc) q upd existing :
  find_one coll q = Some existing →
  matches q (upd ∪ existing) = true →
  find_one (update_one coll q upd) q = Some (upd ∪ existing)
  ∧ length (update_one coll q upd) = length coll.
Proof.
  unfold find_one, find. induction coll as [|d coll IH]; simpl; [done|].
  destruct (matches q d) eqn:Hd; simpl.
  - intros [= ->] Hm. by rewrite Hm.
  - intros H Hm. rewrite Hd. simpl. destruct (IH H Hm) as [-> ->]. done.
Qed.

Lemma field_has_union_r (upd d : doc) k s :
  upd !! k = None → field_has (upd ∪ d) k s = field_has d k s.
Proof. intros H. unfold field_has. by rewrite lookup_union_r. Qed.

(** X14. [update_customer_health] asks for no permission and accepts any
    status text.  For every caller: an id that no customer carries gives
    404 and changes nothing; otherwise the first customer with the id
    receives the status as given, the score 85, 65 or 35 for Healthy, At
    Risk or Critical and its previous score (50 when it had none) for any
    other status, and a new [updated_at]; its other fields and the number
    of customers are unchanged. *)
Theorem update_customer_health_outcome (isoformat : Z → string)
    (customer_id health_status : string) (u : current_user) (w : world) :
  match find_one (db_customers w) (by_id customer_id) with
  | None =>
      update_customer_health isoformat customer_id health_status u w = (NotFound, w)
  | Some existing =>
      let score :=
        match health_score_map !! health_status with
        | Some n => VNum n
        | None => default (VNum 50) (existing !! "health_score")
        end in
      ∃ w' stored,
        update_customer_health isoformat customer_id health_status u w
        = (Ok (health_status, score), w')
        ∧ find_one (db_customers w') (by_id customer_id) = Some stored
        ∧ stored !! "health_status" = Some (VStr health_status)
        ∧ stored !! "health_score" = Some score
        ∧ stored !! "updated_at" = Some (VStr (isoformat (clock w (ticks w))))
        ∧ (∀ k, k ≠ "health_status" → k ≠ "health_score" → k ≠ "updated_at" →
                stored !! k = existing !! k)
        ∧ length (db_customers w') = length (db_customers w)
  end.
Proof.
  unfold update_customer_health, mbind, M_bind, get_world, datetime_now,
    set_db_customers, mret, M_ret. simpl.
  destruct (find_one (db_customers w) (by_id customer_id)) as [existing|] eqn:Hfind;
    [|done].
  simpl. set (score := match health_score_map !! health_status with
                       | Some n => VNum n
                       | None => default (VNum 50) (existing !! "health_score")
                       end).
  set (upd := ({[ "health_status" := VStr health_status; "health_score" := score;
                  "updated_at" := VStr (isoformat (clock w (ticks w))) ]} : doc)).
  assert (matches (by_id customer_id) (upd ∪ existing) = true) as Hm.
  { rewrite matches_by_id, field_has_union_r by done.
    apply find_one_Some in Hfind as [_ Hm]. by rewrite <- matches_by_id. }
  destruct (find_one_update_one _ _ upd _ Hfind Hm) as [Hfound Hlen].
  eexists _, (upd ∪ existing). split; [reflexivity|]. simpl.
  split; [done|].
  split; [by apply lookup_union_Some_l|].
  split; [by apply lookup_union_Some_l|].
  split; [by apply lookup_union_Some_l|].
  split; [|done].
  intros k H1 H2 H3. apply lookup_union_r. unfold upd.
  rewrite !lookup_insert_ne by done. by rewrite lookup_singleton_ne.
Qed.

(** X15. The scores that [update_customer_health] assigns agree with
    the classification of [determine_health_status]: the score written
    for a known status is classified as that status again. *)
Theorem health_score_map_consistent (status : string) (n : Z) (w : world) :
  health_score_map !! status = Some n →
  determine_health_status (VNum n) w = (Ok (VStr status), w).
Proof.
  intros H. unfold health_score_map in H.
  destruct (decide (status = "Healthy")) as [->|?];
    [rewrite lookup_insert_eq in H; by simplify_eq|rewrite lookup_insert_ne in H by done].
  destruct (decide (status = "At Risk")) as [->|?];
    [rewrite lookup_insert_eq in H; by simplify_eq|rewrite lookup_insert_ne in H by done].
  destruct (decide (status = "Critical")) as [->|?];
    [rewrite lookup_singleton_eq in H; by simplify_eq|by rewrite lookup_singleton_ne in H].
Qed.

Section CustomerStatusProperties.

Variable fromisoformat : string → option Z.
Variable isoformat : Z → string.
Variable uuid4 : string.
Variable health_score_at : option Z → doc → Z.
Variable strip : string → string.

Lemma parse_date_other k (d : doc) w d' w' k' :
  parse_date fromisoformat k d w = (Ok d', w') → k' ≠ k → d' !! k' = d !! k' ∧ w' = w.
Proof.
  unfold parse_date. intros H Hk.
  destruct (d !! k) as [[]|]; try by injection H as <- <-.
  destruct (fromisoformat s); [|done]. injection H as <- <-.
  by rewrite lookup_insert_ne.
Qed.

Lemma parse_dates_other (d : doc) w d' w' k :
  parse_dates fromisoformat d w = (Ok d', w') →
  k ≠ "created_at" → k ≠ "updated_at" → d' !! k = d !! k ∧ w' = w.
Proof.
  unfold parse_dates. intros H H1 H2.
  apply bind_Ok_inv in H as (d1 & w1 & Hd1 & H).
  destruct (parse_date_other _ _ _ _ _ k Hd1 H1) as [E1 ->].
  destruct (parse_date_other _ _ _ _ _ k H H2) as [E2 ->].
  split; [congruence|done].
Qed.

Lemma Customer_init_field d w row w' k :
  Customer_init uuid4 d w = (Ok row, w') →
  k ∈ Customer_fields → k ≠ "id" → k ≠ "created_at" → k ≠ "updated_at" →
  is_Some (d !! k) → row !! k = d !! k.
Proof.
  intros H Hk H1 H2 H3 [v Hv].
  apply Customer_init_Ok in H as (t1 & t2 & ->).
  rewrite !lookup_insert_ne by done. rewrite Hv.
  apply lookup_union_Some_l. rewrite lookup_project. by rewrite decide_True.
Qed.

(** X16. [update_customer_account_status] validates before it looks
    the customer up: a status that, stripped, is not one of POC/Pilot,
    Onboarding, UAT, Live, Hold, Churn is refused with 400 and nothing
    changes, even for an unknown customer id; a valid status for an
    unknown id gives 404.  Whenever the call returns a customer, the
    status was valid, the stripped status is what the first customer with
    the id now stores and what the answer carries, and the number of
    customers is unchanged. *)
Theorem account_status_validated (customer_id account_status : string)
    (u : current_user) (w : world) :
  (strip account_status ∉ allowed_account_status →
   update_customer_account_status fromisoformat isoformat uuid4 strip
     customer_id account_status u w
   = (HTTPException 400 "Invalid account_status", w))
  ∧ (strip account_status ∈ allowed_account_status →
     find_one (db_customers w) (by_id customer_id) = None →
     update_customer_account_status fromisoformat isoformat uuid4 strip
       customer_id account_status u w
     = (NotFound, w))
  ∧ (∀ c w',
       update_customer_account_status fromisoformat isoformat uuid4 strip
         customer_id account_status u w = (Ok c, w') →
       strip account_status ∈ allowed_account_status
       ∧ c !! "account_status" = Some (VStr (strip account_status))
       ∧ (∃ stored, find_one (db_customers w') (by_id customer_id) = Some stored
                    ∧ stored !! "account_status" = Some (VStr (strip account_status)))
       ∧ length (db_customers w') = length (db_customers w)).
Proof.
  unfold update_customer_account_status.
  split; [|split].
  - intros Hbad. by rewrite bool_decide_eq_true_2.
  - intros Hok Hnone. rewrite bool_decide_eq_false_2 by (by intros ?).
    unfold mbind, M_bind, get_world. simpl. by rewrite Hnone.
  - intros c w' H.
    destruct (bool_decide_reflect (strip account_status ∉ allowed_account_status))
      as [|Hok]; [done|].
    apply dec_stable in Hok. split; [done|].
    unfold mbind at 1, M_bind at 1, get_world in H.
    destruct (find_one (db_customers w) (by_id customer_id)) as [existing|] eqn:Hfind;
      [|done].
    unfold mbind at 1, M_bind at 1, datetime_now in H.
    unfold mbind at 1, M_bind at 1, get_world in H.
    unfold mbind at 1, M_bind at 1, set_db_customers in H.
    unfold mbind at 1, M_bind at 1, get_world in H. simpl in H.
    set (upd := ({[ "account_status" := VStr (strip account_status);
                    "updated_at" := VStr (isoformat (clock w (ticks w))) ]} : doc)) in *.
    assert (matches (by_id customer_id) (upd ∪ existing) = true) as Hm.
    { rewrite matches_by_id, field_has_union_r by done.
      apply find_one_Some in Hfind as [_ Hm]. by rewrite <- matches_by_id. }
    destruct (find_one_update_one _ _ upd _ Hfind Hm) as [Hfound Hlen].
    rewrite Hfound in H.
    apply bind_Ok_inv in H as (parsed & w2 & Hparse & Hinit).
    pose proof (keeps_parse_dates fromisoformat _ _ _ _ Hparse) as Hk1.
    pose proof (keeps_Customer_init uuid4 _ _ _ _ Hinit) as Hk2.
    destruct (parse_dates_other _ _ _ _ "account_status" Hparse) as [Hacc _]; [done..|].
    assert ((upd ∪ existing) !! "account_status" = Some (VStr (strip account_status)))
      as Hstored by (by apply lookup_union_Some_l).
    split.
    { rewrite (Customer_init_field _ _ _ _ "account_status" Hinit);
        [by rewrite Hacc|decide_closed|done..|by rewrite Hacc, Hstored]. }
    rewrite Hk2, Hk1. simpl. split; [by eauto|done].
Qed.

Lemma parse_all_rows (l : list doc) w l' w' :
  parse_all fromisoformat l w = (Ok l', w') →
  length l' = length l
  ∧ ∀ row, row ∈ l' → ∃ d, d ∈ l ∧ row !! "id" = d !! "id".
Proof.
  revert w l' w'. induction l as [|d l IH]; intros w l' w' H; simpl in H.
  - injection H as <- _. split; [done|]. intros row Hrow. by apply not_elem_of_nil in Hrow.
  - apply bind_Ok_inv in H as (d1 & w1 & Hd & H).
    apply bind_Ok_inv in H as (rest & w2 & Hrest & H).
    injection H as <- _. destruct (IH _ _ _ Hrest) as [Hlen Hrows].
    split; [simpl; by rewrite Hlen|].
    intros row Hrow. apply elem_of_cons in Hrow as [->|Hrow].
    + exists d. split; [left|]. by apply (parse_dates_other _ _ _ _ "id" Hd).
    + destruct (Hrows row Hrow) as (d0 & Hin & Hid). exists d0. split; [by right|done].
Qed.

(** X17. The customer list.  [get_customers] never fails with anything
    but an HTTP error (other exceptions are turned into 503), returns at
    most 1000 rows, and every row it returns carries the id of a stored
    customer that satisfies the scope filter of the caller. *)
Theorem get_customers_scoped (u : current_user) (w : world) :
  (∀ e w', get_customers fromisoformat u w ≠ (Exception e, w'))
  ∧ ∀ rows w', get_customers fromisoformat u w = (Ok rows, w') →
      ∃ eff w1 scope w2,
        _require_perm u "customers" None w = (Ok eff, w1)
        ∧ _customer_scope_query u w1 = (Ok scope, w2)
        ∧ (length rows ≤ 1000)%nat
        ∧ ∀ row, row ∈ rows →
            ∃ stored, stored ∈ db_customers w ∧ matches scope stored = true
                      ∧ row !! "id" = stored !! "id".
Proof.
  split.
  - intros e w'. unfold get_customers. by repeat case_match.
  - intros rows w' H. unfold get_customers in H.
    match type of H with
    | match ?body w with _ => _ end = _ =>
        assert (body w = (Ok rows, w')) as Hbody by (by repeat case_match)
    end.
    clear H.
    apply bind_Ok_inv in Hbody as (eff & w1 & Hperm & H).
    apply bind_Ok_inv in H as (scope & w2 & Hscope & H).
    destruct (require_perm_frame _ _ _ _ _ _ Hperm) as (_ & _ & _ & Hc1).
    destruct (scope_query_cases u w1) as (q & w2' & Hq & _ & Hc2 & _).
    rewrite Hscope in Hq. simplify_eq.
    exists eff, w1, q, w2'. split; [done|]. split; [done|].
    unfold mbind at 1, M_bind at 1, get_world in H.
    apply parse_all_rows in H as [Hlen Hrows].
    split.
    { rewrite Hlen, length_take. lia. }
    intros row Hrow. destruct (Hrows row Hrow) as (d & Hd & Hid).
    apply elem_of_take in Hd as (i & Hd & _). apply list_elem_of_lookup_2 in Hd.
    assert (∃ stored, stored ∈ find (db_customers w2') q ∧ d !! "id" = stored !! "id")
      as (stored & Hin & Hid').
    { destruct (sales_limited eff).
      - apply list_elem_of_fmap in Hd as (stored & -> & Hin). exists stored.
        split; [done|]. rewrite lookup_project. by rewrite decide_True by decide_closed.
      - by exists d. }
    exists stored. apply list_elem_of_In, filter_In in Hin as [Hin Hm].
    rewrite Hc2, Hc1 in Hin. split; [by apply list_elem_of_In|]. split; [done|].
    by rewrite Hid.
Qed.

(** *** What an update leaves alone *)

Lemma same_but_refl cid cs : same_but cid cs cs.
Proof. by split. Qed.

Lemma same_but_trans cid cs1 cs2 cs3 :
  same_but cid cs1 cs2 → same_but cid cs2 cs3 → same_but cid cs1 cs3.
Proof.
  intros [Hl1 H1] [Hl2 H2]. split; [congruence|].
  intros i c Hi Hc. apply H2; [|done]. by apply H1.
Qed.

Lemma same_but_update_one cid (coll : list doc) upd :
  same_but cid coll (update_one coll (by_id cid) upd).
Proof.
  induction coll as [|d coll [IHl IH]]; simpl; [by split|].
  destruct (matches (by_id cid) d) eqn:Hd.
  - split; [done|]. intros [|i] c Hi Hc; simpl in *; [|done].
    simplify_eq. rewrite matches_by_id in Hd. congruence.
  - split; [simpl; by rewrite IHl|].
    intros [|i] c Hi Hc; simpl in *; [done|]. by apply IH.
Qed.

Lemma same_but_update_one_unique cid (coll : list doc) upd cs :
  update_one_unique customers_unique coll (by_id cid) upd = Some cs →
  same_but cid coll cs.
Proof.
  unfold update_one_unique. destruct (find_one coll (by_id cid)).
  - destruct (duplicate_key _ _ _ _); [done|].
    intros [= <-]. apply same_but_update_one.
  - intros [= <-]. apply same_but_refl.
Qed.

Lemma change_keeps {A} cid (m : M A) :
  keeps_customers m → customers_change (same_but cid) m.
Proof. intros Hm w r w' H. rewrite (Hm _ _ _ H). apply same_but_refl. Qed.

Lemma change_bind {A B} cid (m : M A) (f : A → M B) :
  customers_change (same_but cid) m → (∀ a, customers_change (same_but cid) (f a)) →
  customers_change (same_but cid) (m ≫= f).
Proof.
  intros Hm Hf w r w'. unfold mbind, M_bind.
  destruct (m w) as [[a| |] w1] eqn:Hmw; specialize (Hm _ _ _ Hmw).
  - intros H. eapply same_but_trans; [done|]. by eapply Hf.
  - by intros [= _ <-].
  - by intros [= _ <-].
Qed.

Lemma change_get {B} cid (f : world → M B) :
  (∀ w r w', f w w = (r, w') → same_but cid (db_customers w) (db_customers w')) →
  customers_change (same_but cid) (get_world ≫= f).
Proof. intros Hf w r w' H. by apply (Hf w r w'). Qed.

(** X18. [update_customer] touches one document at most: whatever the
    outcome of the call, the customer collection has as many documents as
    before, and every customer whose id is not the one in the path is
    still stored, unchanged, at its place. *)
Theorem update_customer_frame (customer_id : string) (customer_data : doc)
    (u : current_user) (w : world) (r : result doc) (w' : world) :
  update_customer fromisoformat isoformat uuid4 health_score_at
    customer_id customer_data u w = (r, w') →
  length (db_customers w') = length (db_customers w)
  ∧ ∀ (i : nat) c, db_customers w !! i = Some c →
                   field_has c "id" customer_id = false →
                   db_customers w' !! i = Some c.
Proof.
  revert w r w'. change (customers_change (same_but customer_id)
    (update_customer fromisoformat isoformat uuid4 health_score_at
       customer_id customer_data u)).
  unfold update_customer.
  apply change_bind.
  { apply change_keeps. unfold _require_perm.
    pose proof keeps_get_effective. keeps. }
  intros _. apply change_bind; [apply change_keeps, keeps_get|]. intros w0.
  destruct (find_one (db_customers w0) _); [|apply change_keeps, keeps_raise].
  apply change_bind; [apply change_keeps, keeps_build_update|]. intros upd.
  apply change_get. intros w1 r w' H.
  destruct (update_one_unique customers_unique (db_customers w1)
              {[ "id" := Field (QEq customer_id) ]} upd) as [cs|] eqn:Hwrite;
    [|unfold mbind, M_bind, throw in H; simplify_eq; apply same_but_refl].
  apply (same_but_update_one_unique customer_id) in Hwrite.
  unfold mbind at 1, M_bind at 1, set_db_customers in H.
  cbv beta iota in H.
  set (w2 := World (db_settings w1) (db_users w1) cs
    (SETTINGS_CACHE w1) (SETTINGS_CACHE_TIMESTAMP w1) (clock w1) (ticks w1)) in H.
  apply (same_but_trans _ _ (db_customers w2)); [exact Hwrite|].
  clearbody w2. revert w2 r w' H.
  change (customers_change (same_but customer_id)
    (w ← get_world;
     match find_one (db_customers w) {[ "id" := Field (QEq customer_id) ]} with
     | None => throw "TypeError"
     | Some updated =>
         match updated !! "created_at", updated !! "updated_at" with
         | Some _, Some _ =>
             updated ← parse_dates fromisoformat updated;
             Customer_init uuid4 updated
         | _, _ => throw "KeyError"
         end
     end)).
  apply change_keeps.
  pose proof (keeps_parse_dates fromisoformat). pose proof (keeps_Customer_init uuid4).
  keeps.
Qed.

End CustomerStatusProperties.

(** ** Scope translator *)

(** X24. The scope translator never fails and never invents a filter:
    for every caller and every state of the settings it returns one of
    four filters, the unrestricted one, the match-nothing one, the own
    filter on the caller's id, or the team filter on the caller's id and
    the caller's direct CSM reports, and it leaves the user and customer
    collections as they were. *)
Theorem scope_query_total (u : current_user) (w : world) :
  ∃ q w',
    _customer_scope_query u w = (Ok q, w')
    ∧ db_users w' = db_users w ∧ db_customers w' = db_customers w
    ∧ (q = all_customers ∨ q = no_customers ∨ q = own_customers (_user_id u)
       ∨ q = team_customers (_user_id u) (managed_csm_ids (db_users w) (_user_id u))).
Proof. apply scope_query_cases. Qed.

(** ** Accessible customer ids *)

Lemma length_omap_le {A B} (f : A → option B) (l : list A) :
  (length (omap f l) ≤ length l)%nat.
Proof.
  induction l as [|x l IH]; simpl; [lia|].
  change (list_omap A B f l) with (omap f l). destruct (f x); simpl; lia.
Qed.

(** X19. [_accessible_customer_ids] answers [None], for no restriction,
    exactly when the scope filter of the caller is the empty filter, as
    it is for the admin-like roles.  Otherwise it answers a list of at
    most 5000 ids, each of them the non-empty id of a stored customer
    that satisfies the scope filter. *)
Theorem accessible_customer_ids_in_scope (u : current_user) (w : world) :
  ∃ scope w1,
    _customer_scope_query u w = (Ok scope, w1)
    ∧ (role_set u ∩ ROLE_ADMINISH ≠ ∅ → scope = ∅)
    ∧ (scope = ∅ → _accessible_customer_ids u w = (Ok None, w1))
    ∧ (scope ≠ ∅ →
       ∃ ids, _accessible_customer_ids u w = (Ok (Some ids), w1)
         ∧ (length ids ≤ 5000)%nat
         ∧ ∀ v, v ∈ ids →
             truthy v = true
             ∧ ∃ c, c ∈ db_customers w ∧ matches scope c = true ∧ c !! "id" = Some v).
Proof.
  destruct (scope_query_cases u w) as (scope & w1 & Hq & _ & Hc & _).
  exists scope, w1. split; [done|]. split.
  { intros Hadm. unfold _customer_scope_query in Hq.
    rewrite decide_True in Hq by done. by injection Hq as <- _. }
  unfold _accessible_customer_ids. rewrite (bind_ok _ _ _ _ _ Hq). split.
  - intros ->. by rewrite map_size_empty.
  - intros Hne. apply map_size_non_empty_iff in Hne.
    destruct (Nat.eqb_spec (size scope) 0) as [|_]; [done|].
    eexists. split; [reflexivity|]. split.
    { etransitivity; [apply length_omap_le|]. rewrite length_take. lia. }
    intros v Hv. unfold truthy_ids in Hv.
    apply list_elem_of_omap in Hv as (d & Hd & Hv).
    destruct (d !! "id") as [v'|] eqn:Hid; [|done].
    destruct (truthy v') eqn:Ht; [|done]. simplify_eq. split; [done|].
    apply elem_of_take in Hd as (i & Hd & _). apply list_elem_of_lookup_2 in Hd.
    apply list_elem_of_fmap in Hd as (c & -> & Hin).
    apply list_elem_of_In, filter_In in Hin as [Hin Hm].
    exists c. rewrite Hc in Hin. split; [by apply list_elem_of_In|]. split; [done|].
    rewrite lookup_project in Hid. by case_decide.
Qed.

(** ** Tags *)

Lemma is_str_true s v : is_str s v = true ↔ v = VStr s.
Proof.
  destruct v; simpl; try (split; [done|by intros [=]]).
  destruct (String.eqb_spec s0 s); split; (congruence || done).
Qed.

Lemma existsb_is_str s l : existsb (is_str s) l = true ↔ VStr s ∈ l.
Proof.
  rewrite existsb_exists. split.
  - intros (v & Hin & Hv). apply is_str_true in Hv as ->. by apply list_elem_of_In.
  - intros Hin. exists (VStr s). split; [by apply list_elem_of_In|]. by apply is_str_true.
Qed.

Lemma missing_updates_other d upd : missing_updates d = Some upd → sd_other upd = ∅.
Proof. unfold missing_updates. intros H. repeat case_match; by simplify_eq. Qed.

(** The settings loader never touches the display part of a stored
    document. *)
Lemma ensure_settings_other force_refresh w s w' d :
  _ensure_settings force_refresh w = (Ok s, w') →
  db_settings w = Some d →
  ∃ d', db_settings w' = Some d' ∧ sd_other d' = sd_other d.
Proof.
  intros H Hd.
  assert (∀ upd, missing_updates d = Some upd →
            sd_other (overlay upd d) = sd_other d) as Hov.
  { intros upd Hupd. simpl. rewrite (missing_updates_other _ _ Hupd).
    by rewrite (left_id_L ∅ (∪)). }
  unfold _ensure_settings, mbind, M_bind, mret, M_ret, datetime_now, get_world,
    set_db_settings, set_cache in H; simpl in H.
  rewrite Hd in H.
  destruct (missing_updates d) as [upd|] eqn:Hupd; simpl in H;
    repeat (case_match; simpl in H); simplify_eq/=;
    first [ by eauto | eexists; split; [reflexivity|]; by apply Hov ].
Qed.

Lemma require_roles_ok u allowed w :
  role_set u ∩ allowed ≠ ∅ → _require_roles u allowed w = (Ok tt, w).
Proof. intros H. unfold _require_roles. by rewrite decide_False. Qed.

Lemma require_roles_inv u allowed w r w' :
  _require_roles u allowed w = (Ok r, w') → role_set u ∩ allowed ≠ ∅ ∧ w' = w.
Proof.
  unfold _require_roles. destruct (decide (role_set u ∩ allowed = ∅)); [done|].
  by intros [= _ <-].
Qed.

Lemma update_settings_doc_run op w d :
  db_settings w = Some d →
  update_settings_doc op w
  = match op (sd_other d) with
    | Some other =>
        set_db_settings (Some (SettingsDoc (sd_role_permissions d) (sd_roles d) other)) w
    | None => (Exception "WriteError", w)
    end.
Proof.
  intros Hd. unfold update_settings_doc, mbind, M_bind, get_world. rewrite Hd.
  by destruct (op (sd_other d)).
Qed.

Section TagProperties.

Variable strip : string → string.

Lemma add_tag_run (tag : gmap string string) (u : current_user) w v w1 d :
  db_settings w = Some d →
  add_tag strip tag u w = (Ok v, w1) →
  role_set u ∩ ROLE_SETTINGS_ADMIN ≠ ∅
  ∧ v = strip (default EmptyString (tag !! "tag")) ∧ nonempty v = true
  ∧ ∃ d0 other, sd_other d0 = sd_other d
      ∧ addToSet "tags" v (sd_other d0) = Some other
      ∧ db_settings w1 = Some (SettingsDoc (sd_role_permissions d0) (sd_roles d0) other).
Proof.
  intros Hd H. unfold add_tag in H.
  apply bind_Ok_inv in H as ([] & w0 & Hroles & H).
  apply require_roles_inv in Hroles as [Hadmin ->]. split; [done|].
  cbv zeta in H.
  destruct (nonempty (strip (default EmptyString (tag !! "tag")))) eqn:Hne;
    simpl in H; [|done].
  apply bind_Ok_inv in H as (s & w2 & Hens & H).
  apply bind_Ok_inv in H as ([] & w3 & Hupd & H). injection H as <- <-.
  split; [done|]. split; [done|].
  destruct (ensure_settings_other _ _ _ _ _ Hens Hd) as (d0 & Hd0 & Hother).
  rewrite (update_settings_doc_run _ _ _ Hd0) in Hupd.
  destruct (addToSet _ _ _) as [other|] eqn:Hadd; [|done].
  injection Hupd as <-. by exists d0, other.
Qed.

(** The tags that a successful [add_tag] leaves in the store. *)
Lemma add_tag_tags (tag : gmap string string) (u : current_user) w v w1 d :
  db_settings w = Some d →
  add_tag strip tag u w = (Ok v, w1) →
  ∃ d0 other l,
    db_settings w1 = Some (SettingsDoc (sd_role_permissions d0) (sd_roles d0) other)
    ∧ other !! "tags" = Some (VList l) ∧ VStr v ∈ l
    ∧ (∀ l0, sd_other d !! "tags" = Some (VList l0) →
         l = if existsb (is_str v) l0 then l0 else (l0 ++ [VStr v])%list)
    ∧ addToSet "tags" v other = Some other.
Proof.
  intros Hd H.
  destruct (add_tag_run _ _ _ _ _ _ Hd H)
    as (Hadmin & Hv & Hne & d0 & other & Hother & Hadd & Hdb1).
  exists d0, other. clear Hv H. unfold addToSet in Hadd. rewrite Hother in Hadd.
  destruct (sd_other d !! "tags") as [[]|] eqn:Htags; simplify_eq.
  - destruct (existsb (is_str v) l) eqn:Hex.
    + exists l. split; [done|]. rewrite Htags. split; [done|].
      split; [by apply existsb_is_str|]. split; [by intros ? [= <-]; rewrite Hex|].
      unfold addToSet. by rewrite Htags, Hex.
    + exists (l ++ [VStr v])%list. split; [done|]. rewrite lookup_insert_eq.
      split; [done|]. split; [apply elem_of_app; right; left|].
      split; [by intros ? [= <-]; rewrite Hex|].
      unfold addToSet. rewrite lookup_insert_eq.
      rewrite existsb_app. simpl. rewrite String.eqb_refl.
      by rewrite orb_true_r.
  - exists [VStr v]. split; [done|]. rewrite lookup_insert_eq. split; [done|].
    split; [left|]. split; [done|].
    unfold addToSet. rewrite lookup_insert_eq. simpl.
    by rewrite String.eqb_refl.
Qed.

(** X20. Adding a tag.  A tag that is empty once stripped is refused
    with 400 and changes nothing.  When the settings document exists and
    the call succeeds, the stripped tag is among the stored tags, the
    tags stored before are all kept in their order, with the new one
    added at the end unless it was there already; a second call with the
    same tag succeeds and leaves the stored tags as they are. *)
Theorem add_tag_stored_once (tag : gmap string string) (u : current_user) (w : world) :
  (role_set u ∩ ROLE_SETTINGS_ADMIN ≠ ∅ →
   nonempty (strip (default EmptyString (tag !! "tag"))) = false →
   add_tag strip tag u w = (HTTPException 400 "tag is required", w))
  ∧ (∀ v w1,
       is_Some (db_settings w) →
       add_tag strip tag u w = (Ok v, w1) →
       v = strip (default EmptyString (tag !! "tag"))
       ∧ (∃ l, stored_tags w1 = Some (VList l) ∧ VStr v ∈ l
               ∧ ∀ l0, stored_tags w = Some (VList l0) →
                       l = if existsb (is_str v) l0 then l0 else (l0 ++ [VStr v])%list)
       ∧ ∃ w2, add_tag strip tag u w1 = (Ok v, w2) ∧ stored_tags w2 = stored_tags w1).
Proof.
  split.
  { intros Hadmin Hblank. unfold add_tag.
    rewrite (bind_ok _ _ _ _ _ (require_roles_ok _ _ _ Hadmin)).
    cbv zeta. by rewrite Hblank. }
  intros v w1 [d Hd] H.
  destruct (add_tag_run _ _ _ _ _ _ Hd H) as (Hadmin & Hv & Hne & _).
  destruct (add_tag_tags _ _ _ _ _ _ Hd H)
    as (d0 & other & l & Hdb1 & Hl & Hin & Hfrom & Hagain).
  split; [done|].
  split.
  { exists l. unfold stored_tags. rewrite Hdb1, Hd. simpl. by eauto. }
  destruct (ensure_settings_ok false w1) as (s2 & w2 & Hens2 & _ & _).
  destruct (ensure_settings_other _ _ _ _ _ Hens2 Hdb1) as (d2 & Hd2 & Hother2).
  simpl in Hother2.
  eexists. split.
  - unfold add_tag.
    rewrite (bind_ok _ _ _ _ _ (require_roles_ok _ _ _ Hadmin)).
    cbv zeta. rewrite <- Hv, Hne. simpl.
    rewrite (bind_ok _ _ _ _ _ Hens2).
    erewrite bind_ok; [reflexivity|].
    rewrite (update_settings_doc_run _ _ _ Hd2), Hother2, Hagain. reflexivity.
  - unfold stored_tags. simpl. by rewrite Hdb1.
Qed.

(** X21. Removing a tag that was just added: the removal succeeds,
    after it the tag is not among the stored tags, and the stored tags
    are those from before the addition without that tag. *)
Theorem remove_tag_after_add (tag : gmap string string) (u : current_user)
    (w : world) (v : string) (w1 : world) :
  is_Some (db_settings w) →
  add_tag strip tag u w = (Ok v, w1) →
  ∃ w2 l2,
    remove_tag v u w1 = (Ok v, w2)
    ∧ stored_tags w2 = Some (VList l2)
    ∧ (VStr v ∉ l2)
    ∧ ∀ l0, stored_tags w = Some (VList l0) →
            l2 = List.filter (λ x, negb (is_str v x)) l0.
Proof.
  intros [d Hd] H.
  destruct (add_tag_run _ _ _ _ _ _ Hd H) as (Hadmin & _).
  destruct (add_tag_tags _ _ _ _ _ _ Hd H)
    as (d0 & other & l & Hdb1 & Hl & Hin & Hfrom & _).
  destruct (ensure_settings_ok false w1) as (s2 & w2 & Hens2 & _ & _).
  destruct (ensure_settings_other _ _ _ _ _ Hens2 Hdb1) as (d2 & Hd2 & Hother2).
  simpl in Hother2.
  assert (sd_other d2 !! "tags" = Some (VList l)) as Htags by (by rewrite Hother2).
  eexists _, (List.filter (λ x, negb (is_str v x)) l). split.
  { unfold remove_tag.
    rewrite (bind_ok _ _ _ _ _ (require_roles_ok _ _ _ Hadmin)).
    rewrite (bind_ok _ _ _ _ _ Hens2).
    erewrite bind_ok; [reflexivity|].
    rewrite (update_settings_doc_run _ _ _ Hd2). unfold pull. rewrite Htags.
    reflexivity. }
  split; [unfold stored_tags; simpl; by rewrite lookup_insert_eq|].
  split.
  { intros Hin'. apply list_elem_of_In, filter_In in Hin' as [_ Hneg].
    simpl in Hneg. by rewrite String.eqb_refl in Hneg. }
  intros l0 Hl0. unfold stored_tags in Hl0. rewrite Hd in Hl0. simpl in Hl0.
  rewrite (Hfrom l0 Hl0).
  destruct (existsb (is_str v) l0); [done|].
  rewrite List.filter_app. simpl.
  rewrite String.eqb_refl. simpl. by rewrite app_nil_r.
Qed.

End TagProperties.

(** ** Activity and risk listings *)

(** X22. The activity and risk listings cannot serve a caller whose
    effective scope on the module is team, which is the default for the
    AM role: the team branch calls a helper that the repository does not
    define, the resulting NameError is turned into an HTTP 503, and the
    answer is that error whatever the collections hold. *)
Theorem team_scope_listings_unavailable (fromisoformat : string → option Z)
    (sort_desc : string → list doc → list doc) (activities risks : list doc)
    (customer_id : option string) (u : current_user) (w : world)
    (eff : effective) (w1 : world) :
  _get_effective_permissions u w = (Ok eff, w1) →
  (enabled_of (default empty_perm (modules eff !! "activities")) = true →
   mp_scope (default empty_perm (modules eff !! "activities")) = Some "team" →
   get_activities fromisoformat sort_desc activities customer_id u w
   = (HTTPException 503 "Database error: name '_get_team_csm_ids' is not defined", w1))
  ∧ (enabled_of (default empty_perm (modules eff !! "risks")) = true →
     mp_scope (default empty_perm (modules eff !! "risks")) = Some "team" →
     get_risks fromisoformat sort_desc risks customer_id u w
     = (HTTPException 503 "Database error: name '_get_team_csm_ids' is not defined", w1)).
Proof.
  intros Heff. split; intros Hen Hteam.
  - unfold get_activities, or_503. rewrite (bind_ok _ _ _ _ _ Heff).
    cbv zeta. rewrite Hen. simpl. unfold scoped_query. rewrite Hteam. done.
  - unfold get_risks, or_503. rewrite (bind_ok _ _ _ _ _ Heff).
    cbv zeta. rewrite Hen. simpl. unfold scoped_query. rewrite Hteam. done.
Qed.

(** * The further properties on the sample data *)

(** The user with the unconfigured role GUEST on the default
    configuration. *)
Lemma unknown_roles_denied_witness :
  let run := _ensure_settings false sample_world in
  let s := default default_settings (returned run) in
  _ensure_settings false sample_world = (Ok s, run.2)
  ∧ (∀ r, r ∈ resolved_roles guest_user → default ∅ (sd_role_permissions s) !! r = None)
  ∧ _get_effective_permissions guest_user sample_world = (Ok (Effective ∅), run.2)
  ∧ ∀ k a, _require_perm guest_user k a sample_world = (Forbidden, run.2).
Proof.
  intros run s.
  assert (is_Ok run = true) as Hok by by_eval.
  pose proof (run_returned run default_settings Hok) as Hrun.
  assert (∀ r, r ∈ resolved_roles guest_user →
               default ∅ (sd_role_permissions s) !! r = None) as Hnone.
  { intros r Hr. change (r ∈ ["GUEST"]) in Hr.
    apply list_elem_of_singleton in Hr as ->. by_eval. }
  exact (conj Hrun (conj Hnone
    (unknown_roles_denied guest_user sample_world s run.2 Hrun Hnone))).
Defined.

(** A user holding CSM and SALES: the customers module is entered
    through either role, edit comes from CSM, the scope is the wider of
    own and all, and the field policy of SALES is inherited. *)
Example two_roles_resolved :
  _has_perm (eff_of csm_sales_user sample_world) "customers" (Some "edit") = true
  ∧ _has_perm (eff_of csm_sales_user sample_world) "customers" (Some "delete") = false
  ∧ customers_scope (eff_of csm_sales_user sample_world) = Some "all"
  ∧ sales_limited (eff_of csm_sales_user sample_world) = true
  ∧ last_policy _default_role_permissions "customers" "field_policy" ["CSM"; "SALES"]
    = Some (VStr "sales_limited").
Proof. by_eval. Qed.

(** ** Settings *)

(** A second read, ten seconds after the settings were cached. *)
Lemma ensure_settings_serves_cache_witness :
  SETTINGS_CACHE loaded_world = Some default_settings
  ∧ clock loaded_world (ticks loaded_world) - SETTINGS_CACHE_TIMESTAMP loaded_world
    < CACHE_TTL
  ∧ _ensure_settings false loaded_world = (Ok default_settings, tick loaded_world).
Proof.
  assert (SETTINGS_CACHE loaded_world = Some default_settings) as Hc by by_eval.
  assert (clock loaded_world (ticks loaded_world) - SETTINGS_CACHE_TIMESTAMP loaded_world
          < CACHE_TTL) as Httl by (apply Z.ltb_lt; by_eval).
  exact (conj Hc (conj Httl
    (ensure_settings_serves_cache loaded_world default_settings Hc Httl))).
Defined.

(** A read three hundred seconds after the settings were cached goes
    back to the database. *)
Lemma ensure_settings_reloads_witness :
  db_settings expired_world = Some default_settings
  ∧ (false = true ∨ SETTINGS_CACHE expired_world = None
     ∨ CACHE_TTL ≤ clock expired_world (ticks expired_world)
                   - SETTINGS_CACHE_TIMESTAMP expired_world)
  ∧ ∃ w', _ensure_settings false expired_world = (Ok (backfilled default_settings), w')
      ∧ db_settings w' = Some (backfilled default_settings)
      ∧ SETTINGS_CACHE w' = Some (backfilled default_settings)
      ∧ SETTINGS_CACHE_TIMESTAMP w' = clock expired_world (ticks expired_world)
      ∧ db_users w' = db_users expired_world
      ∧ db_customers w' = db_customers expired_world.
Proof.
  assert (db_settings expired_world = Some default_settings) as Hd by by_eval.
  assert (false = true ∨ SETTINGS_CACHE expired_world = None
          ∨ CACHE_TTL ≤ clock expired_world (ticks expired_world)
                        - SETTINGS_CACHE_TIMESTAMP expired_world) as Hmiss.
  { right. right. apply Z.leb_le. by_eval. }
  exact (conj Hd (conj Hmiss
    (ensure_settings_reloads false expired_world default_settings Hd Hmiss))).
Defined.

(** The legacy settings document, without role permissions and with
    the ADMIN role only, is completed by the first forced read. *)
Example legacy_settings_backfilled :
  is_Ok legacy_reload = true
  ∧ missing_updates legacy_settings
    = Some (SettingsDoc (Some _default_role_permissions)
              (Some (default [] (sd_roles legacy_settings) ++ backfill_roles)%list) ∅)
  ∧ role_names <$> returned legacy_reload = Some ["ADMIN"; "SALES"; "READ_ONLY"]
  ∧ sd_role_permissions <$> db_settings legacy_reload.2
    = Some (Some _default_role_permissions).
Proof. by_eval. Qed.

(** Two forced reads of the legacy settings in a row. *)
Lemma ensure_settings_refresh_idempotent_witness :
  let s := default default_settings (returned legacy_reload) in
  _ensure_settings true legacy_world = (Ok s, legacy_reload.2)
  ∧ ∃ w2, _ensure_settings true legacy_reload.2 = (Ok s, w2)
          ∧ db_settings w2 = db_settings legacy_reload.2
          ∧ db_settings legacy_reload.2 = Some s.
Proof.
  intros s.
  assert (is_Ok legacy_reload = true) as Hok by by_eval.
  pose proof (run_returned legacy_reload default_settings Hok) as Hrun.
  exact (conj Hrun
    (ensure_settings_refresh_idempotent legacy_world s legacy_reload.2 Hrun)).
Defined.

(** A CS leader at the settings endpoints. *)
Lemma settings_endpoints_admin_only_witness :
  role_set leader_user ∩ ROLE_SETTINGS_ADMIN = ∅
  ∧ get_settings leader_user sample_world = (Forbidden, sample_world)
  ∧ update_settings widen_csm leader_user sample_world = (Forbidden, sample_world)
  ∧ add_tag sample_strip vip_tag leader_user sample_world = (Forbidden, sample_world)
  ∧ remove_tag "VIP" leader_user sample_world = (Forbidden, sample_world).
Proof.
  assert (role_set leader_user ∩ ROLE_SETTINGS_ADMIN = ∅) as H by decide_closed.
  exact (conj H
    (settings_endpoints_admin_only sample_strip leader_user sample_world widen_csm
       vip_tag "VIP" H)).
Defined.

(** The administrator widening the CSM role, then a forced read. *)
Lemma update_settings_then_reload_witness :
  role_set admin_user ∩ ROLE_SETTINGS_ADMIN ≠ ∅
  ∧ su_role_permissions widen_csm = Some csm_scope_all
  ∧ ∃ stored w1 s w2,
      update_settings widen_csm admin_user sample_world = (Ok stored, w1)
      ∧ sd_role_permissions stored = Some csm_scope_all
      ∧ _ensure_settings true w1 = (Ok s, w2)
      ∧ sd_role_permissions s
        = Some (if Nat.eqb (size csm_scope_all) 0 then _default_role_permissions
                else csm_scope_all).
Proof.
  assert (role_set admin_user ∩ ROLE_SETTINGS_ADMIN ≠ ∅) as H by decide_closed.
  exact (conj H (conj eq_refl
    (update_settings_then_reload widen_csm admin_user sample_world csm_scope_all
       H eq_refl))).
Defined.

(** The administrator's write of the cache scenario, on the warm
    cache. *)
Lemma settings_write_hidden_by_cache_witness :
  role_set admin_user ∩ ROLE_SETTINGS_ADMIN ≠ ∅
  ∧ SETTINGS_CACHE warm_world = Some default_settings
  ∧ clock warm_world (ticks warm_world) - SETTINGS_CACHE_TIMESTAMP warm_world < CACHE_TTL
  ∧ ∃ stored w',
      update_settings revoke_csm admin_user warm_world = (Ok stored, w')
      ∧ db_settings w' = Some stored
      ∧ (∀ rp, su_role_permissions revoke_csm = Some rp →
               sd_role_permissions stored = Some rp)
      ∧ SETTINGS_CACHE w' = Some default_settings
      ∧ SETTINGS_CACHE_TIMESTAMP w' = SETTINGS_CACHE_TIMESTAMP warm_world
      ∧ (clock w' (ticks w') - SETTINGS_CACHE_TIMESTAMP w' < CACHE_TTL →
         ∃ w'', _ensure_settings false w' = (Ok default_settings, w'')
                ∧ db_settings w'' = Some stored).
Proof.
  assert (role_set admin_user ∩ ROLE_SETTINGS_ADMIN ≠ ∅) as H by decide_closed.
  assert (SETTINGS_CACHE warm_world = Some default_settings) as Hc by by_eval.
  assert (clock warm_world (ticks warm_world) - SETTINGS_CACHE_TIMESTAMP warm_world
          < CACHE_TTL) as Httl by (apply Z.ltb_lt; by_eval).
  exact (conj H (conj Hc (conj Httl
    (settings_write_hidden_by_cache revoke_csm admin_user warm_world default_settings
       H Hc Httl)))).
Defined.

(** ** Tags *)

(** The tag, stripped, joins the default tags; a tag of blanks is
    refused. *)
Example add_tag_samples :
  returned vip_added = Some "VIP"
  ∧ stored_tags vip_added.2
    = Some (VList (VStr <$>
        [ "Enterprise"; "SMB"; "Strategic"; "High Touch"; "Tech Touch";
          "At Risk"; "Champion"; "Expansion Ready"; "Renewal Due";
          "Upsell Target"; "VIP" ]))
  ∧ (add_tag sample_strip {[ "tag" := "   " ]} admin_user sample_world).1
    = HTTPException 400 "tag is required"
  ∧ stored_tags (add_tag sample_strip vip_tag admin_user vip_added.2).2
    = stored_tags vip_added.2.
Proof. by_eval. Qed.

Lemma remove_tag_after_add_witness :
  let v := default EmptyString (returned vip_added) in
  is_Some (db_settings sample_world)
  ∧ add_tag sample_strip vip_tag admin_user sample_world = (Ok v, vip_added.2)
  ∧ ∃ w2 l2,
      remove_tag v admin_user vip_added.2 = (Ok v, w2)
      ∧ stored_tags w2 = Some (VList l2)
      ∧ (VStr v ∉ l2)
      ∧ ∀ l0, stored_tags sample_world = Some (VList l0) →
              l2 = List.filter (λ x, negb (is_str v x)) l0.
Proof.
  intros v.
  assert (is_Some (db_settings sample_world)) as Hsome by (by eexists).
  assert (is_Ok vip_added = true) as Hok by by_eval.
  pose proof (run_returned vip_added EmptyString Hok) as Hrun.
  exact (conj Hsome (conj Hrun
    (remove_tag_after_add sample_strip vip_tag admin_user sample_world v vip_added.2
       Hsome Hrun))).
Defined.

(** ** Customers *)

(** Only the administrator may delete on the default configuration; a
    CSM granted the delete action deletes the customer of another CSM. *)
Example delete_customer_samples :
  (delete_customer "c2" csm1_user sample_world).1 = Forbidden
  ∧ (delete_customer "c404" admin_user sample_world).1 = NotFound
  ∧ db_customers (delete_customer "c404" admin_user sample_world).2 = sample_customers
  ∧ returned (delete_customer "c2" admin_user sample_world)
    = Some "Customer deleted successfully"
  ∧ db_customers (delete_customer "c2" admin_user sample_world).2
    = [customer_doc "c1" "Acme" "csm1" "am1"]
  ∧ customers_scope (eff_of csm1_user (with_role_permissions csm_may_delete)) = Some "own"
  ∧ db_customers (delete_customer "c2" csm1_user (with_role_permissions csm_may_delete)).2
    = [customer_doc "c1" "Acme" "csm1" "am1"].
Proof. by_eval. Qed.

(** A user without any configured role changes the health of a
    customer; an unknown status is stored as given, with the score
    kept. *)
Example update_customer_health_samples :
  returned (update_customer_health sample_isoformat "c2" "Critical" guest_user sample_world)
  = Some ("Critical", VNum 35)
  ∧ returned (update_customer_health sample_isoformat "c2" "Unknown" guest_user sample_world)
    = Some ("Unknown", VNum 72)
  ∧ (λ d : doc, (d !! "health_status", d !! "health_score"))
      <$> find_one
            (db_customers
               (update_customer_health sample_isoformat "c2" "Unknown" guest_user
                  sample_world).2) (by_id "c2")
    = Some (Some (VStr "Unknown"), Some (VNum 72))
  ∧ (update_customer_health sample_isoformat "c404" "Healthy" guest_user sample_world).1
    = NotFound.
Proof. by_eval. Qed.

Lemma health_score_map_consistent_witness :
  health_score_map !! "At Risk" = Some 65
  ∧ determine_health_status (VNum 65) sample_world = (Ok (VStr "At Risk"), sample_world).
Proof.
  assert (health_score_map !! "At Risk" = Some 65) as H by by_eval.
  exact (conj H (health_score_map_consistent "At Risk" 65 sample_world H)).
Defined.

(** Account status: validation comes first; a valid status is stored
    stripped. *)
Example account_status_samples :
  (update_customer_account_status sample_fromisoformat sample_isoformat sample_uuid4
     sample_strip "c404" "Paused" guest_user sample_world).1
  = HTTPException 400 "Invalid account_status"
  ∧ (update_customer_account_status sample_fromisoformat sample_isoformat sample_uuid4
       sample_strip "c404" "Hold" guest_user sample_world).1
    = NotFound
  ∧ (λ d : doc, d !! "account_status")
      <$> returned
            (update_customer_account_status sample_fromisoformat sample_isoformat
               sample_uuid4 sample_strip "c2" " Churn " guest_user sample_world)
    = Some (Some (VStr "Churn")).
Proof. by_eval. Qed.

(** The customer list of [csm1] and of the administrator. *)
Example get_customers_samples :
  (fmap (M := list) (λ row : doc, row !! "id"))
    <$> returned (get_customers sample_fromisoformat csm1_user sample_world)
  = Some [Some (VStr "c1")]
  ∧ (fmap (M := list) (λ row : doc, row !! "id"))
      <$> returned (get_customers sample_fromisoformat admin_user sample_world)
    = Some [Some (VStr "c1"); Some (VStr "c2")]
  ∧ (get_customers sample_fromisoformat guest_user sample_world).1 = Forbidden.
Proof. by_eval. Qed.

(** The rename of [c2] by [csm1] leaves [c1] alone. *)
Lemma update_customer_frame_witness :
  update_customer sample_fromisoformat sample_isoformat sample_uuid4
    sample_health_score "c2" rename_c2 csm1_user sample_world
  = (c2_renamed.1, c2_renamed.2)
  ∧ length (db_customers c2_renamed.2) = length (db_customers sample_world)
  ∧ ∀ (i : nat) c, db_customers sample_world !! i = Some c →
                   field_has c "id" "c2" = false →
                   db_customers c2_renamed.2 !! i = Some c.
Proof.
  pose proof (surjective_pairing c2_renamed) as Hrun.
  exact (conj Hrun
    (update_customer_frame sample_fromisoformat sample_isoformat sample_uuid4
       sample_health_score "c2" rename_c2 csm1_user sample_world
       c2_renamed.1 c2_renamed.2 Hrun)).
Defined.

(** The ids accessible to [csm1], to the account manager [am1] and to
    the administrator. *)
Example accessible_customer_ids_samples :
  returned (_accessible_customer_ids csm1_user sample_world) = Some (Some [VStr "c1"])
  ∧ returned (_accessible_customer_ids am1_user sample_world) = Some (Some [VStr "c1"])
  ∧ returned (_accessible_customer_ids admin_user sample_world) = Some None
  ∧ returned (_accessible_customer_ids guest_user sample_world) = Some (Some []).
Proof. by_eval. Qed.

(** ** Listings *)

(** The account manager [am1] on the default configuration. *)
Lemma team_scope_listings_unavailable_witness :
  let run := _get_effective_permissions am1_user sample_world in
  let eff := default (Effective ∅) (returned run) in
  let unavailable : result (list doc) :=
    HTTPException 503 "Database error: name '_get_team_csm_ids' is not defined" in
  _get_effective_permissions am1_user sample_world = (Ok eff, run.2)
  ∧ (enabled_of (default empty_perm (modules eff !! "activities")) = true →
     mp_scope (default empty_perm (modules eff !! "activities")) = Some "team" →
     get_activities sample_fromisoformat sample_sort [] None am1_user sample_world
     = (unavailable, run.2))
  ∧ (enabled_of (default empty_perm (modules eff !! "risks")) = true →
     mp_scope (default empty_perm (modules eff !! "risks")) = Some "team" →
     get_risks sample_fromisoformat sample_sort [] None am1_user sample_world
     = (unavailable, run.2)).
Proof.
  intros run eff unavailable.
  assert (is_Ok run = true) as Hok by by_eval.
  pose proof (run_returned run (Effective ∅) Hok) as Hrun.
  exact (conj Hrun
    (team_scope_listings_unavailable sample_fromisoformat sample_sort [] [] None
       am1_user sample_world eff run.2 Hrun)).
Defined.

(** On the default configuration the account manager gets the 503 from
    both listings, the CSM, whose scope is own, an empty list, and a
    sales user a 403. *)
Example listings_samples :
  (get_activities sample_fromisoformat sample_sort [] None am1_user sample_world).1
  = HTTPException 503 "Database error: name '_get_team_csm_ids' is not defined"
  ∧ (get_risks sample_fromisoformat sample_sort [] (Some "c1") am1_user sample_world).1
    = HTTPException 503 "Database error: name '_get_team_csm_ids' is not defined"
  ∧ returned (get_activities sample_fromisoformat sample_sort [] None csm1_user sample_world)
    = Some []
  ∧ (get_activities sample_fromisoformat sample_sort [] None sales_user sample_world).1
    = HTTPException 403 "Activities module not accessible".
Proof. by_eval. Qed.
